(** * adaptive/runner.py: the runners of the adaptive scheduler

    A shallow embedding of [runner.py] and the properties of its
    construction, scheduling loop, teardown, call log and trivial executor.

    Conventions.
    - A Python exception is a value of [exn]; a call that may raise returns
      an [outcome].
    - The learner (the point-selection oracle) belongs to the caller; the
      runner touches it through [choose_points], [add_point] and
      [remove_unfinished] only, which are state transformers over an
      abstract learner state.
    - Everything the runner does to the learner, to futures and to the
      executor is recorded, in program order, in a trace of [event]s.
    - What the world outside the runner decides (which futures a wake-up
      reports, what a future holds, whether a submission fails, whether a
      cancellation request is delivered at a suspension point of the
      coroutine) is an [environment]; the properties hold for every
      environment.
    - The learner's methods and the goal return; signals arriving between
      two statements ([KeyboardInterrupt]) are outside the model.
    - A [while] loop that may not end is run on fuel. *)

From Stdlib Require Import ZArith List String Bool Arith Lia.
Import ListNotations.
Local Open Scope string_scope.
Local Open Scope list_scope.
Set Implicit Arguments.

(* ================================================================== *)
(** ** Python exceptions and calls that may raise *)

(** An exception object: its class name, its message, and whether its class
    derives from [Exception] (what [except Exception] looks at;
    [KeyboardInterrupt], [SystemExit] and [GeneratorExit] derive from
    [BaseException] only). *)
Record exn : Type := mk_exn {
  exn_class : string;
  exn_msg : string;
  exn_is_Exception : bool
}.

Definition RuntimeError (msg : string) : exn := mk_exn "RuntimeError" msg true.
Definition ValueError (msg : string) : exn := mk_exn "ValueError" msg true.
Definition TypeError (msg : string) : exn := mk_exn "TypeError" msg true.
Definition KeyError (msg : string) : exn := mk_exn "KeyError" msg true.
Definition AttributeError (msg : string) : exn := mk_exn "AttributeError" msg true.

Inductive outcome (A : Type) : Type :=
| Returns (a : A)
| Raises (e : exn).
Arguments Returns {A} a.
Arguments Raises {A} e.

(* ================================================================== *)
(** ** Executors *)

(** The classes [_ensure_executor] and [_get_ncores] tell apart with
    [isinstance]. *)
Inductive executor_class : Type :=
| ProcessPoolExecutor
| ThreadPoolExecutor
| SequentialExecutor
| ViewExecutor        (* ipyparallel.client.view.ViewExecutor *)
| ClientExecutor      (* distributed.cfexecutor.ClientExecutor *)
| OtherExecutor       (* any other subclass of concurrent.futures.Executor *)
| IpyparallelClient   (* ipyparallel.Client *)
| DistributedClient   (* distributed.Client *)
| OtherObject.        (* anything else *)

(** What the runner reads of an object passed as [executor]: its class, its
    truth value ([if executor:]) and the worker count its class exposes
    ([_max_workers], [len(ex.view)], [len(ex._client.ncores())]). *)
Record pyobject : Type := mk_pyobject {
  class_of : executor_class;
  truth : bool;
  cores : nat
}.

(** [isinstance(executor, concurrent.Executor)] *)
Definition is_Executor (c : executor_class) : bool :=
  match c with
  | ProcessPoolExecutor | ThreadPoolExecutor | SequentialExecutor
  | ViewExecutor | ClientExecutor | OtherExecutor => true
  | IpyparallelClient | DistributedClient | OtherObject => false
  end.

(** [concurrent.ProcessPoolExecutor()]: [os.cpu_count() or 1] workers. *)
Definition new_ProcessPoolExecutor (cpu_count : nat) : pyobject :=
  mk_pyobject ProcessPoolExecutor true
              (if Nat.eqb cpu_count 0 then 1 else cpu_count).

Section Backends.
(** The module-level flags set by the guarded imports, and the machine's
    [os.cpu_count()]. *)
Variables with_ipyparallel with_distributed : bool.
Variable cpu_count : nat.

Definition _ensure_executor (executor : option pyobject) : outcome pyobject :=
  match executor with
  | None => Returns (new_ProcessPoolExecutor cpu_count)
  | Some ex =>
      if is_Executor (class_of ex) then Returns ex
      else if with_ipyparallel &&
              match class_of ex with IpyparallelClient => true | _ => false end
      then Returns (mk_pyobject ViewExecutor true (cores ex))
      else if with_distributed &&
              match class_of ex with DistributedClient => true | _ => false end
      then Returns (mk_pyobject ClientExecutor true (cores ex))
      else Raises (TypeError
        "Only a concurrent.futures.Executor, distributed.Client, or ipyparallel.Client can be used.")
  end.

Definition _get_ncores (ex : pyobject) : outcome nat :=
  if with_ipyparallel &&
     match class_of ex with ViewExecutor => true | _ => false end
  then Returns (cores ex)
  else if match class_of ex with
          | ProcessPoolExecutor | ThreadPoolExecutor => true
          | _ => false
          end
  then Returns (cores ex)
  else if match class_of ex with SequentialExecutor => true | _ => false end
  then Returns 1
  else if with_distributed &&
          match class_of ex with ClientExecutor => true | _ => false end
  then Returns (cores ex)
  else Raises (TypeError "Cannot get number of cores").
  (* the message goes on with the class of [ex] *)
End Backends.

(* ================================================================== *)
(** ** SequentialExecutor *)

Module Sequential.

(** A [concurrent.Future]: pending, or finished with a result or with an
    exception. *)
Inductive Future (B : Type) : Type :=
| PENDING
| FINISHED (r : outcome B).
Arguments PENDING {B}.
Arguments FINISHED {B} r.

Definition set_result {B} (fut : Future B) (v : B) : Future B :=
  FINISHED (Returns v).
Definition set_exception {B} (fut : Future B) (e : exn) : Future B :=
  FINISHED (Raises e).

(** [fut.done()] *)
Definition is_done {B} (fut : Future B) : bool :=
  match fut with PENDING => false | FINISHED _ => true end.

(** [submit(self, fn, *args, **kwargs)]: the call [fn(...)] is made here,
    inside the [try]; [except Exception] lets an exception that does not
    derive from [Exception] through. *)
Definition submit {A B} (fn : A -> outcome B) (x : A) : outcome (Future B) :=
  let fut := PENDING in
  match fn x with
  | Returns v => Returns (set_result fut v)
  | Raises e =>
      if exn_is_Exception e then Returns (set_exception fut e)
      else Raises e
  end.

(** [shutdown(self, wait=True)]: [pass]. *)
Definition shutdown (self : pyobject) (wait : bool) : pyobject := self.

(** [SequentialExecutor()] *)
Definition new : pyobject := mk_pyobject SequentialExecutor true 1.

End Sequential.

(* ================================================================== *)
(** ** The runners *)

(** Where [self._submit] sends a unit of work. *)
Inductive submit_target : Type :=
| to_executor   (* self.executor.submit / ioloop.run_in_executor(self.executor, ...) *)
| on_ioloop.    (* ioloop.create_task(learner.function(x)) *)

(** [BlockingRunner._run] and [AsyncRunner._run] are the same text up to the
    wait primitive ([concurrent.wait] against [await asyncio.wait]). *)
Inductive strategy : Type := Blocking | Async.

(** How a run left [_run]; [Running] is the answer of a run that was given
    too little fuel to leave its [while] loop. *)
Inductive completion : Type :=
| Completed
| Failed (e : exn)
| Running.

Section Runner.
Variables L X Y : Type.

(** The three learner methods the runner calls, as what they make of the
    learner; [choose_points] also returns its points. *)
Record oracle : Type := mk_oracle {
  choose_points : nat -> L -> list X * L;   (* returns (points, _) *)
  add_point : X -> Y -> L -> L;
  remove_unfinished : L -> L
}.

(** Futures are numbered in the order of their creation; a future is a
    new object for every submission. *)
Record environment : Type := mk_environment {
  (** does the [k]-th submission raise instead of returning a future *)
  submit_raises : nat -> X -> option exn;
  (** what [fut.result()] gives for future [fut] submitted with [x] *)
  future_outcome : nat -> X -> outcome Y;
  (** the futures a first-completed wait reports at the [k]-th suspension,
      in the order the loop iterates over them *)
  resolved_at : nat -> list nat -> list nat;
  (** the exception the event loop throws into the coroutine at its
      [k]-th suspension, if any ([task.cancel()]) *)
  thrown_at : nat -> option exn
}.

Inductive arg : Type :=
| ArgInt (n : nat)
| ArgX (x : X)
| ArgY (y : Y).

(** ['(method_name, *args)'] *)
Definition log_entry : Type := (string * list arg)%type.

Inductive event : Type :=
| EvNewPool                                   (* ProcessPoolExecutor() *)
| EvGetNcores                                 (* _get_ncores(self.executor) *)
| EvChoosePoints (n : nat)                    (* learner.choose_points(n) *)
| EvSubmit (via : submit_target) (x : X) (r : outcome nat)
| EvWait (futures : list nat) (r : outcome (list nat))
| EvPop (fut : nat) (x : X)                   (* xs.pop(fut) *)
| EvResult (fut : nat) (r : outcome Y)        (* fut.result() *)
| EvAddPoint (x : X) (y : Y)                  (* learner.add_point(x, y) *)
| EvRemoveUnfinished                          (* learner.remove_unfinished() *)
| EvCancel (fut : nat)                        (* fut.cancel() *)
| EvWaitAll (futures : list nat) (thrown : option exn)
| EvShutdown.                                 (* executor.shutdown() *)

(** The attributes of [self] that stay fixed once constructed. *)
Record runner : Type := mk_runner {
  executor : pyobject;
  goal : L -> bool;
  ntasks : Z;
  shutdown_executor : bool;
  _submit : submit_target
}.

(** What a run changes: [self.learner], [self.log], the locals [xs] and
    [done] of [_run], the count of futures and of suspensions so far, and
    the trace. *)
Record state : Type := mk_state {
  learner : L;
  log : option (list log_entry);
  xs : list (nat * X);
  done : list (option nat);
  nfut : nat;
  nwait : nat;
  trace : list event
}.

Definition set_learner (s : state) (l : L) : state :=
  mk_state l (log s) (xs s) (done s) (nfut s) (nwait s) (trace s).
Definition set_log (s : state) (g : option (list log_entry)) : state :=
  mk_state (learner s) g (xs s) (done s) (nfut s) (nwait s) (trace s).
Definition set_xs (s : state) (d : list (nat * X)) : state :=
  mk_state (learner s) (log s) d (done s) (nfut s) (nwait s) (trace s).
Definition set_done (s : state) (d : list (option nat)) : state :=
  mk_state (learner s) (log s) (xs s) d (nfut s) (nwait s) (trace s).
Definition set_nfut (s : state) (n : nat) : state :=
  mk_state (learner s) (log s) (xs s) (done s) n (nwait s) (trace s).
Definition set_nwait (s : state) (n : nat) : state :=
  mk_state (learner s) (log s) (xs s) (done s) (nfut s) n (trace s).
Definition set_trace (s : state) (t : list event) : state :=
  mk_state (learner s) (log s) (xs s) (done s) (nfut s) (nwait s) t.

(** *** Statements: state passing with exceptions *)

Definition M (A : Type) : Type := state -> state * outcome A.

Definition ret {A} (a : A) : M A := fun s => (s, Returns a).
Definition raise {A} (e : exn) : M A := fun s => (s, Raises e).
Definition bind {A B} (m : M A) (k : A -> M B) : M B :=
  fun s => match m s with
           | (s', Returns a) => k a s'
           | (s', Raises e) => (s', Raises e)
           end.

Notation "x <- m ;; k" := (bind m (fun x => k))
  (at level 61, m at next level, right associativity).
Notation "m ;; k" := (bind m (fun _ => k))
  (at level 61, right associativity).

(** [for a in l: f(a)] *)
Fixpoint for_ {A} (l : list A) (f : A -> M unit) : M unit :=
  match l with
  | [] => ret tt
  | a :: l' => f a ;; for_ l' f
  end.

Definition emit (ev : event) : M unit :=
  fun s => (set_trace s (trace s ++ [ev]), Returns tt).

(** [if do_log: self.log.append(entry)], with [do_log = self.log is not None] *)
Definition log_append (entry : log_entry) : M unit :=
  fun s => (set_log s (option_map (fun g => g ++ [entry]) (log s)), Returns tt).

(** [xs.pop(fut)] on the pairs of the dict, in insertion order *)
Fixpoint dict_pop (fut : nat) (d : list (nat * X)) : option (X * list (nat * X)) :=
  match d with
  | [] => None
  | (k, x) :: d' =>
      if Nat.eqb k fut then Some (x, d')
      else match dict_pop fut d' with
           | Some (y, d'') => Some (y, (k, x) :: d'')
           | None => None
           end
  end.

(** [list(xs.keys())] *)
Definition keys (d : list (nat * X)) : list nat := map fst d.

Section Run.
Variable orc : oracle.
Variable env : environment.
Variable mode : strategy.
Variable self : runner.

(** [self.learner.choose_points(n)] *)
Definition call_choose_points (n : nat) : M (list X) :=
  fun s => let (points, l') := choose_points orc n (learner s) in
           (set_trace (set_learner s l') (trace s ++ [EvChoosePoints n]),
            Returns points).

(** [self.learner.add_point(x, y)] *)
Definition call_add_point (x : X) (y : Y) : M unit :=
  fun s => (set_trace (set_learner s (add_point orc x y (learner s)))
                      (trace s ++ [EvAddPoint x y]),
            Returns tt).

(** [self.learner.remove_unfinished()] *)
Definition call_remove_unfinished : M unit :=
  fun s => (set_trace (set_learner s (remove_unfinished orc (learner s)))
                      (trace s ++ [EvRemoveUnfinished]),
            Returns tt).

(** [self._submit(x)]: a new future, or the exception of the submission *)
Definition call_submit (x : X) : M nat :=
  fun s => match submit_raises env (nfut s) x with
           | Some e =>
               (set_trace s (trace s ++ [EvSubmit (_submit self) x (Raises e)]),
                Raises e)
           | None =>
               (set_trace (set_nfut s (S (nfut s)))
                  (trace s ++ [EvSubmit (_submit self) x (Returns (nfut s))]),
                Returns (nfut s))
           end.

(** [xs[fut] = x]; [fut] is a new object, so the key is new *)
Definition xs_set (fut : nat) (x : X) : M unit :=
  fun s => (set_xs s (xs s ++ [(fut, x)]), Returns tt).

(** [x = xs.pop(fut)] *)
Definition xs_pop (fut : nat) : M X :=
  fun s => match dict_pop fut (xs s) with
           | Some (x, d) =>
               (set_trace (set_xs s d) (trace s ++ [EvPop fut x]), Returns x)
           | None => (s, Raises (KeyError "fut"))
           end.

(** [y = fut.result()] *)
Definition call_result (fut : nat) (x : X) : M Y :=
  fun s => let r := future_outcome env fut x in
           (set_trace s (trace s ++ [EvResult fut r]), r).

(** The wait for the first completed future.
    [concurrent.wait(futures, return_when=FIRST_COMPLETED)] returns at
    once, with nothing done, on an empty list;
    [asyncio.wait(futures, ...)] raises [ValueError] on an empty set
    before it suspends, and is a suspension point otherwise. *)
Definition wait_first_completed (futures : list nat) : M (list nat) :=
  fun s =>
    match futures with
    | [] =>
        match mode with
        | Blocking =>
            (set_trace s (trace s ++ [EvWait [] (Returns [])]), Returns [])
        | Async =>
            let e := ValueError "Set of coroutines/Futures is empty." in
            (set_trace s (trace s ++ [EvWait [] (Raises e)]), Raises e)
        end
    | _ :: _ =>
        let k := nwait s in
        let r := match mode, thrown_at env k with
                 | Async, Some e => Raises e
                 | _, _ => Returns (resolved_at env k futures)
                 end in
        (set_trace (set_nwait s (S k)) (trace s ++ [EvWait futures r]), r)
    end.

(** The wait for all of [remaining] in the teardown (never called on an
    empty list); a suspension point of the coroutine in [AsyncRunner]. *)
Definition wait_all (remaining : list nat) : M unit :=
  fun s =>
    let k := nwait s in
    let thrown := match mode with
                  | Blocking => None
                  | Async => thrown_at env k
                  end in
    (set_trace (set_nwait s (S k)) (trace s ++ [EvWaitAll remaining thrown]),
     match thrown with Some e => Raises e | None => Returns tt end).

Definition gets {A} (f : state -> A) : M A := fun s => (s, Returns (f s)).

(** [done = ...] *)
Definition assign_done (d : list (option nat)) : M unit :=
  fun s => (set_done s d, Returns tt).

(** [if do_log: self.log.append(('choose_points', n))] and then
    [points, _ = self.learner.choose_points(n)] *)
Definition logged_choose_points (n : nat) : M (list X) :=
  log_append ("choose_points", [ArgInt n]) ;;
  call_choose_points n.

(** [if do_log: self.log.append(('add_point', x, y))] and then
    [self.learner.add_point(x, y)] *)
Definition logged_add_point (x : X) (y : Y) : M unit :=
  log_append ("add_point", [ArgX x; ArgY y]) ;;
  call_add_point x y.

(** [xs[self._submit(x)] = x] *)
Definition submit_into_xs (x : X) : M unit :=
  fut <- call_submit x ;;
  xs_set fut x.

(** The body of [for fut in done]: pop the input, fetch the result,
    hand both to the learner. *)
Definition absorb (fut : nat) : M unit :=
  x <- xs_pop fut ;;
  y <- call_result fut x ;;
  logged_add_point x y.

(** One pass through the body of the [while] loop. *)
Definition loop_body : M unit :=
  n <- gets (fun s => List.length (done s)) ;;
  points <- logged_choose_points n ;;
  for_ points submit_into_xs ;;
  futures <- gets (fun s => keys (xs s)) ;;
  done' <- wait_first_completed futures ;;
  assign_done (map Some done') ;;
  for_ done' absorb.

(** [while not self.goal(self.learner): ...] *)
Fixpoint while_loop (fuel : nat) (s : state) : state * completion :=
  match fuel with
  | 0 => (s, Running)
  | S fuel' =>
      if goal self (learner s) then (s, Completed)
      else match loop_body s with
           | (s', Returns _) => while_loop fuel' s'
           | (s', Raises e) => (s', Failed e)
           end
  end.

(** The [finally] block. *)
Definition finally_block : M unit :=
  call_remove_unfinished ;;
  remaining <- gets (fun s => keys (xs s)) ;;
  match remaining with
  | [] => ret tt
  | _ :: _ => for_ remaining (fun fut => emit (EvCancel fut)) ;;
              wait_all remaining
  end ;;
  if shutdown_executor self then emit EvShutdown else ret tt.

(** [_run(self)].  An exception of the [finally] block replaces the one
    the [try] block was left with. *)
Definition _run (fuel : nat) (s : state) : state * completion :=
  let s := set_done (set_xs s []) (repeat None (Z.to_nat (ntasks self))) in
  if Nat.eqb (List.length (done s)) 0
  then (s, Failed (RuntimeError "Executor has no workers"))
  else match while_loop fuel s with
       | (s', Running) => (s', Running)
       | (s', c) =>
           match finally_block s' with
           | (s'', Returns _) => (s'', c)
           | (s'', Raises e) => (s'', Failed e)
           end
       end.
End Run.
End Runner.

Arguments ArgInt {X Y} n.
Arguments ArgX {X Y} x.
Arguments ArgY {X Y} y.
Arguments EvNewPool {X Y}.
Arguments EvGetNcores {X Y}.
Arguments EvChoosePoints {X Y} n.
Arguments EvSubmit {X Y} via x r.
Arguments EvWait {X Y} futures r.
Arguments EvPop {X Y} fut x.
Arguments EvResult {X Y} fut r.
Arguments EvAddPoint {X Y} x y.
Arguments EvRemoveUnfinished {X Y}.
Arguments EvCancel {X Y} fut.
Arguments EvWaitAll {X Y} futures thrown.
Arguments EvShutdown {X Y}.
Arguments mk_state {L X Y}.
Arguments mk_runner {L}.
Arguments ret {L X Y A} a.
Arguments raise {L X Y A} e.
Arguments bind {L X Y A B} m k.
Arguments emit {L X Y} ev.
Arguments for_ {L X Y A} l f.

(* ================================================================== *)
(** ** Construction *)

(** The module-level flags set by the guarded imports, and [os.cpu_count()]. *)
Record platform : Type := mk_platform {
  with_ipyparallel : bool;
  with_distributed : bool;
  cpu_count : nat
}.

(** The keyword arguments the three constructors share. *)
Record init_args : Type := mk_init_args {
  arg_executor : option pyobject;    (* executor=None *)
  arg_ntasks : option Z;             (* ntasks=None *)
  arg_log : bool;                    (* log=False *)
  arg_shutdown_executor : bool       (* shutdown_executor=True *)
}.

(** [if executor:] on the argument as the caller passed it *)
Definition truthy (executor : option pyobject) : bool :=
  match executor with
  | None => false
  | Some ex => truth ex
  end.

(** [executor is None] *)
Definition is_None {A} (o : option A) : bool :=
  match o with None => true | Some _ => false end.

Section Construction.
Variables L X Y : Type.
Variable pf : platform.
Variable orc : oracle L X Y.
Variable env : environment X Y.

Local Notation "x <- m ;; k" := (bind m (fun x => k))
  (at level 61, m at next level, right associativity).
Local Notation "m ;; k" := (bind m (fun _ => k))
  (at level 61, right associativity).

(** The state a constructor starts from: the caller's learner, nothing
    done yet. *)
Definition fresh (learner : L) : state L X Y :=
  mk_state learner None [] [] 0 0 [].

(** [_ensure_executor(executor)], noting the pool it constructs *)
Definition call_ensure_executor (executor : option pyobject)
  : M L X Y pyobject :=
  match _ensure_executor (with_ipyparallel pf) (with_distributed pf)
                         (cpu_count pf) executor with
  | Returns ex =>
      (if is_None executor then emit EvNewPool else ret tt) ;;
      ret ex
  | Raises e => raise e
  end.

(** [_get_ncores(self.executor)] *)
Definition call_get_ncores (ex : pyobject) : M L X Y Z :=
  emit EvGetNcores ;;
  match _get_ncores (with_ipyparallel pf) (with_distributed pf) ex with
  | Returns n => ret (Z.of_nat n)
  | Raises e => raise e
  end.

(** [BaseRunner.__init__]; [ntasks or _get_ncores(...)] evaluates its
    right operand only when [ntasks] is [None] or [0]. *)
Definition BaseRunner_init (goal : L -> bool) (a : init_args)
  : M L X Y (runner L) :=
  ex <- call_ensure_executor (arg_executor a) ;;
  ntasks <- match arg_ntasks a with
            | Some n => if Z.eqb n 0 then call_get_ncores ex else ret n
            | None => call_get_ncores ex
            end ;;
  let shutdown_executor :=
    arg_shutdown_executor a || is_None (arg_executor a) in
  (fun s => (set_log s (if arg_log a then Some [] else None), Returns tt)) ;;
  ret (mk_runner ex goal ntasks shutdown_executor to_executor).

(** [BlockingRunner.__init__]: the constructor runs the loop itself. *)
Definition BlockingRunner_init (function_is_coroutine : bool)
    (goal : L -> bool) (a : init_args) (fuel : nat) (s : state L X Y)
  : state L X Y * completion :=
  if function_is_coroutine
  then (s, Failed (ValueError
              "Coroutine functions can only be used with 'AsyncRunner'."))
  else match BaseRunner_init goal a s with
       | (s', Returns self) => _run orc env Blocking self fuel s'
       | (s', Raises e) => (s', Failed e)
       end.

(** [def goal(_): return False] for [goal=None] *)
Definition goal_of (goal_arg : option (L -> bool)) : L -> bool :=
  match goal_arg with
  | None => fun _ => false
  | Some g => g
  end.

(** [AsyncRunner.__init__] up to the creation of the task; the task then
    runs [_run] in mode [Async] on the runner returned here. *)
Definition AsyncRunner_init (function_is_coroutine : bool)
    (goal_arg : option (L -> bool)) (a : init_args)
  : M L X Y (runner L) :=
  let g := goal_of goal_arg in
  self <- BaseRunner_init g a ;;
  if function_is_coroutine
  then
    (if truthy (arg_executor a)
     then raise (RuntimeError "Executor is unused when learning an async function")
     else ret tt) ;;
    emit EvShutdown ;;
    ret (mk_runner (executor self) (goal self) (ntasks self)
                   (shutdown_executor self) on_ioloop)
  else
    ret (mk_runner (executor self) (goal self) (ntasks self)
                   (shutdown_executor self) to_executor).
End Construction.

(* ================================================================== *)
(** ** replay_log *)

Section Replay.
Variables L X Y : Type.
Variable orc : oracle L X Y.

(** [getattr(learner, method)] called on [args], over the methods the runner logs
    and calls; another name has no method here, other arguments do not
    fit the method's signature. *)
Definition call_method (method : string) (args : list (arg X Y)) (l : L)
  : outcome L :=
  if String.eqb method "choose_points" then
    match args with
    | [ArgInt n] => Returns (snd (choose_points orc n l))
    | _ => Raises (TypeError "choose_points")
    end
  else if String.eqb method "add_point" then
    match args with
    | [ArgX x; ArgY y] => Returns (add_point orc x y l)
    | _ => Raises (TypeError "add_point")
    end
  else if String.eqb method "remove_unfinished" then
    match args with
    | [] => Returns (remove_unfinished orc l)
    | _ => Raises (TypeError "remove_unfinished")
    end
  else Raises (AttributeError method).

(** [for method, *args in log:] call [getattr(learner, method)] on
    [args]; the
    answer is the learner as the calls left it, and the exception that
    stopped the replay, if one did. *)
Fixpoint replay_log (learner : L) (log : list (log_entry X Y))
  : L * option exn :=
  match log with
  | [] => (learner, None)
  | (method, args) :: log' =>
      match call_method method args learner with
      | Returns l' => replay_log l' log'
      | Raises e => (learner, Some e)
      end
  end.
End Replay.


(* ================================================================== *)
(** ** Reading a trace *)

Section Traces.
Variables L X Y : Type.
Variable orc : oracle L X Y.

(** The events the [while] loop can produce. *)
Definition loop_event (ev : event X Y) : bool :=
  match ev with
  | EvChoosePoints _ | EvSubmit _ _ _ | EvWait _ _ | EvPop _ _
  | EvResult _ _ | EvAddPoint _ _ => true
  | _ => false
  end.

(** The events of the teardown. *)
Definition teardown_event (ev : event X Y) : bool :=
  match ev with
  | EvRemoveUnfinished | EvCancel _ | EvWaitAll _ _ | EvShutdown => true
  | _ => false
  end.

Fixpoint remove_first (fut : nat) (l : list nat) : list nat :=
  match l with
  | [] => []
  | k :: l' => if Nat.eqb k fut then l' else k :: remove_first fut l'
  end.

(** The outstanding futures: submitted, and not popped from [xs] since. *)
Definition outstanding_step (o : list nat) (ev : event X Y) : list nat :=
  match ev with
  | EvSubmit _ _ (Returns fut) => o ++ [fut]
  | EvPop fut _ => remove_first fut o
  | _ => o
  end.
Definition outstanding_from (o : list nat) (evs : list (event X Y)) : list nat :=
  fold_left outstanding_step evs o.
Definition outstanding (evs : list (event X Y)) : list nat :=
  outstanding_from [] evs.

(** The learner after the calls of a trace. *)
Definition learner_step (l : L) (ev : event X Y) : L :=
  match ev with
  | EvChoosePoints n => snd (choose_points orc n l)
  | EvAddPoint x y => add_point orc x y l
  | EvRemoveUnfinished => remove_unfinished orc l
  | _ => l
  end.
Definition learner_after (l : L) (evs : list (event X Y)) : L :=
  fold_left learner_step evs l.

(** The log entries the loop writes for the calls of a trace. *)
Definition logged_of (ev : event X Y) : list (log_entry X Y) :=
  match ev with
  | EvChoosePoints n => [("choose_points", [ArgInt n])]
  | EvAddPoint x y => [("add_point", [ArgX x; ArgY y])]
  | _ => []
  end.
Definition logged (evs : list (event X Y)) : list (log_entry X Y) :=
  flat_map logged_of evs.

(** One entry for every call of a learner method, [remove_unfinished]
    included. *)
Definition learner_calls_of (ev : event X Y) : list (log_entry X Y) :=
  match ev with
  | EvRemoveUnfinished => [("remove_unfinished", [])]
  | _ => logged_of ev
  end.
Definition learner_calls (evs : list (event X Y)) : list (log_entry X Y) :=
  flat_map learner_calls_of evs.

(** A submission went where [via] says. *)
Definition submitted_via (via : submit_target) (ev : event X Y) : Prop :=
  match ev with
  | EvSubmit via' _ _ => via' = via
  | _ => True
  end.

(** [fut.result()] raised. *)
Definition failed_result (ev : event X Y) : bool :=
  match ev with
  | EvResult _ (Raises _) => true
  | _ => false
  end.
Definition clean (evs : list (event X Y)) : Prop :=
  Forall (fun ev => failed_result ev = false) evs.

Definition count (p : event X Y -> bool) (evs : list (event X Y)) : nat :=
  List.length (filter p evs).

Definition is_remove_unfinished (ev : event X Y) : bool :=
  match ev with EvRemoveUnfinished => true | _ => false end.
Definition is_shutdown (ev : event X Y) : bool :=
  match ev with EvShutdown => true | _ => false end.
Definition is_add_point (ev : event X Y) : bool :=
  match ev with EvAddPoint _ _ => true | _ => false end.
Definition is_choose_points (ev : event X Y) : bool :=
  match ev with EvChoosePoints _ => true | _ => false end.
Definition is_submit (ev : event X Y) : bool :=
  match ev with EvSubmit _ _ _ => true | _ => false end.

(** The events of a teardown that runs to its end over [remaining]. *)
Definition teardown (shutdown : bool) (remaining : list nat)
  : list (event X Y) :=
  EvRemoveUnfinished ::
  match remaining with
  | [] => []
  | _ :: _ => map EvCancel remaining ++ [EvWaitAll remaining None]
  end ++
  (if shutdown then [EvShutdown] else []).

(** The events of a teardown whose wait is left by exception [e]. *)
Definition teardown_cut (remaining : list nat) (e : exn)
  : list (event X Y) :=
  EvRemoveUnfinished :: map EvCancel remaining ++ [EvWaitAll remaining (Some e)].
End Traces.

Arguments teardown {X Y} shutdown remaining.
Arguments teardown_cut {X Y} remaining e.

(* ================================================================== *)
(** ** The vocabulary of the proofs *)

Section Vocabulary.
Variables L X Y : Type.
Variable orc : oracle L X Y.
Variable self : runner L.

(** [m], started in a state of [P], returns [a] in a state of [Q a] or
    raises [e] in a state of [E e]. *)
Definition triple {A} (P : state L X Y -> Prop) (m : M L X Y A)
    (Q : A -> state L X Y -> Prop) (E : exn -> state L X Y -> Prop) : Prop :=
  forall s, P s ->
    match m s with
    | (s', Returns a) => Q a s'
    | (s', Raises e) => E e s'
    end.

(** State [s] is reached from [s0] by loop events [evs], and the map, the
    learner and the log of [s] are what these events make of those of
    [s0]. *)
Record related (s0 s : state L X Y) (evs : list (event X Y)) : Prop :=
  mk_related {
    rel_trace : trace s = trace s0 ++ evs;
    rel_loop : Forall (fun ev => loop_event ev = true) evs;
    rel_via : Forall (submitted_via (_submit self)) evs;
    rel_xs : keys (xs s) = outstanding_from (keys (xs s0)) evs;
    rel_learner : learner s = learner_after orc (learner s0) evs;
    rel_log : log s = option_map (fun g => g ++ logged evs) (log s0)
  }.

(** The keys of [xs] are distinct futures, all created already. *)
Definition distinct_keys (s : state L X Y) : Prop :=
  NoDup (keys (xs s)) /\ Forall (fun k => k < nfut s) (keys (xs s)).

(** The trace ends in the failed [fut.result()] that raised [e], and
    [fut] is no longer in the map of [s]. *)
Definition ends_failed (e : exn) (s : state L X Y) (evs : list (event X Y))
  : Prop :=
  exists (evs' : list (event X Y)) fut,
    evs = evs' ++ [EvResult fut (Raises e)] /\ clean evs' /\
    ~ In fut (keys (xs s)).

(** What a statement that ended with [r] in state [s] may have appended: a
    failed result only as the last event, and only when it raises. *)
Definition okout {A} (r : outcome A) (s : state L X Y)
    (evs : list (event X Y)) : Prop :=
  match r with
  | Returns _ => clean evs
  | Raises e => clean evs \/ ends_failed e s evs
  end.

(** [m] keeps the keys distinct, relates the state it ends in to the one
    it starts from, and appends as [okout] allows. *)
Definition sound {A} (m : M L X Y A) : Prop :=
  forall s, distinct_keys s ->
    exists evs, related s (fst (m s)) evs /\
                distinct_keys (fst (m s)) /\
                okout (snd (m s)) (fst (m s)) evs.

(** How the [while] loop can be left in state [s] with events [evs]. *)
Definition loop_left (c : completion) (s : state L X Y)
    (evs : list (event X Y)) : Prop :=
  match c with
  | Completed => clean evs /\ goal self (learner s) = true
  | Failed e => clean evs \/ ends_failed e s evs
  | Running => False
  end.

(** The number of futures the latest wake-up of [evs] reported; [n0]
    before the first wake-up. *)
Definition reported_step (acc : nat) (ev : event X Y) : nat :=
  match ev with
  | EvWait _ (Returns d) => List.length d
  | _ => acc
  end.
Definition last_reported (n0 : nat) (evs : list (event X Y)) : nat :=
  fold_left reported_step evs n0.

(** The learner returns as many points as it is asked for. *)
Definition exact : Prop :=
  forall n l, List.length (fst (choose_points orc n l)) = n.

(** Every request of [evs] is for as many points as the wake-up before it
    reported, and, with an exact learner, for as many as bring the
    outstanding futures back to [N]. *)
Definition requests_ok (N : nat) (evs : list (event X Y)) : Prop :=
  forall pre n post,
    evs = pre ++ EvChoosePoints n :: post ->
    n = last_reported N pre /\
    (exact -> n = N - List.length (outstanding pre) /\
              List.length (outstanding pre) <= N).

(** Holds between the statements of the loop. *)
Definition requests_inv (t0 : list (event X Y)) (N : nat)
    (P : list (event X Y) -> state L X Y -> Prop) (s : state L X Y) : Prop :=
  exists evs,
    trace s = t0 ++ evs /\ requests_ok N evs /\
    keys (xs s) = outstanding evs /\ P evs s.

(** At the head of the loop: [done] has the length the latest wake-up
    reported and, with an exact learner, [done] and [xs] add up to [N]. *)
Definition at_head (N : nat) (evs : list (event X Y)) (s : state L X Y) : Prop :=
  List.length (done s) = last_reported N evs /\
  (exact -> List.length (done s) + List.length (xs s) = N).

(** Nothing more than [requests_inv] itself. *)
Definition anywhere (evs : list (event X Y)) (s : state L X Y) : Prop := True.


(** The events of [_ensure_executor]. *)
Definition pool_events (executor : option pyobject) : list (event X Y) :=
  if is_None executor then [EvNewPool] else [].

(** [self] with its [_submit] set to [via]. *)
Definition with_submit (self : runner L) (via : submit_target) : runner L :=
  mk_runner (executor self) (goal self) (ntasks self)
            (shutdown_executor self) via.

End Vocabulary.

Arguments pool_events {X Y} executor.

(* ================================================================== *)
(** ** A small learner and some environments, for concrete runs *)

Module Example.

(** A learner over [nat]: it has handed out the inputs below [asked] and
    holds the pairs of [data]; [remove_unfinished] forgets the inputs it
    handed out and got no output for. *)
Record lstate : Type := mk_lstate { asked : nat; data : list (nat * nat) }.

Definition counting : oracle lstate nat nat :=
  mk_oracle
    (fun n l => (seq (asked l) n, mk_lstate (asked l + n) (data l)))
    (fun x y l => mk_lstate (asked l) (data l ++ [(x, y)]))
    (fun l => mk_lstate (List.length (data l)) (data l)).


(** A learner that offers one point whatever it is asked for. *)
Definition stingy : oracle lstate nat nat :=
  mk_oracle
    (fun n l => ([asked l], mk_lstate (asked l + 1) (data l)))
    (fun x y l => mk_lstate (asked l) (data l ++ [(x, y)]))
    (fun l => mk_lstate (List.length (data l)) (data l)).

Definition empty : lstate := mk_lstate 0 [].

(** Stop once [k] points are in. *)
Definition enough (k : nat) (l : lstate) : bool :=
  Nat.leb k (List.length (data l)).

Definition CancelledError : exn := mk_exn "CancelledError" "" false.
Definition ZeroDivisionError : exn :=
  mk_exn "ZeroDivisionError" "division by zero" true.
Definition SystemExit : exn := mk_exn "SystemExit" "1" false.

(** Every unit of work squares its input; a wake-up reports the oldest
    outstanding future; nothing is cancelled. *)
Definition one_by_one : environment nat nat :=
  mk_environment (fun _ _ => None) (fun _ x => Returns (x * x))
                 (fun _ futures => firstn 1 futures) (fun _ => None).

(** As [one_by_one], with a cancellation delivered at the second
    suspension of the coroutine. *)
Definition cancelled_at_second : environment nat nat :=
  mk_environment (fun _ _ => None) (fun _ x => Returns (x * x))
                 (fun _ futures => firstn 1 futures)
                 (fun k => if Nat.eqb k 1 then Some CancelledError else None).

(** As [one_by_one], but the work on input [1] divides by zero. *)
Definition failing_on_1 : environment nat nat :=
  mk_environment (fun _ _ => None)
                 (fun _ x => if Nat.eqb x 1 then Raises ZeroDivisionError
                             else Returns (x * x))
                 (fun _ futures => firstn 1 futures) (fun _ => None).

(** As [failing_on_1], with a cancellation delivered at the third
    suspension of the coroutine. *)
Definition failing_then_cancelled : environment nat nat :=
  mk_environment (fun _ _ => None)
                 (fun _ x => if Nat.eqb x 1 then Raises ZeroDivisionError
                             else Returns (x * x))
                 (fun _ futures => firstn 1 futures)
                 (fun k => if Nat.eqb k 2 then Some CancelledError else None).

(** [SequentialExecutor] as the pool, for the function [fn]: the work is
    done inside [submit], and every future is resolved when the loop
    waits. *)
Definition sequential (fn : nat -> outcome nat) : environment nat nat :=
  mk_environment
    (fun _ x => match Sequential.submit fn x with
                | Raises e => Some e
                | Returns _ => None
                end)
    (fun _ x => match Sequential.submit fn x with
                | Returns (Sequential.FINISHED r) => r
                | _ => fn x
                end)
    (fun _ futures => futures) (fun _ => None).

Definition square (x : nat) : outcome nat := Returns (x * x).

Definition machine : platform := mk_platform false false 4.

(** A runner with two tasks over its own pool. *)
Definition two_tasks (goal : lstate -> bool) : runner lstate :=
  mk_runner (new_ProcessPoolExecutor 4) goal 2 true to_executor.

Definition start : state lstate nat nat := fresh nat nat empty.

End Example.

Module ExamplePools.
(** An ipyparallel view executor over a cluster with no engine. *)
Definition idle_view : pyobject := mk_pyobject ViewExecutor true 0.
Definition cluster : platform := mk_platform true false 4.
(** An executor of the caller's own class. *)
Definition homemade : pyobject := mk_pyobject OtherExecutor true 3.

Definition over (ex : pyobject) (ntasks : option Z) : init_args :=
  mk_init_args (Some ex) ntasks false false.
End ExamplePools.

(* ================================================================== *)
(** ** More vocabulary: construction, replay, logging *)

From Stdlib Require Import Permutation.

(** [_get_ncores] has a branch for the class of [ex]. *)
Definition cores_known (pf : platform) (ex : pyobject) : bool :=
  match class_of ex with
  | ProcessPoolExecutor | ThreadPoolExecutor | SequentialExecutor => true
  | ViewExecutor => with_ipyparallel pf
  | ClientExecutor => with_distributed pf
  | _ => false
  end.

(** The caller left [ntasks] to the runner: [ntasks or ...] takes the right
    operand. *)
Definition ntasks_left_open (a : init_args) : bool :=
  match arg_ntasks a with
  | None => true
  | Some n => Z.eqb n 0
  end.

Section MoreVocabulary.
Variables L X Y : Type.

(** [s] with [self.log = None]. *)
Definition without_log (s : state L X Y) : state L X Y := set_log s None.

(** [m] does the same with and without a log, the log apart. *)
Definition log_blind {A} (m : M L X Y A) : Prop :=
  forall s, m (without_log s) = (without_log (fst (m s)), snd (m s)).

End MoreVocabulary.

(* ================================================================== *)
(** ** More vocabulary: the shape of the loop's trace *)

Section Accounts.
Variables L X Y : Type.
Variable env : environment X Y.
Variable via : submit_target.

(** The futures a trace saw created, with their inputs. *)
Definition submitted_of (ev : event X Y) : list (nat * X) :=
  match ev with
  | EvSubmit _ x (Returns fut) => [(fut, x)]
  | _ => []
  end.
Definition submitted (evs : list (event X Y)) : list (nat * X) :=
  flat_map submitted_of evs.

(** The futures a trace saw popped from the map. *)
Definition popped_of (ev : event X Y) : list nat :=
  match ev with
  | EvPop fut _ => [fut]
  | _ => []
  end.
Definition popped (evs : list (event X Y)) : list nat :=
  flat_map popped_of evs.

(** The futures a trace saw cancelled. *)
Definition cancelled_of (ev : event X Y) : list nat :=
  match ev with
  | EvCancel fut => [fut]
  | _ => []
  end.
Definition cancelled (evs : list (event X Y)) : list nat :=
  flat_map cancelled_of evs.

(** The map after the events of a trace. *)
Fixpoint dict_remove (fut : nat) (d : list (nat * X)) : list (nat * X) :=
  match d with
  | [] => []
  | (k, x) :: d' => if Nat.eqb k fut then d' else (k, x) :: dict_remove fut d'
  end.
Definition dict_step (d : list (nat * X)) (ev : event X Y) : list (nat * X) :=
  match ev with
  | EvSubmit _ x (Returns fut) => d ++ [(fut, x)]
  | EvPop fut _ => dict_remove fut d
  | _ => d
  end.
Definition dict_after (d : list (nat * X)) (evs : list (event X Y))
  : list (nat * X) :=
  fold_left dict_step evs d.

(** What one statement of the loop appends, with map [d] and [k] futures
    made so far. *)
Inductive block (d : list (nat * X)) (k : nat) : list (event X Y) -> Prop :=
| blk_choose n :
    block d k [EvChoosePoints n]
| blk_submitted x :
    submit_raises env k x = None ->
    block d k [EvSubmit via x (Returns k)]
| blk_refused x e :
    submit_raises env k x = Some e ->
    block d k [EvSubmit via x (Raises e)]
| blk_wait r :
    block d k [EvWait (keys d) r]
| blk_absorbed fut x d' y :
    dict_pop fut d = Some (x, d') ->
    future_outcome env fut x = Returns y ->
    block d k [EvPop fut x; EvResult fut (Returns y); EvAddPoint x y]
| blk_failed fut x d' e :
    dict_pop fut d = Some (x, d') ->
    future_outcome env fut x = Raises e ->
    block d k [EvPop fut x; EvResult fut (Raises e)].

(** A trace made of such blocks, each starting from the map and the count
    the one before it left. *)
Inductive blocks : list (nat * X) -> nat -> list (event X Y) -> Prop :=
| blocks_nil d k : blocks d k []
| blocks_cons d k b evs :
    block d k b ->
    blocks (dict_after d b) (k + List.length (submitted b)) evs ->
    blocks d k (b ++ evs).

(** From state [s], statement [m] appends blocks and leaves the map and
    the count they account for. *)
Definition in_blocks {A} (m : M L X Y A) (s : state L X Y) : Prop :=
  exists evs,
    trace (fst (m s)) = trace s ++ evs /\
    xs (fst (m s)) = dict_after (xs s) evs /\
    nfut (fst (m s)) = nfut s + List.length (submitted evs) /\
    blocks (xs s) (nfut s) evs.
End Accounts.

(* ================================================================== *)
(** ** More vocabulary: the futures in flight *)

Section InFlight.
Variables L X Y : Type.
Variable orc : oracle L X Y.

(** The learner returns no more points than it is asked for. *)
Definition frugal : Prop :=
  forall n l, List.length (fst (choose_points orc n l)) <= n.

(** At no point of [evs] are more than [N] futures outstanding. *)
Definition within (N : nat) (evs : list (event X Y)) : Prop :=
  forall pre post,
    evs = pre ++ post -> List.length (outstanding pre) <= N.

(** Holds between the statements of the loop: the events since [t0] stay
    within [N], the map has room for [k] more futures, and [done] is
    [d]. *)
Definition in_flight_inv (t0 : list (event X Y)) (N k : nat)
    (d : list (option nat)) (s : state L X Y) : Prop :=
  exists evs,
    trace s = t0 ++ evs /\ keys (xs s) = outstanding evs /\
    within N evs /\ List.length (xs s) + k <= N /\ done s = d.
End InFlight.

(* ================================================================== *)
(** ** More vocabulary: where an exception comes from *)

Section Origins.
Variables L X Y : Type.

(** The exception an event raised into the loop, if it raised one. *)
Definition raises_of (ev : event X Y) : option exn :=
  match ev with
  | EvSubmit _ _ (Raises e) => Some e
  | EvWait _ (Raises e) => Some e
  | EvResult _ (Raises e) => Some e
  | EvWaitAll _ (Some e) => Some e
  | _ => None
  end.

(** A wake-up reports each future once, and only futures it was asked to
    wait for, as the [done] set of [wait] does. *)
Definition faithful_wait (env : environment X Y) : Prop :=
  forall k futures,
    NoDup (resolved_at env k futures) /\
    incl (resolved_at env k futures) futures.

(** [s] is reached from a state of trace [t0]. *)
Definition since (t0 : list (event X Y)) (s : state L X Y) : Prop :=
  exists evs, trace s = t0 ++ evs.

(** [s] is reached from a state of trace [t0], and its last event raised
    [e]. *)
Definition raised (t0 : list (event X Y)) (e : exn) (s : state L X Y)
  : Prop :=
  exists evs ev, trace s = t0 ++ evs ++ [ev] /\ raises_of ev = Some e.

(** The futures of [l] are distinct keys of the map of [s]. *)
Definition poppable (l : list nat) (s : state L X Y) : Prop :=
  NoDup l /\ incl l (keys (xs s)).
End Origins.

(* ================================================================== *)
(** ** Reasoning about statements *)

Section Hoare.
Variables L X Y : Type.

Lemma triple_ret A (a : A) (P : state L X Y -> Prop) Q E :
  (forall s, P s -> Q a s) -> triple P (ret a) Q E.
Proof. intros H s Hs. simpl. auto. Qed.

Lemma triple_raise A (e : exn) (P : state L X Y -> Prop) (Q : A -> _) E :
  (forall s, P s -> E e s) -> triple P (raise e) Q E.
Proof. intros H s Hs. simpl. auto. Qed.

Lemma triple_bind A B (m : M L X Y A) (k : A -> M L X Y B) P Q R E :
  triple P m Q E -> (forall a, triple (Q a) (k a) R E) ->
  triple P (bind m k) R E.
Proof.
  intros Hm Hk s Hs. unfold bind. specialize (Hm s Hs).
  destruct (m s) as [s' [a|e]]; [apply (Hk a s' Hm) | exact Hm].
Qed.

Lemma triple_conseq A (m : M L X Y A) (P P' : state L X Y -> Prop)
    (Q Q' : A -> _) (E E' : exn -> _) :
  triple P' m Q' E' ->
  (forall s, P s -> P' s) ->
  (forall a s, Q' a s -> Q a s) ->
  (forall e s, E' e s -> E e s) ->
  triple P m Q E.
Proof.
  intros H HP HQ HE s Hs. specialize (H s (HP s Hs)).
  destruct (m s) as [s' [a|e]]; auto.
Qed.

(** The invariant of a [for] loop may speak of the items still to come. *)
Lemma triple_for A (f : A -> M L X Y unit) (I : list A -> state L X Y -> Prop) E :
  forall l,
    (forall a rest, triple (I (a :: rest)) (f a) (fun _ => I rest) E) ->
    triple (I l) (for_ l f) (fun _ => I []) E.
Proof.
  intros l H. induction l as [|a l IH].
  - apply triple_ret. auto.
  - simpl. eapply triple_bind; [apply H | intros ?; apply IH].
Qed.

Lemma triple_gets A (f : state L X Y -> A) (P : state L X Y -> Prop) Q E :
  (forall s, P s -> Q (f s) s) -> triple P (gets f) Q E.
Proof. intros H s Hs. simpl. auto. Qed.
End Hoare.

(* ================================================================== *)
(** ** What the loop does to the state, event by event *)

Section LoopFacts.
Variables L X Y : Type.
Variable orc : oracle L X Y.
Variable env : environment X Y.
Variable mode : strategy.
Variable self : runner L.

Local Notation "x <- m ;; k" := (bind m (fun x => k))
  (at level 61, m at next level, right associativity).
Local Notation "m ;; k" := (bind m (fun _ => k))
  (at level 61, right associativity).

Lemma related_refl s : related orc self s s [].
Proof.
  split; simpl; auto.
  - symmetry; apply app_nil_r.
  - destruct (log s); simpl; [rewrite app_nil_r|]; reflexivity.
Qed.

Lemma related_trans s0 s1 s2 e1 e2 :
  related orc self s0 s1 e1 -> related orc self s1 s2 e2 -> related orc self s0 s2 (e1 ++ e2).
Proof.
  intros [T1 F1 V1 X1 L1 G1] [T2 F2 V2 X2 L2 G2]. split.
  - rewrite T2, T1, app_assoc. reflexivity.
  - apply Forall_app; auto.
  - apply Forall_app; auto.
  - rewrite X2, X1. unfold outstanding_from. rewrite fold_left_app. reflexivity.
  - rewrite L2, L1. unfold learner_after. rewrite fold_left_app. reflexivity.
  - rewrite G2, G1. unfold logged. rewrite flat_map_app.
    destruct (log s0); simpl; [rewrite app_assoc|]; reflexivity.
Qed.

Lemma clean_app (e1 e2 : list (event X Y)) :
  clean e1 -> clean e2 -> clean (e1 ++ e2).
Proof. intros; apply Forall_app; auto. Qed.

Lemma okout_app A (r : outcome A) (s : state L X Y) e1 e2 :
  clean e1 -> okout r s e2 -> okout r s (e1 ++ e2).
Proof.
  intros C1 O. destruct r as [a|e]; simpl in *.
  - apply clean_app; auto.
  - destruct O as [O | [evs' [fut [-> [C N]]]]].
    + left. apply clean_app; auto.
    + right. exists (e1 ++ evs'), fut. rewrite app_assoc.
      split; [reflexivity | split; [apply clean_app; auto | exact N]].
Qed.

Lemma sound_ret A (a : A) : sound orc self (ret a).
Proof.
  intros s W. exists []. split; [apply related_refl | split; [exact W|constructor]].
Qed.

Lemma sound_bind A B (m : M L X Y A) (k : A -> M L X Y B) :
  sound orc self m -> (forall a, sound orc self (k a)) -> sound orc self (bind m k).
Proof.
  intros Hm Hk s W. unfold bind. destruct (Hm s W) as [e1 [R1 [W1 O1]]].
  destruct (m s) as [s1 [a|e]]; simpl in *.
  - destruct (Hk a s1 W1) as [e2 [R2 [W2 O2]]]. exists (e1 ++ e2). split.
    + eapply related_trans; eauto.
    + split; [exact W2 | apply okout_app; auto].
  - exists e1. auto.
Qed.

Lemma sound_for A (f : A -> M L X Y unit) l :
  (forall a, sound orc self (f a)) -> sound orc self (for_ l f).
Proof.
  intros H. induction l as [|a l IH]; simpl.
  - apply sound_ret.
  - apply sound_bind; auto.
Qed.

Lemma sound_gets A (f : state L X Y -> A) : sound orc self (gets f).
Proof.
  intros s W. exists []. split; [apply related_refl | split; [exact W|constructor]].
Qed.

Lemma dict_pop_keys fut (d : list (nat * X)) x d' :
  dict_pop fut d = Some (x, d') -> keys d' = remove_first fut (keys d).
Proof.
  revert x d'. induction d as [|[k y] d IH]; simpl; intros x d' H.
  - discriminate.
  - destruct (Nat.eqb k fut).
    + inversion H; subst. reflexivity.
    + destruct (dict_pop fut d) as [[z d'']|]; [|discriminate].
      inversion H; subst. simpl. f_equal. eapply IH. reflexivity.
Qed.

Lemma dict_pop_length fut (d : list (nat * X)) x d' :
  dict_pop fut d = Some (x, d') -> List.length d = S (List.length d').
Proof.
  revert x d'. induction d as [|[k y] d IH]; simpl; intros x d' H.
  - discriminate.
  - destruct (Nat.eqb k fut).
    + inversion H; subst. reflexivity.
    + destruct (dict_pop fut d) as [[z d'']|]; [|discriminate].
      inversion H; subst. simpl. f_equal. eapply IH. reflexivity.
Qed.

Lemma remove_first_incl fut l k : In k (remove_first fut l) -> In k l.
Proof.
  induction l as [|a l IH]; simpl; [tauto|].
  destruct (Nat.eqb a fut); simpl; tauto.
Qed.

Lemma remove_first_NoDup fut l :
  NoDup l -> NoDup (remove_first fut l) /\ ~ In fut (remove_first fut l).
Proof.
  induction 1 as [|a l Ha Hl IH]; simpl.
  - split; [constructor | tauto].
  - destruct (Nat.eqb a fut) eqn:E.
    + apply Nat.eqb_eq in E. subst. auto.
    + apply Nat.eqb_neq in E. destruct IH as [IH1 IH2]. split.
      * constructor; [|exact IH1]. intros H. apply Ha.
        eapply remove_first_incl; eauto.
      * simpl. intros [H|H]; [congruence | tauto].
Qed.

Ltac one_event :=
  split; simpl;
  [ repeat (rewrite <- app_assoc; simpl); rewrite ?app_nil_r; reflexivity
  | repeat constructor
  | repeat constructor
  | try reflexivity
  | try reflexivity
  | try (match goal with |- context [log ?s] => destruct (log s) end;
         simpl; rewrite ?app_nil_r; reflexivity) ].

Lemma sound_choose n : sound orc self (logged_choose_points orc n).
Proof.
  intros s W. unfold logged_choose_points, bind, log_append, call_choose_points.
  simpl.
  destruct (choose_points orc n (learner s)) as [pts l'] eqn:Ec. simpl.
  exists [EvChoosePoints n]. split; [|split; [exact W | repeat constructor]].
  one_event. unfold learner_after; simpl. rewrite Ec. reflexivity.
Qed.

Lemma sound_submit x : sound orc self (submit_into_xs env self x).
Proof.
  intros s W. unfold submit_into_xs, bind, call_submit, xs_set.
  destruct (submit_raises env (nfut s) x) as [e|]; simpl.
  - exists [EvSubmit (_submit self) x (Raises e)].
    split; [one_event | split; [exact W | left; repeat constructor]].
  - exists [EvSubmit (_submit self) x (Returns (nfut s))].
    split; [|split; [|repeat constructor]].
    + one_event. unfold keys. rewrite map_app. reflexivity.
    + destruct W as [N F]. unfold distinct_keys, keys in *; simpl.
      rewrite map_app; simpl. split.
      * apply NoDup_app; [exact N | repeat constructor; simpl; tauto |].
        intros a Ha [<-|[]]. rewrite Forall_forall in F.
        specialize (F _ Ha). lia.
      * apply Forall_app. split.
        -- eapply Forall_impl; [|exact F]. simpl. intros; lia.
        -- repeat constructor.
Qed.

Lemma sound_wait futures : sound orc self (wait_first_completed env mode futures).
Proof.
  intros s W. unfold wait_first_completed.
  destruct futures as [|f fs].
  - destruct mode; simpl.
    + exists [EvWait [] (Returns [])].
      split; [one_event | split; [exact W | repeat constructor]].
    + eexists [EvWait [] (Raises _)].
      split; [one_event | split; [exact W | left; repeat constructor]].
  - simpl. eexists [EvWait (f :: fs) _]. split; [one_event|].
    split; [exact W|].
    destruct mode; simpl; [repeat constructor|].
    destruct (thrown_at env (nwait s)); simpl;
      [left|]; repeat constructor.
Qed.

Lemma sound_assign_done d : sound orc self (assign_done (X:=X) (Y:=Y) (L:=L) d).
Proof.
  intros s W. exists []. split; [|split; [exact W | constructor]].
  unfold assign_done; simpl. one_event.
Qed.

Lemma sound_absorb fut : sound orc self (absorb orc env fut).
Proof.
  intros s W. unfold absorb, bind, xs_pop.
  destruct (dict_pop fut (xs s)) as [[x d]|] eqn:Ep; simpl.
  - pose proof (dict_pop_keys _ _ Ep) as Hk.
    destruct W as [N F].
    destruct (remove_first_NoDup fut N) as [N' Hnot].
    assert (W' : NoDup (keys d) /\ Forall (fun k => k < nfut s) (keys d)).
    { rewrite Hk. split; [exact N'|]. rewrite Forall_forall in *.
      intros k Hin. apply F. eapply remove_first_incl; eauto. }
    unfold call_result. simpl.
    destruct (future_outcome env fut x) as [y|e] eqn:Er; simpl.
    + unfold logged_add_point, bind, log_append, call_add_point. simpl.
      exists [EvPop fut x; EvResult fut (Returns y); EvAddPoint x y].
      split; [|split; [exact W' | repeat constructor]].
      one_event. exact Hk.
    + exists [EvPop fut x; EvResult fut (Raises e)].
      split; [|split; [exact W'|]].
      * one_event. exact Hk.
      * right. exists [EvPop fut x], fut.
        split; [reflexivity | split; [repeat constructor|]].
        simpl. rewrite Hk. exact Hnot.
  - exists []. split; [apply related_refl | split; [exact W | left; constructor]].
Qed.

Lemma sound_loop_body : sound orc self (loop_body orc env mode self).
Proof.
  unfold loop_body.
  repeat first
    [ apply sound_gets | apply sound_choose | apply sound_submit
    | apply sound_wait | apply sound_assign_done | apply sound_absorb
    | apply sound_for; intros ?
    | apply sound_bind; [|intros ?] ].
Qed.

(** The [while] loop: however it is left, the state is related to the one
    it started from; a failed [fut.result()] is the loop's last event and
    its exception is the one the loop is left with. *)
Lemma while_loop_related fuel : forall s, distinct_keys s ->
  exists evs,
    related orc self s (fst (while_loop orc env mode self fuel s)) evs /\
    match snd (while_loop orc env mode self fuel s) with
    | Running => clean evs
    | c => loop_left self c (fst (while_loop orc env mode self fuel s)) evs
    end.
Proof.
  induction fuel as [|fuel IH]; intros s W; simpl.
  - exists []. split; [apply related_refl | constructor].
  - destruct (goal self (learner s)) eqn:Eg; simpl.
    + exists []. split; [apply related_refl | split; [constructor | exact Eg]].
    + destruct (sound_loop_body W) as [e1 [R1 [W1 O1]]].
      destruct (loop_body orc env mode self s) as [s1 [[]|e]]; simpl in *.
      * destruct (IH s1 W1) as [e2 [R2 O2]]. exists (e1 ++ e2). split.
        -- eapply related_trans; eauto.
        -- destruct (while_loop orc env mode self fuel s1) as [s2 [|e|]];
             simpl in *.
           ++ destruct O2. split; [apply clean_app|]; auto.
           ++ apply (okout_app (A:=unit) (Raises e)); auto.
           ++ apply clean_app; auto.
      * exists e1. auto.
Qed.

Lemma for_cancel (l : list nat) (s : state L X Y) :
  for_ l (fun fut => emit (EvCancel fut)) s
  = (set_trace s (trace s ++ map EvCancel l), Returns tt).
Proof.
  revert s. induction l as [|f l IH]; intros s; simpl.
  - unfold ret. destruct s; unfold set_trace; simpl. rewrite app_nil_r.
    reflexivity.
  - unfold bind, emit. rewrite IH. unfold set_trace; simpl.
    rewrite <- app_assoc. reflexivity.
Qed.

(** The [finally] block: it runs to its end, or (in the coroutine only)
    its wait is left by the exception thrown at that suspension. *)
Lemma finally_block_spec (s : state L X Y) :
  let r := finally_block orc env mode self s in
  learner (fst r) = remove_unfinished orc (learner s) /\
  log (fst r) = log s /\
  ((snd r = Returns tt /\
    trace (fst r)
    = trace s ++ teardown (shutdown_executor self) (keys (xs s)))
   \/
   (mode = Async /\ keys (xs s) <> [] /\
    exists e, snd r = Raises e /\
              trace (fst r) = trace s ++ teardown_cut (keys (xs s)) e)).
Proof.
  unfold finally_block, bind, call_remove_unfinished, gets. simpl.
  destruct (keys (xs s)) as [|f fs] eqn:Ek; simpl.
  - split; [|split]; [destruct (shutdown_executor self); reflexivity ..|].
    left. split;
      destruct (shutdown_executor self); simpl;
      rewrite <- ?app_assoc; reflexivity.
  - unfold bind, emit. rewrite for_cancel. unfold wait_all. simpl.
    destruct mode; simpl.
    + split; [|split]; [destruct (shutdown_executor self); reflexivity ..|].
      left. split;
        destruct (shutdown_executor self); simpl; try reflexivity;
        unfold teardown; simpl; repeat (rewrite <- app_assoc; simpl);
        reflexivity.
    + destruct (thrown_at env (nwait s)) as [e|] eqn:Et; simpl.
      * split; [|split]; [reflexivity ..|].
        right. split; [reflexivity|]. split; [discriminate|].
        exists e. split; [reflexivity|].
        unfold teardown_cut. repeat (rewrite <- app_assoc; simpl).
        reflexivity.
      * split; [|split]; [destruct (shutdown_executor self); reflexivity ..|].
        left. split;
          destruct (shutdown_executor self); simpl; try reflexivity;
          unfold teardown; simpl; repeat (rewrite <- app_assoc; simpl);
          reflexivity.
Qed.

(** A run that leaves [_run] after entering the loop: the loop's events,
    then the teardown over the futures outstanding at that point. *)
Lemma run_summary fuel (s : state L X Y) :
  (0 < ntasks self)%Z ->
  let r := _run orc env mode self fuel s in
  snd r <> Running ->
  exists evs c sl,
    (Forall (fun ev => loop_event ev = true) evs /\
     Forall (submitted_via (_submit self)) evs) /\
    loop_left self c sl evs /\
    keys (xs sl) = outstanding evs /\
    learner sl = learner_after orc (learner s) evs /\
    log (fst r) = option_map (fun g => g ++ logged evs) (log s) /\
    learner (fst r) = remove_unfinished orc (learner sl) /\
    ((snd r = c /\
      trace (fst r)
      = trace s ++ evs ++ teardown (shutdown_executor self) (outstanding evs))
     \/
     (mode = Async /\ outstanding evs <> [] /\
      exists e, snd r = Failed e /\
                trace (fst r)
                = trace s ++ evs ++ teardown_cut (outstanding evs) e)).
Proof.
  intros Hn r. subst r. unfold _run.
  set (s1 := set_done (set_xs s []) (repeat None (Z.to_nat (ntasks self)))).
  assert (Hlen : Nat.eqb (List.length (done s1)) 0 = false).
  { apply Nat.eqb_neq. unfold s1; simpl. rewrite repeat_length. lia. }
  rewrite Hlen.
  assert (W1 : distinct_keys s1) by (split; constructor).
  destruct (while_loop_related fuel W1) as [evs [R O]].
  destruct (while_loop orc env mode self fuel s1) as [s' c] eqn:Ew.
  simpl in R, O.
  destruct R as [T F V Xs Lr G].
  change (trace s1) with (trace s) in T.
  change (keys (xs s1)) with (@nil nat) in Xs.
  change (learner s1) with (learner s) in Lr.
  change (log s1) with (log s) in G.
  fold (outstanding evs) in Xs.
  pose proof (finally_block_spec s') as Hf. cbv zeta in Hf.
  destruct c as [|e|]; [| |intros H; exfalso; apply H; reflexivity];
    intros _;
    destruct (finally_block orc env mode self s') as [s'' [[]|e']];
    simpl in *;
    destruct Hf as [Hl [Hg [[Hr Ht] | [Hm [Hk [e2 [Hr Ht]]]]]]];
    try discriminate;
    rewrite Xs, T, <- app_assoc in Ht.
  - exists evs, Completed, s'. rewrite Hl, Hg, G. auto 10.
  - inversion Hr; subst e2. exists evs, Completed, s'.
    rewrite Hl, Hg, G. rewrite Xs in Hk.
    repeat split; auto; try apply O.
    right. repeat split; auto. exists e'. auto.
  - exists evs, (Failed e), s'. rewrite Hl, Hg, G. auto 10.
  - inversion Hr; subst e2. exists evs, (Failed e), s'.
    rewrite Hl, Hg, G. rewrite Xs in Hk.
    repeat split; auto. right. repeat split; auto. exists e'. auto.
Qed.
End LoopFacts.

(* ================================================================== *)
(** ** Facts about traces *)

Section TraceFacts.
Variables X Y : Type.
Implicit Types evs : list (event X Y).

Lemma count_app (p : event X Y -> bool) evs1 evs2 :
  count p (evs1 ++ evs2) = count p evs1 + count p evs2.
Proof. unfold count. rewrite filter_app, length_app. reflexivity. Qed.

Lemma count_none (p q : event X Y -> bool) evs :
  (forall ev, q ev = true -> p ev = false) ->
  Forall (fun ev => q ev = true) evs -> count p evs = 0.
Proof.
  intros Hpq H. induction H as [|ev evs Hq _ IH]; [reflexivity|].
  unfold count in *. simpl. rewrite (Hpq _ Hq). exact IH.
Qed.

Lemma count_cancels (p : event X Y -> bool) (l : list nat) :
  (forall fut, p (EvCancel fut) = false) ->
  count p (map (fun fut => EvCancel fut) l) = 0.
Proof.
  intros Hp. induction l as [|f l IH]; [reflexivity|].
  unfold count in *. simpl. rewrite Hp. exact IH.
Qed.

Lemma teardown_events_only shutdown (l : list nat) :
  Forall (fun ev : event X Y => teardown_event ev = true) (teardown shutdown l).
Proof.
  unfold teardown. constructor; [reflexivity|]. apply Forall_app. split.
  - destruct l as [|f l]; [constructor|]. apply Forall_app. split.
    + apply Forall_forall. intros ev Hin. apply in_map_iff in Hin.
      destruct Hin as [k [<- _]]. reflexivity.
    + repeat constructor.
  - destruct shutdown; repeat constructor.
Qed.

Lemma teardown_cut_events_only (l : list nat) e :
  Forall (fun ev : event X Y => teardown_event ev = true) (teardown_cut l e).
Proof.
  unfold teardown_cut. constructor; [reflexivity|]. apply Forall_app. split.
  - apply Forall_forall. intros ev Hin. apply in_map_iff in Hin.
    destruct Hin as [k [<- _]]. reflexivity.
  - repeat constructor.
Qed.

Lemma count_remove_unfinished_teardown shutdown (l : list nat) :
  count (@is_remove_unfinished X Y) (teardown shutdown l) = 1.
Proof.
  unfold teardown.
  change (EvRemoveUnfinished :: ?t)
    with ([EvRemoveUnfinished (X:=X) (Y:=Y)] ++ t).
  rewrite !count_app.
  replace (count (@is_remove_unfinished X Y)
             match l with
             | [] => []
             | _ :: _ => map EvCancel l ++ [EvWaitAll l None]
             end) with 0.
  - destruct shutdown; reflexivity.
  - destruct l as [|f l]; [reflexivity|].
    rewrite count_app, count_cancels; auto.
Qed.

Lemma count_remove_unfinished_cut (l : list nat) e :
  count (@is_remove_unfinished X Y) (teardown_cut l e) = 1.
Proof.
  unfold teardown_cut.
  change (EvRemoveUnfinished :: ?t) with ([EvRemoveUnfinished (X:=X) (Y:=Y)] ++ t).
  rewrite !count_app, count_cancels; auto.
Qed.

(** A list has at most one place for an element that nothing around it
    resembles. *)
Lemma split_unique (p : event X Y -> bool) evs1 a evs2 evs1' a' evs2' :
  evs1 ++ a :: evs2 = evs1' ++ a' :: evs2' ->
  p a = true ->
  Forall (fun ev => p ev = false) evs1' ->
  Forall (fun ev => p ev = false) evs2' ->
  evs1 = evs1' /\ a = a' /\ evs2 = evs2'.
Proof.
  revert evs1'. induction evs1 as [|b evs1 IH]; intros [|b' evs1'] H Ha F1 F2;
    simpl in H; inversion H; subst.
  - auto.
  - inversion F1; subst. congruence.
  - exfalso. assert (In a (evs1 ++ a :: evs2)) as Hin
      by (apply in_elt).
    rewrite Forall_forall in F2. specialize (F2 _ Hin). congruence.
  - inversion F1; subst. destruct (IH evs1' H2 Ha H4 F2) as [-> [-> ->]].
    auto.
Qed.
End TraceFacts.

(* ================================================================== *)
(** ** The teardown *)

Section Teardown.
Variables L X Y : Type.
Variable orc : oracle L X Y.
Variable env : environment X Y.
Variable mode : strategy.
Variable self : runner L.

(** C1, as amended.  Every run that enters the loop and leaves [_run],
    whether the loop ended on the goal, on an exception or on a
    cancellation at its wait, has run the teardown after the loop's last
    event: [remove_unfinished] is called exactly once, every future still
    outstanding is cancelled and then waited for, and the pool is shut
    down exactly when [shutdown_executor] holds, unless (in the coroutine
    only) that final wait is itself left by a cancellation, which then
    ends the run before the shutdown. *)
Theorem teardown_on_every_exit fuel (s : state L X Y) :
  (0 < ntasks self)%Z ->
  snd (_run orc env mode self fuel s) <> Running ->
  exists evs tds,
    trace (fst (_run orc env mode self fuel s)) = trace s ++ evs ++ tds /\
    Forall (fun ev => loop_event ev = true) evs /\
    count (@is_remove_unfinished X Y) (evs ++ tds) = 1 /\
    (tds = teardown (shutdown_executor self) (outstanding evs) \/
     (mode = Async /\ outstanding evs <> [] /\
      exists e, snd (_run orc env mode self fuel s) = Failed e /\
                tds = teardown_cut (outstanding evs) e)).
Proof.
  intros Hn Hr.
  destruct (run_summary orc env mode self fuel s Hn Hr)
    as [evs [c [sl [[F _] [_ [_ [_ [_ [_ H]]]]]]]]].
  assert (C0 : count (@is_remove_unfinished X Y) evs = 0).
  { eapply count_none; [|exact F]. intros [] E; simpl in *; congruence. }
  destruct H as [[_ Ht] | [Hm [Ho [e [He Ht]]]]].
  - exists evs, (teardown (shutdown_executor self) (outstanding evs)).
    repeat split; auto.
    rewrite count_app, C0, count_remove_unfinished_teardown. reflexivity.
  - exists evs, (teardown_cut (outstanding evs) e).
    repeat split; auto.
    + rewrite count_app, C0, count_remove_unfinished_cut. reflexivity.
    + right. repeat split; auto. exists e. auto.
Qed.

(** C2, as amended.  When [fut.result()] raises [e] in the loop, nothing
    of the loop follows: no [add_point], no further [choose_points] or
    submission.  What follows is the teardown over the other futures, the
    failed one having left the map.  Either the teardown runs to its end
    ([remove_unfinished], a cancel for each of them, the wait, and the
    shutdown of the pool when [shutdown_executor] holds, as it does for a
    pool the runner created) and the run ends with [e]; or, in the
    coroutine only, the wait of the teardown is itself left by an
    exception [e'] (a cancellation of the task): the run then ends with
    [e'] in place of [e], before the shutdown. *)
Theorem worker_exception_is_fatal fuel (s : state L X Y) pre fut e post :
  trace (fst (_run orc env mode self fuel s))
  = trace s ++ pre ++ EvResult fut (Raises e) :: post ->
  ~ In fut (outstanding pre) /\
  count (@is_add_point X Y) post = 0 /\
  count (@is_choose_points X Y) post = 0 /\
  count (@is_submit X Y) post = 0 /\
  ((snd (_run orc env mode self fuel s) = Failed e /\
    post = teardown (shutdown_executor self) (outstanding pre))
   \/
   (mode = Async /\ outstanding pre <> [] /\
    exists e', snd (_run orc env mode self fuel s) = Failed e' /\
               post = teardown_cut (outstanding pre) e')).
Proof.
  intros Ht.
  assert (Hloop : forall tds : list (event X Y),
             Forall (fun ev => teardown_event ev = true) tds ->
             Forall (fun ev => failed_result ev = false) tds).
  { intros tds Ftd. eapply Forall_impl; [|exact Ftd].
    intros [] E; simpl in *; congruence. }
  assert (Hcounts : forall (p : event X Y -> bool) (tds : list (event X Y)),
             Forall (fun ev => teardown_event ev = true) tds ->
             (forall ev, teardown_event ev = true -> p ev = false) ->
             count p tds = 0).
  { intros p tds Ftd Hp. eapply count_none; [exact Hp | exact Ftd]. }
  (* the run has left [_run] after entering the loop *)
  assert (Hn : (0 < ntasks self)%Z).
  { destruct (Z_lt_le_dec 0 (ntasks self)) as [H|H]; [exact H|exfalso].
    unfold _run in Ht. simpl in Ht. rewrite repeat_length in Ht.
    replace (Z.to_nat (ntasks self)) with 0 in Ht by lia. simpl in Ht.
    apply (f_equal (@List.length _)) in Ht.
    rewrite !length_app in Ht. simpl in Ht. lia. }
  assert (Hr : snd (_run orc env mode self fuel s) <> Running).
  { intros Hrun. unfold _run in Ht, Hrun.
    set (s1 := set_done (set_xs s []) (repeat None (Z.to_nat (ntasks self))))
      in *.
    destruct (Nat.eqb (List.length (done s1)) 0); [discriminate|].
    assert (W1 : distinct_keys s1) by (split; constructor).
    destruct (while_loop_related orc env mode self fuel W1) as [evs [R O]].
    destruct (while_loop orc env mode self fuel s1) as [s' [|e0|]];
      [ destruct (finally_block orc env mode self s') as [? [|]]; discriminate
      | destruct (finally_block orc env mode self s') as [? [|]]; discriminate
      | ].
    simpl in *. destruct R as [T _ _ _ _ _].
    change (trace s1) with (trace s) in T. rewrite T in Ht.
    apply app_inv_head in Ht. subst evs.
    apply Forall_app in O. destruct O as [_ O]. inversion O; subst.
    discriminate. }
  destruct (run_summary orc env mode self fuel s Hn Hr)
    as [evs [c [sl [[F _] [Hc [Hk [_ [_ [_ H]]]]]]]]].
  assert (Hsplit : forall tds : list (event X Y),
             Forall (fun ev => teardown_event ev = true) tds ->
             trace (fst (_run orc env mode self fuel s)) = trace s ++ evs ++ tds ->
             c = Failed e /\ evs = pre ++ [EvResult fut (Raises e)] /\
             post = tds /\ ~ In fut (outstanding evs)).
  { intros tds Ftd Ht'. rewrite Ht in Ht'. apply app_inv_head in Ht'.
    assert (Hbad : clean evs -> False).
    { intros C. assert (Hin : In (EvResult fut (Raises e)) (evs ++ tds))
        by (rewrite <- Ht'; apply in_elt).
      apply in_app_or in Hin. destruct Hin as [Hin|Hin].
      - unfold clean in C. rewrite Forall_forall in C.
        specialize (C _ Hin). discriminate.
      - specialize (Hloop tds Ftd). rewrite Forall_forall in Hloop.
        specialize (Hloop _ Hin). discriminate. }
    destruct c as [|e0|]; simpl in Hc.
    - destruct Hc as [Hc _]. destruct (Hbad Hc).
    - destruct Hc as [Hc | [evs' [fut' [-> [C N]]]]]; [destruct (Hbad Hc)|].
      rewrite <- app_assoc in Ht'. simpl in Ht'.
      destruct (@split_unique X Y (@failed_result X Y) _ _ _ _ _ _ Ht' eq_refl C
                  (Hloop tds Ftd)) as [-> [Ha ->]].
      inversion Ha; subst. rewrite <- Hk. auto.
    - destruct Hc. }
  assert (Ho : forall evs0 : list (event X Y),
             outstanding (evs0 ++ [EvResult fut (Raises e)]) = outstanding evs0).
  { intros evs0. unfold outstanding, outstanding_from.
    rewrite fold_left_app. reflexivity. }
  destruct H as [[Hs Ht'] | [Hm [Hne [e' [He' Ht']]]]].
  - pose proof (@teardown_events_only X Y (shutdown_executor self)
                  (outstanding evs)) as Ftd.
    destruct (Hsplit _ Ftd Ht') as [-> [-> [-> N]]].
    rewrite Ho in *. split; [exact N|].
    split; [apply Hcounts; [exact Ftd | intros [] E; simpl in *; congruence]|].
    split; [apply Hcounts; [exact Ftd | intros [] E; simpl in *; congruence]|].
    split; [apply Hcounts; [exact Ftd | intros [] E; simpl in *; congruence]|].
    left. split; [exact Hs | reflexivity].
  - pose proof (@teardown_cut_events_only X Y (outstanding evs) e') as Ftd.
    destruct (Hsplit _ Ftd Ht') as [-> [-> [-> N]]].
    rewrite Ho in *. split; [exact N|].
    split; [apply Hcounts; [exact Ftd | intros [] E; simpl in *; congruence]|].
    split; [apply Hcounts; [exact Ftd | intros [] E; simpl in *; congruence]|].
    split; [apply Hcounts; [exact Ftd | intros [] E; simpl in *; congruence]|].
    right. split; [exact Hm|]. split; [exact Hne|].
    exists e'. split; [exact He' | reflexivity].
Qed.
End Teardown.

(** The blocking runner, two tasks, three points wanted: the run leaves
    [_run] and its trace ends in the teardown. *)
Lemma teardown_on_every_exit_witness :
  let self := Example.two_tasks (Example.enough 3) in
  let r := _run Example.counting Example.one_by_one Blocking self 10
                Example.start in
  (0 < ntasks self)%Z /\
  snd r <> Running /\
  exists evs tds,
    trace (fst r) = trace Example.start ++ evs ++ tds /\
    Forall (fun ev => loop_event ev = true) evs /\
    count (@is_remove_unfinished nat nat) (evs ++ tds) = 1 /\
    (tds = teardown (shutdown_executor self) (outstanding evs) \/
     (Blocking = Async /\ outstanding evs <> [] /\
      exists e, snd r = Failed e /\ tds = teardown_cut (outstanding evs) e)).
Proof.
  split; [reflexivity|]. split; [vm_compute; discriminate|].
  apply (teardown_on_every_exit Example.counting Example.one_by_one Blocking
           (Example.two_tasks (Example.enough 3)) 10 Example.start).
  - reflexivity.
  - vm_compute. discriminate.
Defined.

(** C1 as stated fails in the coroutine: with two tasks and one point
    wanted, the loop ends on the goal with one future outstanding; the
    teardown cancels it and waits, a cancellation of the task is delivered
    at that wait, and the run ends cancelled without shutting down the pool
    it was to shut down. *)
Lemma teardown_cut_short_by_cancellation :
  let self := Example.two_tasks (Example.enough 1) in
  let r := _run Example.counting Example.cancelled_at_second Async self 10
                Example.start in
  (0 < ntasks self)%Z /\
  shutdown_executor self = true /\
  snd r = Failed Example.CancelledError /\
  trace (fst r)
  = [EvChoosePoints 2;
     EvSubmit to_executor 0 (Returns 0); EvSubmit to_executor 1 (Returns 1);
     EvWait [0; 1] (Returns [0]);
     EvPop 0 0; EvResult 0 (Returns 0); EvAddPoint 0 0;
     EvRemoveUnfinished; EvCancel 1;
     EvWaitAll [1] (Some Example.CancelledError)] /\
  count (@is_shutdown nat nat) (trace (fst r)) = 0.
Proof. vm_compute. repeat split; reflexivity. Qed.

(** The blocking runner with a unit of work that divides by zero. *)
Lemma worker_exception_is_fatal_witness :
  let self := Example.two_tasks (Example.enough 3) in
  let r := _run Example.counting Example.failing_on_1 Blocking self 10
                Example.start in
  let pre := [EvChoosePoints 2;
              EvSubmit to_executor 0 (Returns 0);
              EvSubmit to_executor 1 (Returns 1);
              EvWait [0; 1] (Returns [0]);
              EvPop 0 0; EvResult 0 (Returns 0); EvAddPoint 0 0;
              EvChoosePoints 1; EvSubmit to_executor 2 (Returns 2);
              EvWait [1; 2] (Returns [1]); EvPop 1 1] in
  let post := [EvRemoveUnfinished; EvCancel 2; EvWaitAll [2] None;
               EvShutdown] in
  trace (fst r)
  = trace Example.start ++ pre ++ EvResult 1 (Raises Example.ZeroDivisionError) :: post /\
  ~ In 1 (outstanding pre) /\
  count (@is_add_point nat nat) post = 0 /\
  count (@is_choose_points nat nat) post = 0 /\
  count (@is_submit nat nat) post = 0 /\
  ((snd r = Failed Example.ZeroDivisionError /\
    post = teardown (shutdown_executor self) (outstanding pre))
   \/
   (Blocking = Async /\ outstanding pre <> [] /\
    exists e', snd r = Failed e' /\ post = teardown_cut (outstanding pre) e')).
Proof.
  split; [vm_compute; reflexivity|].
  apply (@worker_exception_is_fatal _ _ _
           Example.counting Example.failing_on_1 Blocking
           (Example.two_tasks (Example.enough 3)) 10
           Example.start _ 1 Example.ZeroDivisionError).
  vm_compute. reflexivity.
Defined.

(** C2 as stated fails in the coroutine: the work on input [1] divides by
    zero, the loop is left with that exception and one future
    outstanding; the teardown cancels it and waits, a cancellation of the
    task is delivered at that wait, and the run ends cancelled: the
    worker's exception does not reach the caller, and the pool the runner
    was to shut down is not shut down. *)
Lemma worker_exception_replaced_by_cancellation :
  let self := Example.two_tasks (Example.enough 3) in
  let r := _run Example.counting Example.failing_then_cancelled Async self 10
                Example.start in
  (0 < ntasks self)%Z /\
  shutdown_executor self = true /\
  trace (fst r)
  = [EvChoosePoints 2;
     EvSubmit to_executor 0 (Returns 0); EvSubmit to_executor 1 (Returns 1);
     EvWait [0; 1] (Returns [0]);
     EvPop 0 0; EvResult 0 (Returns 0); EvAddPoint 0 0;
     EvChoosePoints 1; EvSubmit to_executor 2 (Returns 2);
     EvWait [1; 2] (Returns [1]);
     EvPop 1 1; EvResult 1 (Raises Example.ZeroDivisionError);
     EvRemoveUnfinished; EvCancel 2;
     EvWaitAll [2] (Some Example.CancelledError)] /\
  snd r = Failed Example.CancelledError /\
  snd r <> Failed Example.ZeroDivisionError /\
  count (@is_shutdown nat nat) (trace (fst r)) = 0.
Proof.
  vm_compute. repeat split; try reflexivity. discriminate.
Qed.

(* ================================================================== *)
(** ** The call log and its replay *)

Section CallLog.
Variables L X Y : Type.
Variable orc : oracle L X Y.
Variable env : environment X Y.
Variable mode : strategy.
Variable self : runner L.

Lemma logged_app (evs1 evs2 : list (event X Y)) :
  logged (evs1 ++ evs2) = logged evs1 ++ logged evs2.
Proof. apply flat_map_app. Qed.

Lemma learner_calls_app (evs1 evs2 : list (event X Y)) :
  learner_calls (evs1 ++ evs2) = learner_calls evs1 ++ learner_calls evs2.
Proof. apply flat_map_app. Qed.

Lemma learner_calls_loop (evs : list (event X Y)) :
  Forall (fun ev => loop_event ev = true) evs ->
  learner_calls evs = logged evs.
Proof.
  induction 1 as [|ev evs Hev _ IH]; [reflexivity|].
  unfold learner_calls, logged in *. simpl. rewrite IH.
  destruct ev; simpl in *; congruence.
Qed.

Lemma teardown_quiet (tds : list (event X Y)) :
  Forall (fun ev => teardown_event ev = true) tds ->
  filter (@is_remove_unfinished X Y) tds = [] ->
  logged tds = [] /\ learner_calls tds = [].
Proof.
  unfold logged, learner_calls.
  induction 1 as [|ev tds Hev _ IH]; simpl; [auto|].
  destruct ev; simpl in *; try discriminate; auto.
Qed.

Lemma teardown_calls (tds : list (event X Y)) :
  Forall (fun ev => teardown_event ev = true) tds ->
  count (@is_remove_unfinished X Y) tds = 1 ->
  logged tds = [] /\ learner_calls tds = [("remove_unfinished", [])].
Proof.
  unfold count.
  induction 1 as [|ev tds Hev Htds IH]; simpl; [discriminate|].
  destruct ev; simpl in *; try discriminate; intros Hc;
    try (destruct (IH Hc) as [E1 E2]; unfold logged, learner_calls in *;
         simpl; auto).
  assert (H0 : filter (@is_remove_unfinished X Y) tds = [])
    by (destruct (filter _ tds); [reflexivity | discriminate]).
  destruct (teardown_quiet Htds H0) as [E1 E2].
  unfold logged, learner_calls in *. simpl. rewrite E2. auto.
Qed.

(** Replaying the entries written for loop events makes of a learner what
    the events made of it. *)
Lemma replay_logged (evs : list (event X Y)) : forall l,
  Forall (fun ev => loop_event ev = true) evs ->
  replay_log orc l (logged evs) = (learner_after orc l evs, None).
Proof.
  induction evs as [|ev evs IH]; intros l H; [reflexivity|].
  inversion H as [|? ? Hev Hevs]; subst.
  unfold logged, learner_after in *. simpl.
  destruct ev; simpl in *; try discriminate; auto.
Qed.

(** C6, as amended.  With logging on, the log of a run that has left
    [_run] holds one entry for every [choose_points] and every
    [add_point] call of the loop, in the order of the calls, and none for
    the call of [remove_unfinished], the one learner call not logged;
    replaying the log on the learner the run started from re-applies
    those calls and ends, without error, in the learner the run had
    before its final [remove_unfinished], whatever the environment
    did. *)
Theorem log_replays_the_loop fuel (s : state L X Y) :
  log s = Some [] ->
  (0 < ntasks self)%Z ->
  snd (_run orc env mode self fuel s) <> Running ->
  exists evs l',
    trace (fst (_run orc env mode self fuel s)) = trace s ++ evs /\
    log (fst (_run orc env mode self fuel s)) = Some (logged evs) /\
    learner_calls evs = logged evs ++ [("remove_unfinished", [])] /\
    replay_log orc (learner s) (logged evs) = (l', None) /\
    learner (fst (_run orc env mode self fuel s)) = remove_unfinished orc l'.
Proof.
  intros Hlog Hn Hr.
  destruct (run_summary orc env mode self fuel s Hn Hr)
    as [evs [c [sl [[F _] [_ [_ [Hl [Hg [Hf H]]]]]]]]].
  assert (C0 : count (@is_remove_unfinished X Y) evs = 0).
  { eapply count_none; [|exact F]. intros [] E; simpl in *; congruence. }
  assert (Htds : exists tds : list (event X Y),
             trace (fst (_run orc env mode self fuel s)) = trace s ++ evs ++ tds /\
             Forall (fun ev => teardown_event ev = true) tds /\
             count (@is_remove_unfinished X Y) tds = 1).
  { destruct H as [[_ Ht] | [_ [_ [e [_ Ht]]]]].
    - eexists. split; [exact Ht|]. split.
      + apply teardown_events_only.
      + apply count_remove_unfinished_teardown.
    - eexists. split; [exact Ht|]. split.
      + apply teardown_cut_events_only.
      + apply count_remove_unfinished_cut. }
  destruct Htds as [tds [Ht [Ftd Hc]]].
  destruct (teardown_calls Ftd Hc) as [Hq Hcalls].
  exists (evs ++ tds), (learner_after orc (learner s) evs).
  rewrite logged_app, learner_calls_app, Hq, Hcalls, app_nil_r.
  rewrite (learner_calls_loop F).
  repeat split; auto.
  - rewrite Hg, Hlog. reflexivity.
  - apply replay_logged. exact F.
  - rewrite Hf, Hl. reflexivity.
Qed.
End CallLog.

(** The blocking loop with logging on, two tasks, three points wanted. *)
Lemma log_replays_the_loop_witness :
  let self := Example.two_tasks (Example.enough 3) in
  let s := set_log Example.start (Some []) in
  let r := _run Example.counting Example.one_by_one Blocking self 10 s in
  log s = Some [] /\
  (0 < ntasks self)%Z /\
  snd r <> Running /\
  exists evs l',
    trace (fst r) = trace s ++ evs /\
    log (fst r) = Some (logged evs) /\
    learner_calls evs = logged evs ++ [("remove_unfinished", [])] /\
    replay_log Example.counting (learner s) (logged evs) = (l', None) /\
    learner (fst r) = remove_unfinished Example.counting l'.
Proof.
  split; [reflexivity|]. split; [reflexivity|].
  split; [vm_compute; discriminate|].
  apply (log_replays_the_loop Example.counting Example.one_by_one Blocking
           (Example.two_tasks (Example.enough 3)) 10
           (set_log Example.start (Some []))).
  - reflexivity.
  - reflexivity.
  - vm_compute. discriminate.
Defined.

(** C6 as stated fails: the runner calls [remove_unfinished] and writes no
    entry for it, so the log is one entry short of the learner calls and
    its replay ends in a learner that still counts the input handed out and
    never answered. *)
Lemma remove_unfinished_is_not_logged :
  let r := BlockingRunner_init Example.machine Example.counting
             Example.one_by_one false (Example.enough 1)
             (mk_init_args None (Some 2%Z) true true) 10 Example.start in
  snd r = Completed /\
  log (fst r)
  = Some [("choose_points", [ArgInt 2]); ("add_point", [ArgX 0; ArgY 0])] /\
  learner_calls (trace (fst r))
  = [("choose_points", [ArgInt 2]); ("add_point", [ArgX 0; ArgY 0]);
     ("remove_unfinished", [])] /\
  learner (fst r) = Example.mk_lstate 1 [(0, 0)] /\
  replay_log Example.counting Example.empty
    [("choose_points", [ArgInt 2]); ("add_point", [ArgX 0; ArgY 0])]
  = (Example.mk_lstate 2 [(0, 0)], None).
Proof. vm_compute. repeat split; reflexivity. Qed.

(* ================================================================== *)
(** ** How many points the loop asks for *)

Section RequestFacts.
Variables L X Y : Type.
Variable orc : oracle L X Y.
Variable env : environment X Y.
Variable mode : strategy.
Variable self : runner L.
Variable t0 : list (event X Y).
Variable N : nat.

Local Abbreviation RI := (requests_inv orc t0 N).

Lemma requests_ok_nil : requests_ok orc N [].
Proof. intros [|? ?] n post H; discriminate. Qed.

Lemma requests_ok_snoc_other evs ev :
  requests_ok orc N evs -> is_choose_points ev = false ->
  requests_ok orc N (evs ++ [ev]).
Proof.
  intros H Hev pre n post E.
  destruct (exists_last (l:=EvChoosePoints n :: post)) as [post' [x Ex]];
    [discriminate|].
  rewrite Ex, app_assoc in E. apply app_inj_tail in E. destruct E as [E <-].
  destruct post' as [|y post'].
  - simpl in Ex. inversion Ex; subst. discriminate.
  - simpl in Ex. inversion Ex; subst. apply (H pre n post'). reflexivity.
Qed.

Lemma requests_ok_app_other evs l :
  requests_ok orc N evs ->
  Forall (fun ev => is_choose_points ev = false) l ->
  requests_ok orc N (evs ++ l).
Proof.
  intros H F. revert evs H. induction F as [|ev l Hev _ IH]; intros evs H.
  - rewrite app_nil_r. exact H.
  - change (ev :: l) with ([ev] ++ l). rewrite app_assoc. apply IH.
    apply requests_ok_snoc_other; auto.
Qed.

Lemma requests_ok_snoc_choose evs n :
  requests_ok orc N evs ->
  n = last_reported N evs ->
  (exact orc -> n = N - List.length (outstanding evs) /\
                List.length (outstanding evs) <= N) ->
  requests_ok orc N (evs ++ [EvChoosePoints n]).
Proof.
  intros H Hn Hx pre m post E.
  destruct (exists_last (l:=EvChoosePoints m :: post)) as [post' [x Ex]];
    [discriminate|].
  rewrite Ex, app_assoc in E. apply app_inj_tail in E. destruct E as [E <-].
  destruct post' as [|y post'].
  - simpl in Ex. inversion Ex; subst. rewrite app_nil_r in *. auto.
  - simpl in Ex. inversion Ex; subst. apply (H pre m post'). reflexivity.
Qed.

(** A statement that appends events [l], none of them a request. *)
Lemma RI_extend (P P' : list (event X Y) -> state L X Y -> Prop) s s' l :
  RI P s ->
  trace s' = trace s ++ l ->
  Forall (fun ev => is_choose_points ev = false) l ->
  keys (xs s') = outstanding_from (keys (xs s)) l ->
  (forall evs, P evs s -> keys (xs s) = outstanding evs -> P' (evs ++ l) s') ->
  RI P' s'.
Proof.
  intros [evs [T [R [K HP]]]] T' F K' H. exists (evs ++ l).
  split; [rewrite T', T, app_assoc; reflexivity|].
  split; [apply requests_ok_app_other; auto|].
  split; [|auto].
  rewrite K', K. unfold outstanding, outstanding_from.
  rewrite fold_left_app. reflexivity.
Qed.

Lemma RI_weaken (P : list (event X Y) -> state L X Y -> Prop) s :
  RI P s -> RI (@anywhere L X Y) s.
Proof.
  intros [evs [T [R [K _]]]]. exists evs. unfold anywhere. auto.
Qed.

Lemma last_reported_app n0 (e1 e2 : list (event X Y)) :
  last_reported n0 (e1 ++ e2) = last_reported (last_reported n0 e1) e2.
Proof. unfold last_reported. apply fold_left_app. Qed.

Lemma keys_length (d : list (nat * X)) : List.length (keys d) = List.length d.
Proof. unfold keys. apply length_map. Qed.

Lemma triple_request n :
  triple (fun s => RI (at_head orc N) s /\ n = List.length (done s))
    (logged_choose_points orc n)
    (fun points => RI (fun _ s =>
       exact orc -> List.length points + List.length (xs s) = N))
    (fun _ => RI (@anywhere L X Y)).
Proof.
  intros s [[evs [T [R [K [Hd Hx]]]]] ->].
  unfold logged_choose_points, bind, log_append, call_choose_points. simpl.
  destruct (choose_points orc (List.length (done s)) (learner s))
    as [pts l'] eqn:Ec.
  exists (evs ++ [EvChoosePoints (List.length (done s))]). simpl.
  split; [rewrite T, app_assoc; reflexivity|].
  split.
  - apply requests_ok_snoc_choose; auto.
    intros Hex. specialize (Hx Hex). rewrite <- K, keys_length. lia.
  - split.
    + rewrite K. unfold outstanding, outstanding_from.
      rewrite fold_left_app. reflexivity.
    + intros Hex. specialize (Hx Hex).
      pose proof (Hex (List.length (done s)) (learner s)) as Hl.
      rewrite Ec in Hl. simpl in Hl. lia.
Qed.

Lemma triple_submit x rest :
  triple (RI (fun _ s =>
            exact orc -> List.length (x :: rest) + List.length (xs s) = N))
    (submit_into_xs env self x)
    (fun _ => RI (fun _ s =>
            exact orc -> List.length rest + List.length (xs s) = N))
    (fun _ => RI (@anywhere L X Y)).
Proof.
  intros s H. unfold submit_into_xs, bind, call_submit, xs_set.
  destruct (submit_raises env (nfut s) x) as [e|]; simpl.
  - eapply RI_extend; [exact H | reflexivity | repeat constructor
                      | reflexivity | unfold anywhere; auto].
  - eapply RI_extend; [exact H | reflexivity | repeat constructor | |].
    + simpl. unfold keys. rewrite map_app. reflexivity.
    + simpl. intros evs Hx _ Hex. specialize (Hx Hex).
      rewrite length_app. simpl in *. lia.
Qed.

Lemma triple_wait futures :
  triple (fun s => RI (fun _ s => exact orc -> List.length (xs s) = N) s)
    (wait_first_completed env mode futures)
    (fun d => RI (fun evs s =>
       last_reported N evs = List.length d /\
       (exact orc -> List.length (xs s) = N)))
    (fun _ => RI (@anywhere L X Y)).
Proof.
  intros s H. unfold wait_first_completed.
  destruct futures as [|f fs].
  - destruct mode; simpl.
    + eapply RI_extend; [exact H | reflexivity | repeat constructor
                        | reflexivity |].
      simpl. intros evs Hx _. rewrite last_reported_app. auto.
    + eapply RI_extend; [exact H | reflexivity | repeat constructor
                        | reflexivity | unfold anywhere; auto].
  - simpl.
    destruct (match mode with
              | Blocking => Returns (resolved_at env (nwait s) (f :: fs))
              | Async =>
                  match thrown_at env (nwait s) with
                  | Some e => Raises e
                  | None => Returns (resolved_at env (nwait s) (f :: fs))
                  end
              end) as [d|e] eqn:Ew.
    + eapply RI_extend; [exact H | reflexivity | repeat constructor
                        | reflexivity |].
      simpl. intros evs Hx _. rewrite last_reported_app. auto.
    + eapply RI_extend; [exact H | reflexivity | repeat constructor
                        | reflexivity | unfold anywhere; auto].
Qed.

Lemma triple_absorb (d : list nat) fut rest :
  triple (RI (fun evs s =>
            List.length (done s) = last_reported N evs /\
            (exact orc -> List.length (xs s) + List.length (done s)
                          = N + List.length (fut :: rest))))
    (absorb orc env fut)
    (fun _ => RI (fun evs s =>
            List.length (done s) = last_reported N evs /\
            (exact orc -> List.length (xs s) + List.length (done s)
                          = N + List.length rest)))
    (fun _ => RI (@anywhere L X Y)).
Proof.
  intros s H. unfold absorb, bind, xs_pop.
  destruct (dict_pop fut (xs s)) as [[x xs']|] eqn:Ep; simpl.
  - pose proof (dict_pop_keys _ _ Ep) as Hk.
    pose proof (dict_pop_length _ _ Ep) as Hl.
    unfold call_result. simpl.
    destruct (future_outcome env fut x) as [y|e] eqn:Er; simpl.
    + unfold logged_add_point, bind, log_append, call_add_point. simpl.
      eapply RI_extend with (l := [EvPop fut x; EvResult fut (Returns y);
                                   EvAddPoint x y]);
        [exact H | simpl; repeat (rewrite <- app_assoc; simpl); reflexivity
        | repeat constructor | exact Hk |].
      simpl. intros evs [Hd Hx] _. rewrite last_reported_app. simpl.
      split; [exact Hd|]. intros Hex. specialize (Hx Hex). simpl in Hx. lia.
    + eapply RI_extend with (l := [EvPop fut x; EvResult fut (Raises e)]);
        [exact H | simpl; repeat (rewrite <- app_assoc; simpl); reflexivity
        | repeat constructor | exact Hk | unfold anywhere; auto].
  - eapply RI_weaken; eauto.
Qed.

Lemma triple_loop_body :
  triple (RI (at_head orc N)) (loop_body orc env mode self)
         (fun _ => RI (at_head orc N)) (fun _ => RI (@anywhere L X Y)).
Proof.
  unfold loop_body.
  eapply triple_bind.
  { apply triple_gets with
      (Q := fun n s => RI (at_head orc N) s /\ n = List.length (done s)). auto. }
  intros n. eapply triple_bind; [apply triple_request|]. intros points.
  eapply triple_bind.
  { apply (triple_for (submit_into_xs env self) (fun rest => RI (fun _ s =>
       exact orc -> List.length rest + List.length (xs s) = N))).
    intros x rest. apply triple_submit. }
  intros ?. eapply triple_bind.
  { apply triple_gets with
      (Q := fun (_ : list nat) s =>
              RI (fun _ s => exact orc -> List.length (xs s) = N) s).
    intros s [evs [T [R [K H]]]]. exists evs. simpl in H. auto. }
  intros futures. eapply triple_bind; [apply triple_wait|]. intros d.
  eapply triple_bind.
  { instantiate (1 := fun _ => RI (fun evs s =>
       List.length (done s) = last_reported N evs /\
       (exact orc -> List.length (xs s) + List.length (done s)
                     = N + List.length d))).
    intros s [evs [T [R [K [Hr Hx]]]]]. unfold assign_done. simpl.
    exists evs. simpl. rewrite length_map.
    split; [exact T|]. split; [exact R|]. split; [exact K|].
    split; [symmetry; exact Hr|].
    intros Hex. rewrite (Hx Hex). reflexivity. }
  intros ?. eapply triple_conseq.
  - apply (triple_for (absorb orc env) (fun rest => RI (fun evs s =>
       List.length (done s) = last_reported N evs /\
       (exact orc -> List.length (xs s) + List.length (done s)
                     = N + List.length rest)))).
    intros fut rest. apply (triple_absorb d).
  - auto.
  - intros _ s [evs [T [R [K [Hd Hx]]]]]. exists evs.
    split; [exact T|]. split; [exact R|]. split; [exact K|].
    split; [exact Hd|].
    intros Hex. specialize (Hx Hex). simpl in Hx. lia.
  - auto.
Qed.

Lemma while_loop_requests fuel : forall s,
  RI (at_head orc N) s ->
  RI (@anywhere L X Y) (fst (while_loop orc env mode self fuel s)).
Proof.
  induction fuel as [|fuel IH]; intros s H; simpl.
  - eapply RI_weaken; eauto.
  - destruct (goal self (learner s)); simpl; [eapply RI_weaken; eauto|].
    pose proof (triple_loop_body H) as Hb.
    destruct (loop_body orc env mode self s) as [s1 [[]|e]]; simpl; auto.
Qed.
End RequestFacts.

Section RequestClaim.
Variables L X Y : Type.
Variable orc : oracle L X Y.
Variable env : environment X Y.
Variable mode : strategy.
Variable self : runner L.

(** C3, as amended.  Every request [choose_points(n)] of a run asks for
    as many points as the wake-up before it reported futures ([ntasks] on
    the first pass): the loop replaces what completed.  That number is
    [ntasks] minus the number of outstanding futures when the learner has
    returned exactly as many points as it was asked for; after a short
    answer the loop does not ask for the difference. *)
Theorem requests_replace_the_completed fuel (s : state L X Y) pre n post :
  trace (fst (_run orc env mode self fuel s))
  = trace s ++ pre ++ EvChoosePoints n :: post ->
  n = last_reported (Z.to_nat (ntasks self)) pre /\
  (exact orc ->
     n = Z.to_nat (ntasks self) - List.length (outstanding pre) /\
     List.length (outstanding pre) <= Z.to_nat (ntasks self)).
Proof.
  intros Ht. unfold _run in Ht.
  set (N := Z.to_nat (ntasks self)) in *.
  set (s1 := set_done (set_xs s []) (repeat None N)) in *.
  destruct (Nat.eqb (List.length (done s1)) 0) eqn:E0.
  - exfalso. simpl in Ht. apply (f_equal (@List.length _)) in Ht.
    rewrite !length_app in Ht. simpl in Ht. lia.
  - assert (H1 : requests_inv orc (trace s) N (at_head orc N) s1).
    { exists []. split; [simpl; rewrite app_nil_r; reflexivity|].
      split; [apply requests_ok_nil|]. split; [reflexivity|].
      unfold at_head, s1. simpl. rewrite repeat_length. split; auto. }
    pose proof (while_loop_requests env mode self fuel H1)
      as [evs [T [R _]]].
    assert (Hall : exists tds : list (event X Y),
               trace s ++ pre ++ EvChoosePoints n :: post
               = trace s ++ evs ++ tds /\
               Forall (fun ev => is_choose_points ev = false) tds).
    { destruct (while_loop orc env mode self fuel s1) as [s' c].
      simpl in T.
      assert (Htd : forall tds : list (event X Y),
                 Forall (fun ev => teardown_event ev = true) tds ->
                 Forall (fun ev => is_choose_points ev = false) tds).
      { intros tds F. eapply Forall_impl; [|exact F].
        intros [] E; simpl in *; congruence. }
      pose proof (finally_block_spec orc env mode self s') as Hf.
      cbv zeta in Hf.
      destruct c as [|e|];
        [ | | exists []; simpl in Ht; rewrite <- Ht, T, app_nil_r;
              split; [reflexivity | constructor] ];
        destruct (finally_block orc env mode self s') as [s'' r];
        simpl in Hf;
        assert (Ht' : trace s'' = trace s ++ pre ++ EvChoosePoints n :: post)
          by (destruct r; exact Ht);
        destruct Hf as [_ [_ [[_ Hf] | [_ [_ [e' [_ Hf]]]]]]];
        rewrite Hf, T, <- app_assoc in Ht';
        eexists; (split; [symmetry; exact Ht'|]); apply Htd;
        first [apply teardown_events_only | apply teardown_cut_events_only]. }
    destruct Hall as [tds [E F]]. apply app_inv_head in E.
    apply (requests_ok_app_other R F pre n post (eq_sym E)).
Qed.
End RequestClaim.

(** The blocking loop, two tasks, three points wanted: its second request
    is for the one point that replaces the future reported done. *)
Lemma requests_replace_the_completed_witness :
  let self := Example.two_tasks (Example.enough 3) in
  let r := _run Example.counting Example.one_by_one Blocking self 10
                Example.start in
  let pre := [EvChoosePoints 2;
              EvSubmit to_executor 0 (Returns 0);
              EvSubmit to_executor 1 (Returns 1);
              EvWait [0; 1] (Returns [0]);
              EvPop 0 0; EvResult 0 (Returns 0); EvAddPoint 0 0] in
  let post := [EvSubmit to_executor 2 (Returns 2);
               EvWait [1; 2] (Returns [1]);
               EvPop 1 1; EvResult 1 (Returns 1); EvAddPoint 1 1;
               EvChoosePoints 1; EvSubmit to_executor 3 (Returns 3);
               EvWait [2; 3] (Returns [2]);
               EvPop 2 2; EvResult 2 (Returns 4); EvAddPoint 2 4;
               EvRemoveUnfinished; EvCancel 3; EvWaitAll [3] None;
               EvShutdown] in
  trace (fst r) = trace Example.start ++ pre ++ EvChoosePoints 1 :: post /\
  1 = last_reported (Z.to_nat (ntasks self)) pre /\
  (exact Example.counting ->
     1 = Z.to_nat (ntasks self) - List.length (outstanding pre) /\
     List.length (outstanding pre) <= Z.to_nat (ntasks self)).
Proof.
  intros self r pre post.
  split; [vm_compute; reflexivity|].
  apply (@requests_replace_the_completed _ _ _
           Example.counting Example.one_by_one Blocking
           self 10 Example.start pre 1 post).
  vm_compute. reflexivity.
Defined.

(** C3 as stated fails after a short answer: asked for two points the
    learner returns one; when that one is done the map is empty, two slots
    are free, and the loop asks for one point. *)
Lemma request_after_short_answer :
  let self := Example.two_tasks (Example.enough 2) in
  let r := _run Example.stingy Example.one_by_one Blocking self 10
                Example.start in
  let pre := [EvChoosePoints 2;
              EvSubmit to_executor 0 (Returns 0);
              EvWait [0] (Returns [0]);
              EvPop 0 0; EvResult 0 (Returns 0); EvAddPoint 0 0] in
  exists post,
    trace (fst r) = pre ++ EvChoosePoints 1 :: post /\
    outstanding pre = [] /\
    Z.to_nat (ntasks self) - List.length (outstanding pre) = 2.
Proof. eexists. vm_compute. repeat split; reflexivity. Qed.

(* ================================================================== *)
(** ** A learner with nothing to offer *)

Section NoPoints.
Variables L X Y : Type.
Variable orc : oracle L X Y.
Variable env : environment X Y.
Variable self : runner L.




End NoPoints.




(* ================================================================== *)
(** ** Construction *)

Section ConstructionFacts.
Variables L X Y : Type.
Variable pf : platform.

Lemma call_get_ncores_inv ex (s1 s' : state L X Y) n :
  call_get_ncores pf ex s1 = (s', Returns n) ->
  exists c, _get_ncores (with_ipyparallel pf) (with_distributed pf) ex
            = Returns c /\ n = Z.of_nat c /\
            s' = set_trace s1 (trace s1 ++ [EvGetNcores]).
Proof.
  unfold call_get_ncores, bind, emit.
  destruct (_get_ncores (with_ipyparallel pf) (with_distributed pf) ex)
    as [c|e]; simpl; intros H; inversion H; subst. eauto.
Qed.

(** What a successful [BaseRunner.__init__] has done. *)
Lemma BaseRunner_init_inv (g : L -> bool) a (s0 s : state L X Y) self :
  BaseRunner_init pf g a s0 = (s, Returns self) ->
  _ensure_executor (with_ipyparallel pf) (with_distributed pf) (cpu_count pf)
    (arg_executor a) = Returns (executor self) /\
  goal self = g /\
  shutdown_executor self
  = arg_shutdown_executor a || is_None (arg_executor a) /\
  _submit self = to_executor /\
  learner s = learner s0 /\
  log s = (if arg_log a then Some [] else None) /\
  xs s = xs s0 /\ done s = done s0 /\ nfut s = nfut s0 /\ nwait s = nwait s0 /\
  ((exists n, arg_ntasks a = Some n /\ n <> 0%Z /\ ntasks self = n /\
              trace s = trace s0 ++ pool_events (arg_executor a))
   \/
   ((arg_ntasks a = None \/ arg_ntasks a = Some 0%Z) /\
    exists c, _get_ncores (with_ipyparallel pf) (with_distributed pf)
                          (executor self) = Returns c /\
              ntasks self = Z.of_nat c /\
              trace s = trace s0 ++ pool_events (arg_executor a)
                                 ++ [EvGetNcores])).
Proof.
  unfold BaseRunner_init, bind, call_ensure_executor, pool_events.
  destruct (_ensure_executor (with_ipyparallel pf) (with_distributed pf)
              (cpu_count pf) (arg_executor a)) as [ex|e] eqn:Ee;
    [|simpl; discriminate].
  assert (Hpool :
    exists s1 : state L X Y,
      bind (if is_None (arg_executor a) then emit EvNewPool else ret tt)
           (fun _ => ret ex) s0 = (s1, Returns ex) /\
      learner s1 = learner s0 /\ log s1 = log s0 /\ xs s1 = xs s0 /\
      done s1 = done s0 /\ nfut s1 = nfut s0 /\ nwait s1 = nwait s0 /\
      trace s1 = trace s0 ++ (if is_None (arg_executor a)
                              then [EvNewPool] else [])).
  { destruct (is_None (arg_executor a)); eexists;
      (split; [reflexivity|]); simpl; rewrite ?app_nil_r; auto 10. }
  destruct Hpool as [s1 [-> [Hl [Hg [Hx [Hd [Hf [Hw Ht]]]]]]]].
  destruct (arg_ntasks a) as [n|] eqn:En.
  - destruct (Z.eqb n 0) eqn:E0.
    + apply Z.eqb_eq in E0. subst n.
      destruct (call_get_ncores pf ex s1) as [s' [m|e]] eqn:Ec;
        [|discriminate].
      destruct (call_get_ncores_inv _ _ Ec) as [c [Hc [-> ->]]].
      simpl. intros H. inversion H; subst. simpl.
      rewrite Ht, <- app_assoc.
      repeat split; auto. right. split; [auto|]. exists c. auto.
    + apply Z.eqb_neq in E0. simpl. intros H. inversion H; subst. simpl.
      repeat split; auto. left. exists n. auto.
  - destruct (call_get_ncores pf ex s1) as [s' [m|e]] eqn:Ec;
      [|discriminate].
    destruct (call_get_ncores_inv _ _ Ec) as [c [Hc [-> ->]]].
    simpl. intros H. inversion H; subst. simpl.
    rewrite Ht, <- app_assoc.
    repeat split; auto. right. split; [auto|]. exists c. auto.
Qed.
End ConstructionFacts.

Section ShutdownCounts.
Variables X Y : Type.

Lemma count_shutdown_teardown shutdown (l : list nat) :
  count (@is_shutdown X Y) (teardown shutdown l)
  = if shutdown then 1 else 0.
Proof.
  unfold teardown.
  change (EvRemoveUnfinished :: ?t)
    with ([EvRemoveUnfinished (X:=X) (Y:=Y)] ++ t).
  rewrite !count_app.
  assert (Hl : count (@is_shutdown X Y)
                 match l with
                 | [] => []
                 | _ :: _ => map EvCancel l ++ [EvWaitAll l None]
                 end = 0).
  { destruct l as [|f l]; [reflexivity|].
    rewrite count_app, count_cancels by reflexivity. reflexivity. }
  rewrite Hl. destruct shutdown; reflexivity.
Qed.

Lemma count_shutdown_teardown_cut (l : list nat) e :
  count (@is_shutdown X Y) (teardown_cut l e) = 0.
Proof.
  unfold teardown_cut.
  change (EvRemoveUnfinished :: ?t)
    with ([EvRemoveUnfinished (X:=X) (Y:=Y)] ++ t).
  rewrite !count_app, count_cancels by reflexivity. reflexivity.
Qed.
End ShutdownCounts.

Section ConstructionClaims.
Variables L X Y : Type.
Variable pf : platform.
Variable orc : oracle L X Y.
Variable env : environment X Y.

(** C4, as amended.  A constructed runner has [ntasks] zero only when the
    capacity of its pool is zero and the caller passed no [ntasks] or
    passed [0]: a passed [0] is not kept, the capacity of the pool takes
    its place.  When [ntasks] is zero, [_run], in either runner, fails
    with [RuntimeError('Executor has no workers')] and has touched neither
    the learner nor the pool: the trace, the learner and the log are as
    the constructor left them. *)
Theorem no_workers_fails_fast (g : L -> bool) a (s0 s : state L X Y) self
    mode via fuel :
  BaseRunner_init pf g a s0 = (s, Returns self) ->
  ntasks self = 0%Z ->
  (arg_ntasks a = None \/ arg_ntasks a = Some 0%Z) /\
  _get_ncores (with_ipyparallel pf) (with_distributed pf) (executor self)
  = Returns 0 /\
  snd (_run orc env mode (with_submit self via) fuel s)
  = Failed (RuntimeError "Executor has no workers") /\
  trace (fst (_run orc env mode (with_submit self via) fuel s)) = trace s /\
  learner (fst (_run orc env mode (with_submit self via) fuel s)) = learner s /\
  log (fst (_run orc env mode (with_submit self via) fuel s)) = log s.
Proof.
  intros Hi Hn.
  destruct (BaseRunner_init_inv _ _ _ _ Hi)
    as [_ [_ [_ [_ [_ [_ [_ [_ [_ [_ H]]]]]]]]]].
  assert (Hrun : _run orc env mode (with_submit self via) fuel s
                 = (set_done (set_xs s []) [],
                    Failed (RuntimeError "Executor has no workers"))).
  { unfold _run. simpl. rewrite Hn. reflexivity. }
  rewrite Hrun. simpl.
  destruct H as [[n [_ [Hn0 [Hn' _]]]] | [Ha [c [Hc [Hn' _]]]]].
  - congruence.
  - assert (c = 0) by lia. subst c. auto 10.
Qed.

(** C7, as amended.  The runner a constructor returns has
    [shutdown_executor = shutdown_executor argument or (executor is None)],
    and a pool is constructed by the runner exactly when no executor was
    passed.  A run of that runner which enters the loop and leaves
    [_run] shuts the pool down once when that decision is true and not
    at all when it is false; unless, in the coroutine only, the wait of
    the teardown is left by an exception, which ends the run before the
    shutdown.  A run of a runner without workers fails before the [try]
    block and shuts nothing down. *)
Theorem shutdown_decision (g : L -> bool) a (s0 s : state L X Y) self :
  BaseRunner_init pf g a s0 = (s, Returns self) \/
  (exists function_is_coroutine goal_arg,
     AsyncRunner_init pf function_is_coroutine goal_arg a s0
     = (s, Returns self)) ->
  shutdown_executor self
  = arg_shutdown_executor a || is_None (arg_executor a) /\
  (exists evs, trace s = trace s0 ++ evs /\
               (In EvNewPool evs <-> arg_executor a = None)) /\
  forall mode fuel,
    ((0 < ntasks self)%Z ->
     snd (_run orc env mode self fuel s) <> Running ->
     exists evs,
       trace (fst (_run orc env mode self fuel s)) = trace s ++ evs /\
       (count (@is_shutdown X Y) evs
        = (if arg_shutdown_executor a || is_None (arg_executor a)
           then 1 else 0)
        \/
        (mode = Async /\
         count (@is_shutdown X Y) evs = 0 /\
         exists pre fs e,
           snd (_run orc env mode self fuel s) = Failed e /\
           evs = pre ++ [EvWaitAll fs (Some e)]))) /\
    ((ntasks self <= 0)%Z ->
     trace (fst (_run orc env mode self fuel s)) = trace s).
Proof.
  intros H.
  assert (Hbase :
    shutdown_executor self
    = arg_shutdown_executor a || is_None (arg_executor a) /\
    exists evs, trace s = trace s0 ++ evs /\
                (In EvNewPool evs <-> arg_executor a = None)).
  { assert (Hpool : forall rest : list (event X Y),
               ~ In EvNewPool rest ->
               In EvNewPool (pool_events (arg_executor a) ++ rest)
               <-> arg_executor a = None).
    { intros rest Hrest. unfold pool_events.
      destruct (arg_executor a); simpl; split; intros H1;
        try discriminate; try tauto; auto. }
    assert (Hfrom : forall (s1 : state L X Y) self1,
               BaseRunner_init pf (goal self1) a s0 = (s1, Returns self1) ->
               shutdown_executor self1
               = arg_shutdown_executor a || is_None (arg_executor a) /\
               exists evs, trace s1 = trace s0 ++ evs /\
                           ~ In EvShutdown evs /\
                           (forall rest, ~ In EvNewPool rest ->
                              In EvNewPool (evs ++ rest)
                              <-> arg_executor a = None)).
    { intros s1 self1 Hi.
      destruct (BaseRunner_init_inv _ _ _ _ Hi)
        as [_ [_ [Hs [_ [_ [_ [_ [_ [_ [_ Ht]]]]]]]]]].
      split; [exact Hs|].
      destruct Ht as [[n [_ [_ [_ Ht]]]] | [_ [c [_ [_ Ht]]]]].
      - exists (pool_events (arg_executor a)). split; [exact Ht|].
        split; [unfold pool_events; destruct (is_None _); simpl;
                intuition discriminate|].
        exact Hpool.
      - exists (pool_events (arg_executor a) ++ [EvGetNcores]).
        split; [exact Ht|].
        split; [unfold pool_events; destruct (is_None _); simpl;
                intuition discriminate|].
        intros rest Hrest. rewrite <- app_assoc. apply Hpool.
        simpl. intros [H1|H1]; [discriminate | tauto]. }
    destruct H as [Hi | [fc [ga Hi]]].
    - destruct (BaseRunner_init_inv _ _ _ _ Hi) as [_ [Hg _]].
      rewrite <- Hg in Hi. destruct (Hfrom _ _ Hi) as [Hs [evs [Ht [_ Hp]]]].
      split; [exact Hs|]. exists evs. split; [exact Ht|].
      rewrite <- (app_nil_r evs). apply Hp. simpl. tauto.
    - unfold AsyncRunner_init, bind in Hi.
      destruct (BaseRunner_init pf (goal_of ga) a s0) as [s1 [self1|e]] eqn:Eb; [|discriminate].
      pose proof (BaseRunner_init_inv _ _ _ _ Eb) as [_ [Hg _]].
      rewrite <- Hg in Eb. destruct (Hfrom _ _ Eb) as [Hs [evs [Ht [_ Hp]]]].
      destruct fc.
      + destruct (truthy (arg_executor a)); simpl in Hi; [discriminate|].
        inversion Hi; subst. simpl. split; [exact Hs|].
        exists (evs ++ [EvShutdown]). rewrite Ht, app_assoc.
        split; [reflexivity|]. apply Hp. simpl.
        intros [H1|H1]; [discriminate | tauto].
      + simpl in Hi. inversion Hi; subst. simpl. split; [exact Hs|].
        exists evs. split; [exact Ht|].
        rewrite <- (app_nil_r evs). apply Hp. simpl. tauto. }
  destruct Hbase as [Hs Hev]. split; [exact Hs|]. split; [exact Hev|].
  intros mode fuel. split.
  - intros Hn Hr.
    destruct (run_summary orc env mode self fuel s Hn Hr)
      as [evs [c [sl [[Fl _] [_ [_ [_ [_ [_ Hcase]]]]]]]]].
    assert (C0 : count (@is_shutdown X Y) evs = 0).
    { eapply count_none; [|exact Fl]. intros [] E; simpl in *; congruence. }
    destruct Hcase as [[_ Ht] | [Hm [_ [e [He Ht]]]]].
    + exists (evs ++ teardown (shutdown_executor self) (outstanding evs)).
      split; [exact Ht|]. left.
      rewrite count_app, C0, count_shutdown_teardown, Hs. reflexivity.
    + exists (evs ++ teardown_cut (outstanding evs) e).
      split; [exact Ht|]. right. split; [exact Hm|].
      split; [rewrite count_app, C0, count_shutdown_teardown_cut; reflexivity|].
      exists (evs ++ EvRemoveUnfinished :: map EvCancel (outstanding evs)),
             (outstanding evs), e.
      split; [exact He|]. unfold teardown_cut.
      rewrite <- app_assoc. reflexivity.
  - intros Hn. unfold _run. simpl. rewrite repeat_length.
    replace (Z.to_nat (ntasks self)) with 0 by lia. reflexivity.
Qed.
End ConstructionClaims.

(** A pool without workers and no [ntasks]: the run fails at once. *)
Lemma no_workers_fails_fast_witness :
  let a := ExamplePools.over ExamplePools.idle_view None in
  let s0 := Example.start in
  let self := mk_runner ExamplePools.idle_view (Example.enough 1) 0 false
                        to_executor in
  let s := set_trace s0 [EvGetNcores] in
  let run := _run Example.counting Example.one_by_one Blocking
                  (with_submit self to_executor) 10 s in
  BaseRunner_init ExamplePools.cluster (Example.enough 1) a s0
  = (s, Returns self) /\
  ntasks self = 0%Z /\
  (arg_ntasks a = None \/ arg_ntasks a = Some 0%Z) /\
  _get_ncores (with_ipyparallel ExamplePools.cluster)
              (with_distributed ExamplePools.cluster) (executor self)
  = Returns 0 /\
  snd run = Failed (RuntimeError "Executor has no workers") /\
  trace (fst run) = trace s /\
  learner (fst run) = learner s /\
  log (fst run) = log s.
Proof.
  intros a s0 self s run.
  split; [reflexivity|]. split; [reflexivity|].
  apply (@no_workers_fails_fast _ _ _ ExamplePools.cluster Example.counting
           Example.one_by_one (Example.enough 1) a s0 s self Blocking
           to_executor 10); reflexivity.
Defined.

(** C4 as stated fails for a caller who passes [ntasks=0]: over a
    [SequentialExecutor] the runner takes the executor's one core for
    [ntasks], asks the learner for a point, submits it and completes. *)
Lemma ntasks_zero_is_replaced :
  let r := BlockingRunner_init Example.machine Example.counting
             (Example.sequential Example.square) false (Example.enough 1)
             (ExamplePools.over Sequential.new (Some 0%Z)) 10 Example.start in
  snd r = Completed /\
  trace (fst r)
  = [EvGetNcores; EvChoosePoints 1; EvSubmit to_executor 0 (Returns 0);
     EvWait [0] (Returns [0]); EvPop 0 0; EvResult 0 (Returns 0);
     EvAddPoint 0 0; EvRemoveUnfinished] /\
  learner (fst r) <> learner Example.start.
Proof. vm_compute. repeat split; try reflexivity. discriminate. Qed.

(** The default construction: the runner makes its pool, and the run
    shuts it down. *)
Lemma shutdown_decision_witness :
  let a := mk_init_args None None false false in
  let s0 := Example.start in
  let self := mk_runner (new_ProcessPoolExecutor 4) (Example.enough 1) 4 true
                        to_executor in
  let s := set_trace s0 [EvNewPool; EvGetNcores] in
  let r := _run Example.counting Example.one_by_one Blocking self 10 s in
  (BaseRunner_init Example.machine (Example.enough 1) a s0 = (s, Returns self) \/
   (exists function_is_coroutine goal_arg,
      AsyncRunner_init Example.machine function_is_coroutine goal_arg a s0
      = (s, Returns self))) /\
  (0 < ntasks self)%Z /\
  snd r <> Running /\
  shutdown_executor self
  = arg_shutdown_executor a || is_None (arg_executor a) /\
  (exists evs, trace s = trace s0 ++ evs /\
               (In EvNewPool evs <-> arg_executor a = None)) /\
  exists evs,
    trace (fst r) = trace s ++ evs /\
    (count (@is_shutdown nat nat) evs
     = (if arg_shutdown_executor a || is_None (arg_executor a) then 1 else 0)
     \/
     (Blocking = Async /\
      count (@is_shutdown nat nat) evs = 0 /\
      exists pre fs e,
        snd r = Failed e /\ evs = pre ++ [EvWaitAll fs (Some e)])).
Proof.
  intros a s0 self s r.
  assert (Hi : BaseRunner_init Example.machine (Example.enough 1) a s0
               = (s, Returns self) \/
               (exists function_is_coroutine goal_arg,
                  AsyncRunner_init Example.machine function_is_coroutine
                    goal_arg a s0 = (s, Returns self)))
    by (left; reflexivity).
  assert (Hn : (0 < ntasks self)%Z) by reflexivity.
  assert (Hr : snd r <> Running) by (vm_compute; discriminate).
  destruct (@shutdown_decision _ _ _ Example.machine Example.counting
              Example.one_by_one (Example.enough 1) a s0 s self Hi)
    as [Hs [Hev Hrun]].
  destruct (Hrun Blocking 10) as [Hloop _].
  split; [exact Hi|]. split; [exact Hn|]. split; [exact Hr|].
  split; [exact Hs|]. split; [exact Hev|].
  exact (Hloop Hn Hr).
Defined.

(** C7 as stated fails in the coroutine: the runner is constructed with
    no executor, so it makes its pool and is to shut it down; its loop
    ends on the goal with one future outstanding, a cancellation of the
    task is delivered at the wait of the teardown, and the run ends with
    the pool never shut down. *)
Lemma own_pool_left_running_after_cancelled_teardown :
  let a := mk_init_args None (Some 2%Z) false false in
  let s := set_trace Example.start [EvNewPool] in
  let self := mk_runner (new_ProcessPoolExecutor 4) (Example.enough 1) 2 true
                        to_executor in
  let r := _run Example.counting Example.cancelled_at_second Async self 10 s in
  AsyncRunner_init Example.machine false (Some (Example.enough 1)) a
    Example.start = (s, Returns self) /\
  arg_shutdown_executor a || is_None (arg_executor a) = true /\
  shutdown_executor self = true /\
  (0 < ntasks self)%Z /\
  snd r = Failed Example.CancelledError /\
  trace (fst r)
  = [EvNewPool;
     EvChoosePoints 2;
     EvSubmit to_executor 0 (Returns 0); EvSubmit to_executor 1 (Returns 1);
     EvWait [0; 1] (Returns [0]);
     EvPop 0 0; EvResult 0 (Returns 0); EvAddPoint 0 0;
     EvRemoveUnfinished; EvCancel 1;
     EvWaitAll [1] (Some Example.CancelledError)] /\
  count (@is_shutdown nat nat) (trace (fst r)) = 0.
Proof. vm_compute. repeat split; reflexivity. Qed.

Section AsyncConstruction.
Variables L X Y : Type.
Variable pf : platform.
Variable orc : oracle L X Y.

(** C8, as amended.  For a coroutine function:
    - with an executor passed that is true in a boolean context (as an
      executor object is unless its class says otherwise), construction
      is rejected: by the [RuntimeError] on the unused executor when the
      base constructor succeeds, and by the base constructor's own error
      (unsupported object, unknown number of cores) when it fails, which
      it does first;
    - with no executor passed, construction succeeds, the pool the base
      constructor made is shut down there and then, [_submit] creates
      tasks on the event loop, and no submission of a run goes to the
      pool. *)
Theorem coroutine_function_and_executor goal_arg a (s0 : state L X Y) :
  (forall ex, arg_executor a = Some ex -> truth ex = true ->
     snd (AsyncRunner_init pf true goal_arg a s0)
     = match snd (BaseRunner_init pf (goal_of goal_arg) a s0) with
       | Returns _ =>
           Raises (RuntimeError
                     "Executor is unused when learning an async function")
       | Raises e => Raises e
       end) /\
  (arg_executor a = None ->
     exists s self evs,
       AsyncRunner_init pf true goal_arg a s0 = (s, Returns self) /\
       _submit self = on_ioloop /\
       trace s = trace s0 ++ EvNewPool :: evs ++ [EvShutdown] /\
       forall env fuel,
         snd (_run orc env Async self fuel s) <> Running ->
         (0 < ntasks self)%Z ->
         exists evs' tds,
           trace (fst (_run orc env Async self fuel s))
           = trace s ++ evs' ++ tds /\
           Forall (submitted_via on_ioloop) evs' /\
           Forall (fun ev => teardown_event ev = true) tds).
Proof.
  split.
  - intros ex He Ht. unfold AsyncRunner_init, bind.
    fold (goal_of goal_arg).
    destruct (BaseRunner_init pf (goal_of goal_arg) a s0) as [s1 [self|e]];
      simpl; [|reflexivity].
    unfold truthy. rewrite He, Ht. reflexivity.
  - intros Hnone.
    assert (Hbase : exists s1 self1,
               BaseRunner_init pf (goal_of goal_arg) a s0
               = (s1, Returns self1)).
    { unfold BaseRunner_init, bind, call_ensure_executor.
      rewrite Hnone. simpl.
      assert (Hc : exists s2 n,
                 call_get_ncores pf (new_ProcessPoolExecutor (cpu_count pf))
                   (set_trace s0 (trace s0 ++ [EvNewPool]))
                 = (s2 : state L X Y, Returns n)).
      { unfold call_get_ncores, bind, emit, _get_ncores. simpl.
        rewrite ?andb_false_r. simpl. unfold ret. eauto. }
      destruct Hc as [s2 [n Hc]].
      destruct (arg_ntasks a) as [m|]; [destruct (Z.eqb m 0)|];
        rewrite ?Hc; simpl; unfold ret; eauto. }
    destruct Hbase as [s1 [self1 Hb]].
    destruct (BaseRunner_init_inv _ _ _ _ Hb)
      as [_ [_ [_ [_ [_ [_ [_ [_ [_ [_ Htr]]]]]]]]]].
    unfold AsyncRunner_init, bind. fold (goal_of goal_arg).
    rewrite Hb. unfold truthy. rewrite Hnone. simpl.
    assert (Hev : exists evs : list (event X Y),
               trace s1 = trace s0 ++ EvNewPool :: evs).
    { unfold pool_events in Htr. rewrite Hnone in Htr. simpl in Htr.
      destruct Htr as [[n [_ [_ [_ Ht]]]] | [_ [c [_ [_ Ht]]]]];
        rewrite Ht; eauto. }
    destruct Hev as [evs Hev].
    eexists. eexists. exists evs. split; [reflexivity|].
    split; [reflexivity|]. split.
    + simpl. rewrite Hev, <- app_assoc. reflexivity.
    + intros env fuel Hr Hn.
      destruct (run_summary orc env Async _ fuel _ Hn Hr)
        as [evs' [c [sl [[_ V] [_ [_ [_ [_ [_ H]]]]]]]]].
      simpl in V.
      destruct H as [[_ Ht] | [_ [_ [e [_ Ht]]]]];
        exists evs'; eexists; (split; [exact Ht|]); (split; [exact V|]).
      * apply teardown_events_only.
      * apply teardown_cut_events_only.
Qed.
End AsyncConstruction.

(** C8 as stated fails for an executor of a class [_get_ncores] does not
    know, passed without [ntasks]: the construction is rejected by the
    [TypeError] of [_get_ncores], raised in the base constructor, and not by
    the error on the unused executor. *)
Lemma unknown_executor_rejected_earlier :
  snd (AsyncRunner_init Example.machine true None
         (ExamplePools.over ExamplePools.homemade None) Example.start)
  = Raises (TypeError "Cannot get number of cores").
Proof. reflexivity. Qed.

(* ================================================================== *)
(** ** SequentialExecutor *)

(** C9, as amended.  [submit] calls the function at once and returns a
    future that is done: it holds the result when the function returns, and
    the exception when the function raises one that derives from
    [Exception]; an exception that does not ([KeyboardInterrupt],
    [SystemExit]) is not caught and leaves [submit].  [_get_ncores] gives 1
    for the executor, and [shutdown] changes nothing, once or twice. *)
Theorem sequential_executor_contract (A B : Type) (fn : A -> outcome B) (x : A) :
  (forall v, fn x = Returns v ->
     Sequential.submit fn x = Returns (Sequential.FINISHED (Returns v))) /\
  (forall e, fn x = Raises e -> exn_is_Exception e = true ->
     Sequential.submit fn x = Returns (Sequential.FINISHED (Raises e))) /\
  (forall e, fn x = Raises e -> exn_is_Exception e = false ->
     Sequential.submit fn x = Raises e) /\
  (forall fut, Sequential.submit fn x = Returns fut ->
     Sequential.is_done fut = true) /\
  (forall wi wd t c,
     _get_ncores wi wd (mk_pyobject SequentialExecutor t c) = Returns 1) /\
  (forall self w1 w2,
     Sequential.shutdown self w1 = self /\
     Sequential.shutdown (Sequential.shutdown self w1) w2
     = Sequential.shutdown self w1).
Proof.
  unfold Sequential.submit.
  split; [|split; [|split; [|split; [|split]]]].
  - intros v ->. reflexivity.
  - intros e -> ->. reflexivity.
  - intros e -> ->. reflexivity.
  - intros fut. destruct (fn x) as [v|e];
      [|destruct (exn_is_Exception e)]; intros H; inversion H; reflexivity.
  - intros wi wd t c. unfold _get_ncores. simpl.
    rewrite !andb_false_r. reflexivity.
  - intros self w1 w2. split; reflexivity.
Qed.

(** C9 as stated fails for a function that exits the interpreter:
    [SystemExit] does not derive from [Exception], [except Exception] does
    not catch it, and [submit] raises it instead of returning a future. *)
Lemma submit_raises_system_exit :
  Sequential.submit (fun _ : nat => @Raises nat Example.SystemExit) 0
  = Raises Example.SystemExit.
Proof. reflexivity. Qed.

(* ================================================================== *)
(** ** BlockingRunner and coroutine functions *)

(** C10.  [BlockingRunner.__init__] on a coroutine function raises the
    [ValueError] before anything else: the state is the one it was given,
    so no pool was made, no number of cores asked for, nothing submitted
    and the learner not touched. *)
Theorem blocking_runner_rejects_coroutines (L X Y : Type) (pf : platform)
    (orc : oracle L X Y) (env : environment X Y) (g : L -> bool)
    (a : init_args) (fuel : nat) (s : state L X Y) :
  BlockingRunner_init pf orc env true g a fuel s
  = (s, Failed (ValueError
                  "Coroutine functions can only be used with 'AsyncRunner'.")) /\
  trace (fst (BlockingRunner_init pf orc env true g a fuel s)) = trace s /\
  learner (fst (BlockingRunner_init pf orc env true g a fuel s)) = learner s.
Proof. repeat split. Qed.

(* ================================================================== *)
(** ** Further properties: construction *)

Section MoreConstruction.
Variables L X Y : Type.
Variable pf : platform.
Variable orc : oracle L X Y.
Variable env : environment X Y.

Lemma get_ncores_known ex :
  (exists c, _get_ncores (with_ipyparallel pf) (with_distributed pf) ex
             = Returns c) <-> cores_known pf ex = true.
Proof.
  unfold _get_ncores, cores_known.
  destruct (class_of ex), (with_ipyparallel pf), (with_distributed pf);
    simpl; split; intros H; try reflexivity; try discriminate; eauto;
    destruct H as [c H]; discriminate.
Qed.

Lemma BaseRunner_init_outcome (g : L -> bool) a (s0 : state L X Y) :
  snd (BaseRunner_init pf g a s0)
  = match _ensure_executor (with_ipyparallel pf) (with_distributed pf)
            (cpu_count pf) (arg_executor a) with
    | Raises e => Raises e
    | Returns ex =>
        if ntasks_left_open a
        then match _get_ncores (with_ipyparallel pf) (with_distributed pf) ex with
             | Returns c =>
                 Returns (mk_runner ex g (Z.of_nat c)
                            (arg_shutdown_executor a || is_None (arg_executor a))
                            to_executor)
             | Raises e => Raises e
             end
        else Returns (mk_runner ex g
                        match arg_ntasks a with Some n => n | None => 0%Z end
                        (arg_shutdown_executor a || is_None (arg_executor a))
                        to_executor)
    end.
Proof.
  unfold BaseRunner_init, bind, call_ensure_executor, ntasks_left_open.
  destruct (_ensure_executor (with_ipyparallel pf) (with_distributed pf)
              (cpu_count pf) (arg_executor a)) as [ex|e]; [|reflexivity].
  unfold bind.
  destruct (is_None (arg_executor a)); simpl;
    destruct (arg_ntasks a) as [n|]; try destruct (Z.eqb n 0);
    unfold call_get_ncores, bind, emit; simpl;
    destruct (_get_ncores (with_ipyparallel pf) (with_distributed pf) ex);
    reflexivity.
Qed.

(** X1.  Whether [BaseRunner.__init__] succeeds.  With no executor, or with
    a client of an imported library, it always does: the executor made for
    the caller is one [_get_ncores] knows.  With an executor object of the
    caller's it succeeds exactly when a non-zero [ntasks] is passed or
    [_get_ncores] has a branch for the object's class.  Any other object is
    refused with the [TypeError] of [_ensure_executor]. *)
Theorem construction_succeeds (g : L -> bool) a (s0 : state L X Y) :
  (arg_executor a = None ->
     exists self, snd (BaseRunner_init pf g a s0) = Returns self) /\
  (forall ex, arg_executor a = Some ex ->
     (class_of ex = IpyparallelClient /\ with_ipyparallel pf = true) \/
     (class_of ex = DistributedClient /\ with_distributed pf = true) ->
     exists self, snd (BaseRunner_init pf g a s0) = Returns self) /\
  (forall ex, arg_executor a = Some ex -> is_Executor (class_of ex) = true ->
     ((exists self, snd (BaseRunner_init pf g a s0) = Returns self)
      <-> (ntasks_left_open a = false \/ cores_known pf ex = true))) /\
  (forall ex, arg_executor a = Some ex -> is_Executor (class_of ex) = false ->
     ~ (class_of ex = IpyparallelClient /\ with_ipyparallel pf = true) ->
     ~ (class_of ex = DistributedClient /\ with_distributed pf = true) ->
     snd (BaseRunner_init pf g a s0)
     = Raises (TypeError
         "Only a concurrent.futures.Executor, distributed.Client, or ipyparallel.Client can be used.")).
Proof.
  rewrite BaseRunner_init_outcome. unfold _ensure_executor.
  split; [|split; [|split]].
  - intros ->. destruct (ntasks_left_open a); [|eauto].
    unfold _get_ncores, new_ProcessPoolExecutor. simpl.
    rewrite andb_false_r. simpl. eauto.
  - intros ex -> [[Hc Hf] | [Hc Hf]]; rewrite Hc, Hf; simpl;
      destruct (ntasks_left_open a); eauto;
      unfold _get_ncores; simpl; rewrite ?Hf, ?andb_false_r; simpl; eauto.
  - intros ex -> He. rewrite He.
    destruct (ntasks_left_open a).
    + split.
      * intros [self H]. right. apply get_ncores_known.
        destruct (_get_ncores (with_ipyparallel pf) (with_distributed pf) ex)
          as [c|e]; [eauto | discriminate].
      * intros [H|H]; [discriminate|]. apply get_ncores_known in H.
        destruct H as [c ->]. eauto.
    + split; [auto | eauto].
  - intros ex -> He Hi Hd. rewrite He.
    destruct (class_of ex); try discriminate;
      destruct (with_ipyparallel pf), (with_distributed pf); simpl;
      try reflexivity; exfalso; tauto.
Qed.

(** X2.  A negative [ntasks] is kept as it is passed (the cores of the
    executor are not asked for), and the blocking runner then fails with
    [RuntimeError('Executor has no workers')] before it touches the
    learner: the only events are those of the construction. *)
Theorem negative_ntasks_has_no_workers (g : L -> bool) a fuel
    (s : state L X Y) n ex :
  arg_ntasks a = Some n ->
  (n < 0)%Z ->
  _ensure_executor (with_ipyparallel pf) (with_distributed pf) (cpu_count pf)
                   (arg_executor a) = Returns ex ->
  snd (BlockingRunner_init pf orc env false g a fuel s)
  = Failed (RuntimeError "Executor has no workers") /\
  learner (fst (BlockingRunner_init pf orc env false g a fuel s)) = learner s /\
  trace (fst (BlockingRunner_init pf orc env false g a fuel s))
  = trace s ++ pool_events (arg_executor a).
Proof.
  intros Hn Hneg He.
  pose proof (BaseRunner_init_outcome g a s) as Ho.
  rewrite He in Ho. unfold ntasks_left_open in Ho. rewrite Hn in Ho.
  assert (E0 : Z.eqb n 0 = false) by (apply Z.eqb_neq; lia).
  rewrite E0 in Ho.
  unfold BlockingRunner_init.
  destruct (BaseRunner_init pf g a s) as [s' [self|e]] eqn:Eb;
    simpl in Ho; [|discriminate].
  destruct (BaseRunner_init_inv _ _ _ _ Eb)
    as [_ [_ [_ [_ [Hl [_ [_ [_ [_ [_ Ht]]]]]]]]]].
  inversion Ho; subst self. clear Ho.
  destruct Ht as [[m [Hm [_ [_ Ht]]]] | [[Hm|Hm] _]];
    [ | rewrite Hn in Hm; discriminate
      | rewrite Hn in Hm; inversion Hm; lia ].
  unfold _run. simpl. rewrite repeat_length.
  replace (Z.to_nat n) with 0 by lia. simpl. auto.
Qed.
End MoreConstruction.

(* ================================================================== *)
(** ** Further properties: how a run ends *)

Section MoreEndings.
Variables L X Y : Type.
Variable pf : platform.
Variable orc : oracle L X Y.
Variable env : environment X Y.

Lemma while_loop_unmet_goal mode (self : runner L) :
  (forall l, goal self l = false) ->
  forall fuel (s : state L X Y),
    snd (while_loop orc env mode self fuel s) <> Completed.
Proof.
  intros Hg. induction fuel as [|fuel IH]; intros s; simpl; [discriminate|].
  rewrite Hg.
  destruct (loop_body orc env mode self s) as [s' [[]|e]];
    [apply IH | discriminate].
Qed.

Lemma AsyncRunner_init_goal function_is_coroutine goal_arg a
    (s0 s : state L X Y) self :
  AsyncRunner_init pf function_is_coroutine goal_arg a s0 = (s, Returns self) ->
  goal self = goal_of goal_arg.
Proof.
  unfold AsyncRunner_init, bind.
  destruct (BaseRunner_init pf (goal_of goal_arg) a s0) as [s1 [self1|e]] eqn:Eb;
    [|discriminate].
  destruct (BaseRunner_init_inv _ _ _ _ Eb) as [_ [Hg _]].
  destruct function_is_coroutine.
  - destruct (truthy (arg_executor a)); simpl; [discriminate|].
    intros H. inversion H; subst. exact Hg.
  - simpl. intros H. inversion H; subst. exact Hg.
Qed.

(** X3.  An [AsyncRunner] made without a goal never completes: whatever
    the learner, the environment and the number of passes, its run is
    still in the loop or has ended with an exception (a worker's, a
    cancellation, no workers), never on the goal. *)
Theorem no_goal_never_completes function_is_coroutine a
    (s0 s : state L X Y) self fuel :
  AsyncRunner_init pf function_is_coroutine None a s0 = (s, Returns self) ->
  snd (_run orc env Async self fuel s) <> Completed.
Proof.
  intros Hi. pose proof (AsyncRunner_init_goal _ _ _ _ Hi) as Hg.
  simpl in Hg.
  assert (Hw : forall s1 : state L X Y,
             snd (while_loop orc env Async self fuel s1) <> Completed).
  { intros s1. apply while_loop_unmet_goal. intros l. rewrite Hg. reflexivity. }
  unfold _run.
  destruct (Nat.eqb _ 0); [discriminate|].
  match goal with |- context [while_loop orc env Async self fuel ?s1] =>
    specialize (Hw s1);
    destruct (while_loop orc env Async self fuel s1) as [s' [|e|]]
  end; simpl in *.
  - congruence.
  - destruct (finally_block orc env Async self s') as [s'' [[]|e']];
      discriminate.
  - discriminate.
Qed.

(** X4.  When the goal already holds for the learner the run is given,
    [_run] asks the learner for no point and submits nothing: it calls
    [remove_unfinished], shuts the pool down if it is to, and completes. *)
Theorem goal_met_at_start mode (self : runner L) fuel (s : state L X Y) :
  goal self (learner s) = true ->
  (0 < ntasks self)%Z ->
  snd (_run orc env mode self (S fuel) s) = Completed /\
  trace (fst (_run orc env mode self (S fuel) s))
  = trace s ++ teardown (shutdown_executor self) [] /\
  learner (fst (_run orc env mode self (S fuel) s))
  = remove_unfinished orc (learner s) /\
  log (fst (_run orc env mode self (S fuel) s)) = log s.
Proof.
  intros Hg Hn. unfold _run.
  set (s1 := set_done (set_xs s []) (repeat None (Z.to_nat (ntasks self)))).
  assert (Hlen : Nat.eqb (List.length (done s1)) 0 = false).
  { apply Nat.eqb_neq. unfold s1; simpl. rewrite repeat_length. lia. }
  rewrite Hlen. simpl. change (learner s1) with (learner s). rewrite Hg.
  unfold finally_block, bind, call_remove_unfinished, gets. simpl.
  unfold teardown. destruct (shutdown_executor self); simpl;
    rewrite <- ?app_assoc; auto.
Qed.
End MoreEndings.

(** An [AsyncRunner] over its own pool, made without a goal. *)
Lemma no_goal_never_completes_witness :
  let a := mk_init_args None (Some 2%Z) false true in
  let self := mk_runner (new_ProcessPoolExecutor 4) (goal_of None) 2 true
                        to_executor in
  let s := set_trace Example.start [EvNewPool] in
  AsyncRunner_init Example.machine false None a Example.start
  = (s, Returns self) /\
  snd (_run Example.counting Example.one_by_one Async self 10 s) <> Completed.
Proof.
  intros a self s. split; [reflexivity|].
  apply (@no_goal_never_completes _ _ _ Example.machine Example.counting
           Example.one_by_one false a Example.start s self 10).
  reflexivity.
Defined.

(** A goal that asks for no point holds from the start. *)
Lemma goal_met_at_start_witness :
  let self := Example.two_tasks (Example.enough 0) in
  let r := _run Example.counting Example.one_by_one Blocking self 1
                Example.start in
  goal self (learner Example.start) = true /\
  (0 < ntasks self)%Z /\
  snd r = Completed /\
  trace (fst r) = trace Example.start ++ teardown (shutdown_executor self) [] /\
  learner (fst r) = remove_unfinished Example.counting (learner Example.start) /\
  log (fst r) = log Example.start.
Proof.
  intros self r. split; [reflexivity|]. split; [reflexivity|].
  apply (@goal_met_at_start _ _ _ Example.counting Example.one_by_one
           Blocking self 0 Example.start); reflexivity.
Defined.

(* ================================================================== *)
(** ** Further properties: replay_log *)

Section MoreReplay.
Variables L X Y : Type.
Variable orc : oracle L X Y.
Variable env : environment X Y.
Variable mode : strategy.
Variable self : runner L.

(** X5.  Replaying a log in two parts is replaying it whole: the second
    part starts from the learner the first part left, and is not started
    when the first part stopped on an error. *)
Theorem replay_log_app (l : L) (g1 g2 : list (log_entry X Y)) :
  replay_log orc l (g1 ++ g2)
  = match replay_log orc l g1 with
    | (l1, None) => replay_log orc l1 g2
    | (l1, Some e) => (l1, Some e)
    end.
Proof.
  revert l. induction g1 as [|[method args] g1 IH]; intros l; simpl;
    [reflexivity|].
  destruct (call_method orc method args l) as [l'|e]; [apply IH | reflexivity].
Qed.

Lemma replay_learner_calls (evs : list (event X Y)) : forall l,
  replay_log orc l (learner_calls evs) = (learner_after orc l evs, None).
Proof.
  induction evs as [|ev evs IH]; intros l; [reflexivity|].
  unfold learner_calls, learner_after in *. simpl.
  destruct ev; simpl; auto.
Qed.

(** X6.  [replay_log] knows all three learner methods: replaying every
    call a finished run made to the learner, the final
    [remove_unfinished] included, ends without error in the learner the
    run ended with. *)
Theorem replay_of_all_calls fuel (s : state L X Y) :
  (0 < ntasks self)%Z ->
  snd (_run orc env mode self fuel s) <> Running ->
  exists evs,
    trace (fst (_run orc env mode self fuel s)) = trace s ++ evs /\
    replay_log orc (learner s) (learner_calls evs)
    = (learner (fst (_run orc env mode self fuel s)), None).
Proof.
  intros Hn Hr.
  destruct (run_summary orc env mode self fuel s Hn Hr)
    as [evs [c [sl [[F _] [_ [_ [Hl [_ [Hf H]]]]]]]]].
  assert (Htds : exists tds : list (event X Y),
             trace (fst (_run orc env mode self fuel s)) = trace s ++ evs ++ tds /\
             Forall (fun ev => teardown_event ev = true) tds /\
             count (@is_remove_unfinished X Y) tds = 1).
  { destruct H as [[_ Ht] | [_ [_ [e [_ Ht]]]]].
    - eexists. split; [exact Ht|]. split.
      + apply teardown_events_only.
      + apply count_remove_unfinished_teardown.
    - eexists. split; [exact Ht|]. split.
      + apply teardown_cut_events_only.
      + apply count_remove_unfinished_cut. }
  destruct Htds as [tds [Ht [Ftd Hc]]].
  exists (evs ++ tds). split; [exact Ht|].
  rewrite replay_learner_calls. f_equal.
  rewrite Hf, Hl. unfold learner_after. rewrite fold_left_app.
  fold (learner_after orc (learner s) evs).
  generalize (learner_after orc (learner s) evs). intros l0.
  clear - Ftd Hc. revert l0. unfold count in Hc.
  induction Ftd as [|ev tds Hev Htds IH]; intros l0; simpl in *;
    [discriminate|].
  destruct ev; simpl in *; try discriminate; auto.
  assert (H0 : filter (@is_remove_unfinished X Y) tds = [])
    by (destruct (filter _ tds); [reflexivity | discriminate]).
  clear - Htds H0. generalize (remove_unfinished orc l0). intros l1.
  induction Htds as [|ev tds Hev _ IH]; simpl in *; [reflexivity|].
  destruct ev; simpl in *; try discriminate; auto.
Qed.

(** X7.  While a run is in its loop, at the head of any pass, its log
    replays to the learner as it is then: nothing the loop does to the
    learner escapes the log. *)
Theorem log_replays_in_progress fuel (s : state L X Y) :
  log s = Some [] ->
  snd (_run orc env mode self fuel s) = Running ->
  exists g,
    log (fst (_run orc env mode self fuel s)) = Some g /\
    replay_log orc (learner s) g
    = (learner (fst (_run orc env mode self fuel s)), None).
Proof.
  intros Hlog Hrun. unfold _run in *.
  set (s1 := set_done (set_xs s []) (repeat None (Z.to_nat (ntasks self))))
    in *.
  destruct (Nat.eqb (List.length (done s1)) 0); [discriminate|].
  assert (W1 : distinct_keys s1) by (split; constructor).
  destruct (while_loop_related orc env mode self fuel W1) as [evs [R _]].
  destruct (while_loop orc env mode self fuel s1) as [s' [|e|]];
    [ destruct (finally_block orc env mode self s') as [? [|]]; discriminate
    | destruct (finally_block orc env mode self s') as [? [|]]; discriminate
    | ].
  simpl in *. destruct R as [_ F _ _ Hl Hg].
  change (learner s1) with (learner s) in Hl.
  change (log s1) with (log s) in Hg.
  exists (logged evs). rewrite Hg, Hlog, Hl. split; [reflexivity|].
  apply replay_logged. exact F.
Qed.
End MoreReplay.

(** A run in progress with logging on. *)
Lemma log_replays_in_progress_witness :
  let self := Example.two_tasks (Example.enough 3) in
  let s := set_log Example.start (Some []) in
  let r := _run Example.counting Example.one_by_one Blocking self 2 s in
  log s = Some [] /\
  snd r = Running /\
  exists g,
    log (fst r) = Some g /\
    replay_log Example.counting (learner s) g = (learner (fst r), None).
Proof.
  intros self s r. split; [reflexivity|]. split; [reflexivity|].
  apply (@log_replays_in_progress _ _ _ Example.counting Example.one_by_one
           Blocking self 2 s); reflexivity.
Defined.

(** A finished run of the blocking loop. *)
Lemma replay_of_all_calls_witness :
  let self := Example.two_tasks (Example.enough 3) in
  let r := _run Example.counting Example.one_by_one Blocking self 10
                Example.start in
  (0 < ntasks self)%Z /\
  snd r <> Running /\
  exists evs,
    trace (fst r) = trace Example.start ++ evs /\
    replay_log Example.counting (learner Example.start) (learner_calls evs)
    = (learner (fst r), None).
Proof.
  intros self r. split; [reflexivity|]. split; [vm_compute; discriminate|].
  apply (@replay_of_all_calls _ _ _ Example.counting Example.one_by_one
           Blocking self 10 Example.start);
    [reflexivity | vm_compute; discriminate].
Defined.

(** A blocking runner over a thread pool, asked for minus one task. *)
Lemma negative_ntasks_has_no_workers_witness :
  let ex := mk_pyobject ThreadPoolExecutor true 8 in
  let a := mk_init_args (Some ex) (Some (-1)%Z) false false in
  let r := BlockingRunner_init Example.machine Example.counting
             Example.one_by_one false (Example.enough 1) a 10 Example.start in
  arg_ntasks a = Some (-1)%Z /\
  (-1 < 0)%Z /\
  _ensure_executor (with_ipyparallel Example.machine)
    (with_distributed Example.machine) (cpu_count Example.machine)
    (arg_executor a) = Returns ex /\
  snd r = Failed (RuntimeError "Executor has no workers") /\
  learner (fst r) = learner Example.start /\
  trace (fst r) = trace Example.start ++ pool_events (arg_executor a).
Proof.
  intros ex a r. split; [reflexivity|]. split; [reflexivity|].
  split; [reflexivity|].
  apply (@negative_ntasks_has_no_workers _ _ _ Example.machine
           Example.counting Example.one_by_one (Example.enough 1) a 10
           Example.start (-1)%Z ex); reflexivity.
Defined.

(* ================================================================== *)
(** ** Further properties: the log is only a record *)

Section LogBlind.
Variables L X Y : Type.
Variable orc : oracle L X Y.
Variable env : environment X Y.
Variable mode : strategy.
Variable self : runner L.

Lemma log_blind_ret A (a : A) : log_blind (@ret L X Y A a).
Proof. intros s. reflexivity. Qed.

Lemma log_blind_bind A B (m : M L X Y A) (k : A -> M L X Y B) :
  log_blind m -> (forall a, log_blind (k a)) -> log_blind (bind m k).
Proof.
  intros Hm Hk s. unfold bind. rewrite Hm.
  destruct (m s) as [s1 [a|e]]; simpl; [apply Hk | reflexivity].
Qed.

Lemma log_blind_for A (f : A -> M L X Y unit) l :
  (forall a, log_blind (f a)) -> log_blind (for_ l f).
Proof.
  intros H. induction l as [|a l IH]; simpl.
  - apply log_blind_ret.
  - apply log_blind_bind; auto.
Qed.

Lemma log_blind_choose n : log_blind (logged_choose_points orc n).
Proof.
  intros s. unfold logged_choose_points, bind, log_append, call_choose_points.
  simpl. destruct (choose_points orc n (learner s)); reflexivity.
Qed.

Lemma log_blind_submit x : log_blind (submit_into_xs env self x).
Proof.
  intros s. unfold submit_into_xs, bind, call_submit, xs_set. simpl.
  destruct (submit_raises env (nfut s) x); reflexivity.
Qed.

Lemma log_blind_wait futures :
  log_blind (wait_first_completed (L:=L) env mode futures).
Proof.
  intros s. unfold wait_first_completed.
  destruct futures; [destruct mode; reflexivity|]. simpl.
  destruct mode; [reflexivity|]. destruct (thrown_at env (nwait s)); reflexivity.
Qed.

Lemma log_blind_absorb fut : log_blind (absorb orc env fut).
Proof.
  intros s. unfold absorb, bind, xs_pop. simpl.
  destruct (dict_pop fut (xs s)) as [[x d]|]; [|reflexivity].
  unfold call_result. simpl.
  destruct (future_outcome env fut x); reflexivity.
Qed.

Lemma log_blind_loop_body : log_blind (loop_body orc env mode self).
Proof.
  unfold loop_body.
  apply log_blind_bind; [intros s; reflexivity | intros n].
  apply log_blind_bind; [apply log_blind_choose | intros points].
  apply log_blind_bind; [apply log_blind_for, log_blind_submit | intros ?].
  apply log_blind_bind; [intros s; reflexivity | intros futures].
  apply log_blind_bind; [apply log_blind_wait | intros d].
  apply log_blind_bind; [intros s; reflexivity | intros ?].
  apply log_blind_for, log_blind_absorb.
Qed.

Lemma log_blind_finally : log_blind (finally_block orc env mode self).
Proof.
  unfold finally_block.
  apply log_blind_bind; [intros s; reflexivity | intros ?].
  apply log_blind_bind; [intros s; reflexivity | intros remaining].
  apply log_blind_bind.
  - destruct remaining as [|f fs]; [apply log_blind_ret|].
    apply log_blind_bind.
    + apply log_blind_for. intros fut s. reflexivity.
    + intros ? s. unfold wait_all. simpl.
      destruct mode; [reflexivity|].
      destruct (thrown_at env (nwait s)); reflexivity.
  - intros ?. destruct (shutdown_executor self);
      [intros s; reflexivity | apply log_blind_ret].
Qed.

Lemma log_blind_while fuel : forall s : state L X Y,
  while_loop orc env mode self fuel (without_log s)
  = (without_log (fst (while_loop orc env mode self fuel s)),
     snd (while_loop orc env mode self fuel s)).
Proof.
  induction fuel as [|fuel IH]; intros s; simpl; [reflexivity|].
  destruct (goal self (learner s)); [reflexivity|].
  rewrite log_blind_loop_body.
  destruct (loop_body orc env mode self s) as [s1 [[]|e]]; simpl;
    [apply IH | reflexivity].
Qed.

(** X8.  The log is only a record: a run without a log does to the
    learner, the futures and the pool exactly what the same run does with
    one (same trace, same learner, same way of ending), and its log stays
    [None]. *)
Theorem logging_changes_nothing_else fuel (s : state L X Y) :
  _run orc env mode self fuel (without_log s)
  = (without_log (fst (_run orc env mode self fuel s)),
     snd (_run orc env mode self fuel s)).
Proof.
  unfold _run.
  change (set_done (set_xs (without_log s) [])
            (repeat None (Z.to_nat (ntasks self))))
    with (without_log (set_done (set_xs s [])
            (repeat None (Z.to_nat (ntasks self))))).
  set (s1 := set_done (set_xs s []) (repeat None (Z.to_nat (ntasks self)))).
  change (done (without_log s1)) with (done s1).
  destruct (Nat.eqb (List.length (done s1)) 0); [reflexivity|].
  rewrite log_blind_while.
  destruct (while_loop orc env mode self fuel s1) as [s' [|e|]]; simpl;
    try reflexivity;
    rewrite log_blind_finally;
    destruct (finally_block orc env mode self s') as [s'' [[]|e']];
    reflexivity.
Qed.
End LogBlind.

(* ================================================================== *)
(** ** Further properties: what becomes of a future *)

Section BlockFacts.
Variables L X Y : Type.
Variable orc : oracle L X Y.
Variable env : environment X Y.
Variable mode : strategy.
Variable self : runner L.

Local Abbreviation blocks' := (blocks env (_submit self)).
Local Abbreviation in_blocks' := (@in_blocks L X Y env (_submit self)).

Lemma submitted_app (e1 e2 : list (event X Y)) :
  submitted (e1 ++ e2) = submitted e1 ++ submitted e2.
Proof. apply flat_map_app. Qed.

Lemma popped_app (e1 e2 : list (event X Y)) :
  popped (e1 ++ e2) = popped e1 ++ popped e2.
Proof. apply flat_map_app. Qed.

Lemma cancelled_app (e1 e2 : list (event X Y)) :
  cancelled (e1 ++ e2) = cancelled e1 ++ cancelled e2.
Proof. apply flat_map_app. Qed.

Lemma dict_after_app (d : list (nat * X)) (e1 e2 : list (event X Y)) :
  dict_after (dict_after d e1) e2 = dict_after d (e1 ++ e2).
Proof. unfold dict_after. symmetry. apply fold_left_app. Qed.

Lemma blocks_app d k (e1 e2 : list (event X Y)) :
  blocks' d k e1 ->
  blocks' (dict_after d e1) (k + List.length (submitted e1)) e2 ->
  blocks' d k (e1 ++ e2).
Proof.
  intros H1. induction H1 as [d k | d k b evs Hb _ IH]; intros H2.
  - simpl in H2. rewrite Nat.add_0_r in H2. exact H2.
  - rewrite <- app_assoc. constructor; [exact Hb|]. apply IH.
    rewrite dict_after_app.
    rewrite submitted_app, length_app, Nat.add_assoc in H2. exact H2.
Qed.

Lemma blocks_one d k (b : list (event X Y)) :
  block env (_submit self) d k b -> blocks' d k b.
Proof.
  intros H. rewrite <- (app_nil_r b). constructor; [exact H | constructor].
Qed.

Lemma dict_pop_remove fut (d : list (nat * X)) x d' :
  dict_pop fut d = Some (x, d') -> dict_remove fut d = d'.
Proof.
  revert x d'. induction d as [|[k y] d IH]; simpl; intros x d' H.
  - discriminate.
  - destruct (Nat.eqb k fut).
    + inversion H; subst. reflexivity.
    + destruct (dict_pop fut d) as [[z d'']|]; [|discriminate].
      inversion H; subst. f_equal. eapply IH. reflexivity.
Qed.

Lemma in_blocks_ret A (a : A) s : in_blocks' (ret a) s.
Proof.
  exists []. simpl. rewrite app_nil_r, Nat.add_0_r.
  repeat split; constructor.
Qed.

Lemma in_blocks_bind A B (m : M L X Y A) (k : A -> M L X Y B) s :
  in_blocks' m s ->
  (forall a s', m s = (s', Returns a) -> in_blocks' (k a) s') ->
  in_blocks' (bind m k) s.
Proof.
  intros [e1 [T1 [D1 [N1 B1]]]] Hk. unfold in_blocks, bind in *.
  destruct (m s) as [s1 [a|e]] eqn:Em; simpl in *.
  - destruct (Hk a s1 eq_refl) as [e2 [T2 [D2 [N2 B2]]]].
    exists (e1 ++ e2). rewrite T2, T1, D2, D1, N2, N1.
    rewrite app_assoc, dict_after_app, submitted_app, length_app, Nat.add_assoc.
    repeat split. apply blocks_app; [exact B1|].
    rewrite <- D1, <- N1. exact B2.
  - exists e1. auto.
Qed.

Lemma in_blocks_for A (f : A -> M L X Y unit) l :
  (forall a s, in_blocks' (f a) s) -> forall s, in_blocks' (for_ l f) s.
Proof.
  intros H. induction l as [|a l IH]; intros s; simpl.
  - apply in_blocks_ret.
  - apply in_blocks_bind; auto.
Qed.

Lemma in_blocks_silent A (m : M L X Y A) s :
  trace (fst (m s)) = trace s -> xs (fst (m s)) = xs s ->
  nfut (fst (m s)) = nfut s -> in_blocks' m s.
Proof.
  intros T D N. exists []. simpl. rewrite app_nil_r, Nat.add_0_r.
  repeat split; auto. constructor.
Qed.

Lemma in_blocks_choose n s : in_blocks' (logged_choose_points orc n) s.
Proof.
  unfold logged_choose_points, bind, log_append, call_choose_points. simpl.
  destruct (choose_points orc n (learner s)) as [pts l'] eqn:Ec.
  exists [EvChoosePoints n]. simpl. rewrite Ec. simpl.
  rewrite Nat.add_0_r. repeat split. apply blocks_one. constructor.
Qed.

Lemma in_blocks_submit x s : in_blocks' (submit_into_xs env self x) s.
Proof.
  unfold submit_into_xs, bind, call_submit, xs_set.
  destruct (submit_raises env (nfut s) x) as [e|] eqn:Es.
  - exists [EvSubmit (_submit self) x (Raises e)]. simpl.
    rewrite Es. simpl. rewrite Nat.add_0_r. repeat split.
    apply blocks_one. constructor. exact Es.
  - exists [EvSubmit (_submit self) x (Returns (nfut s))]. simpl.
    rewrite Es. simpl. rewrite Nat.add_1_r. repeat split.
    apply blocks_one. constructor. exact Es.
Qed.

Lemma in_blocks_wait s :
  in_blocks' (wait_first_completed env mode (keys (xs s))) s.
Proof.
  unfold wait_first_completed.
  destruct (keys (xs s)) as [|f fs] eqn:Ek.
  - destruct mode; eexists [EvWait [] _]; simpl; rewrite Nat.add_0_r;
      repeat split; apply blocks_one; rewrite <- Ek; constructor.
  - eexists [EvWait (f :: fs) _]. simpl. rewrite Nat.add_0_r.
    repeat split. apply blocks_one. rewrite <- Ek. constructor.
Qed.

Lemma in_blocks_absorb fut s : in_blocks' (absorb orc env fut) s.
Proof.
  unfold in_blocks, absorb, bind, xs_pop.
  destruct (dict_pop fut (xs s)) as [[x d]|] eqn:Ep; simpl.
  - pose proof (dict_pop_remove _ _ Ep) as Hd.
    unfold call_result. simpl.
    destruct (future_outcome env fut x) as [y|e] eqn:Er; simpl.
    + unfold logged_add_point, bind, log_append, call_add_point. simpl.
      exists [EvPop fut x; EvResult fut (Returns y); EvAddPoint x y]. simpl.
      rewrite Hd, Nat.add_0_r, <- !app_assoc. simpl. repeat split.
      apply blocks_one. econstructor; eauto.
    + exists [EvPop fut x; EvResult fut (Raises e)]. simpl.
      rewrite Hd, Nat.add_0_r, <- !app_assoc. simpl. repeat split.
      apply blocks_one. econstructor; eauto.
  - exists []. simpl. rewrite app_nil_r, Nat.add_0_r.
    repeat split. constructor.
Qed.

Lemma in_blocks_loop_body s : in_blocks' (loop_body orc env mode self) s.
Proof.
  unfold loop_body.
  apply in_blocks_bind; [apply in_blocks_silent; reflexivity|].
  intros n s1 _.
  apply in_blocks_bind; [apply in_blocks_choose|]. intros points s2 _.
  apply in_blocks_bind;
    [apply in_blocks_for; intros; apply in_blocks_submit|].
  intros ? s3 _.
  apply in_blocks_bind; [apply in_blocks_silent; reflexivity|].
  intros futures s4 H4. inversion H4; subst.
  apply in_blocks_bind; [apply in_blocks_wait|]. intros d s5 _.
  apply in_blocks_bind; [apply in_blocks_silent; reflexivity|].
  intros ? s6 _.
  apply in_blocks_for. intros; apply in_blocks_absorb.
Qed.

Lemma while_loop_blocks fuel : forall s : state L X Y,
  exists evs,
    trace (fst (while_loop orc env mode self fuel s)) = trace s ++ evs /\
    xs (fst (while_loop orc env mode self fuel s)) = dict_after (xs s) evs /\
    blocks' (xs s) (nfut s) evs.
Proof.
  induction fuel as [|fuel IH]; intros s; simpl.
  - exists []. simpl. rewrite app_nil_r. repeat split. constructor.
  - destruct (goal self (learner s)); simpl.
    + exists []. simpl. rewrite app_nil_r. repeat split. constructor.
    + destruct (in_blocks_loop_body s) as [e1 [T1 [D1 [N1 B1]]]].
      destruct (loop_body orc env mode self s) as [s1 [[]|e]]; simpl in *.
      * destruct (IH s1) as [e2 [T2 [D2 B2]]]. exists (e1 ++ e2).
        rewrite T2, T1, D2, D1, app_assoc, dict_after_app.
        repeat split. apply blocks_app; [exact B1|].
        rewrite <- D1, <- N1. exact B2.
      * exists e1. auto.
Qed.

(** A run that has left [_run] after entering the loop: blocks, then the
    cancellation of what the blocks left in the map. *)
Lemma run_blocks fuel (s : state L X Y) :
  (0 < ntasks self)%Z ->
  snd (_run orc env mode self fuel s) <> Running ->
  exists evs tds,
    trace (fst (_run orc env mode self fuel s)) = trace s ++ evs ++ tds /\
    blocks' [] (nfut s) evs /\
    Forall (fun ev => teardown_event ev = true) tds /\
    cancelled tds = keys (dict_after [] evs).
Proof.
  intros Hn. unfold _run.
  set (s1 := set_done (set_xs s []) (repeat None (Z.to_nat (ntasks self)))).
  assert (Hlen : Nat.eqb (List.length (done s1)) 0 = false).
  { apply Nat.eqb_neq. unfold s1; simpl. rewrite repeat_length. lia. }
  rewrite Hlen.
  destruct (while_loop_blocks fuel s1) as [evs [T [D B]]].
  change (trace s1) with (trace s) in T. change (xs s1) with (@nil (nat * X)) in D, B.
  change (nfut s1) with (nfut s) in B.
  assert (Hcancel : forall (l : list nat) (rest : list (event X Y)),
             cancelled rest = [] ->
             cancelled (map EvCancel l ++ rest) = l).
  { intros l rest Hrest. unfold cancelled in *.
    rewrite flat_map_app, Hrest, app_nil_r.
    induction l as [|f l IH]; simpl; [reflexivity | f_equal; exact IH]. }
  pose proof (finally_block_spec orc env mode self
                (fst (while_loop orc env mode self fuel s1))) as Hf.
  cbv zeta in Hf.
  destruct (while_loop orc env mode self fuel s1) as [s' c]. simpl in *.
  assert (Hcase :
    exists tds : list (event X Y),
      trace (fst (finally_block orc env mode self s')) = trace s ++ evs ++ tds /\
      Forall (fun ev => teardown_event ev = true) tds /\
      cancelled tds = keys (dict_after [] evs)).
  { destruct Hf as [_ [_ [[_ Ht] | [_ [_ [e [_ Ht]]]]]]];
      rewrite Ht, T, <- app_assoc; eexists; (split; [reflexivity|]); rewrite D.
    - split; [apply teardown_events_only|]. unfold teardown.
      destruct (keys (dict_after [] evs)) as [|f l] eqn:Ek.
      + destruct (shutdown_executor self); reflexivity.
      + rewrite <- app_assoc.
        change (cancelled (EvRemoveUnfinished :: ?t)) with (cancelled t).
        apply Hcancel. destruct (shutdown_executor self); reflexivity.
    - split; [apply teardown_cut_events_only|]. unfold teardown_cut.
      change (cancelled (EvRemoveUnfinished :: ?t)) with (cancelled t).
      apply Hcancel. reflexivity. }
  destruct Hcase as [tds [Ht [Ftd Hc]]].
  destruct c as [|e|]; [| |intros H; exfalso; apply H; reflexivity];
    intros _; exists evs, tds;
    destruct (finally_block orc env mode self s') as [s'' [[]|e']];
    simpl in *; auto.
Qed.
End BlockFacts.

Section Accounting.
Variables L X Y : Type.
Variable orc : oracle L X Y.
Variable env : environment X Y.
Variable mode : strategy.
Variable self : runner L.

Local Abbreviation blocks' := (blocks env (_submit self)).

Lemma dict_remove_incl fut (d : list (nat * X)) p :
  In p (dict_remove fut d) -> In p d.
Proof.
  induction d as [|[k x] d IH]; simpl; [tauto|].
  destruct (Nat.eqb k fut); simpl; tauto.
Qed.

Lemma dict_after_in (evs : list (event X Y)) : forall d p,
  In p (dict_after d evs) -> In p d \/ In p (submitted evs).
Proof.
  induction evs as [|ev evs IH]; intros d p H; [left; exact H|].
  unfold dict_after in *. simpl in H. apply IH in H.
  unfold submitted. simpl. destruct H as [H|H].
  - destruct ev as [| | |via x [fut|e]| |fut x| | | | | |]; simpl in *; auto.
    + apply in_app_or in H. destruct H as [H|[H|[]]]; auto.
    + left. eapply dict_remove_incl; eauto.
  - right. apply in_or_app. right. exact H.
Qed.

Lemma dict_pop_in fut (d : list (nat * X)) x d' :
  dict_pop fut d = Some (x, d') -> In (fut, x) d.
Proof.
  revert x d'. induction d as [|[k y] d IH]; simpl; intros x d' H.
  - discriminate.
  - destruct (Nat.eqb k fut) eqn:E.
    + apply Nat.eqb_eq in E. inversion H; subst. auto.
    + destruct (dict_pop fut d) as [[z d'']|]; [|discriminate].
      inversion H; subst. right. eapply IH. reflexivity.
Qed.

Lemma dict_pop_perm fut (d : list (nat * X)) x d' :
  dict_pop fut d = Some (x, d') -> Permutation (keys d) (fut :: keys d').
Proof.
  revert x d'. induction d as [|[k y] d IH]; simpl; intros x d' H.
  - discriminate.
  - destruct (Nat.eqb k fut) eqn:E.
    + apply Nat.eqb_eq in E. inversion H; subst. reflexivity.
    + destruct (dict_pop fut d) as [[z d'']|]; [|discriminate].
      inversion H; subst. simpl.
      rewrite (IH _ _ eq_refl). apply perm_swap.
Qed.

(** Where an [add_point] stands in a trace of blocks. *)
Lemma blocks_add_point d k (evs : list (event X Y)) :
  blocks' d k evs ->
  forall pre x y post,
    evs = pre ++ EvAddPoint x y :: post ->
    exists fut pre',
      pre = pre' ++ [EvPop fut x; EvResult fut (Returns y)] /\
      (In (fut, x) d \/ In (fut, x) (submitted pre')) /\
      future_outcome env fut x = Returns y.
Proof.
  induction 1 as [d k | d k b evs Hb _ IH]; intros pre x y post E.
  - destruct pre; discriminate.
  - apply app_eq_app in E. destruct E as [l [[Eb El] | [Ep El]]].
    + destruct l as [|a l].
      * simpl in El. rewrite app_nil_r in Eb. subst b.
        destruct (IH [] x y post (eq_sym El)) as [fut [pre' [E' _]]].
        destruct pre'; discriminate.
      * inversion El; subst a. clear El.
        destruct Hb as [n | x0 Hs | x0 e Hs | r | fut x0 d' y0 Hp Hr
                       | fut x0 d' e Hp Hr];
          destruct pre as [|e1 [|e2 [|e3 [|e4 pre]]]]; simpl in Eb;
          try discriminate Eb.
        inversion Eb; subst. exists fut, []. simpl.
        split; [reflexivity|]. split; [|exact Hr].
        left. eapply dict_pop_in; eauto.
    + subst pre. destruct (IH l x y post El) as [fut [pre' [-> [Hin Hr]]]].
      exists fut, (b ++ pre'). rewrite app_assoc.
      split; [reflexivity|]. split; [|exact Hr].
      unfold submitted. rewrite flat_map_app. fold (submitted b).
      fold (submitted pre').
      destruct Hin as [Hin|Hin].
      * apply dict_after_in in Hin. destruct Hin as [Hin|Hin]; auto.
        right. apply in_or_app. auto.
      * right. apply in_or_app. auto.
Qed.

Lemma blocks_fresh d k (evs : list (event X Y)) :
  blocks' d k evs ->
  map fst (submitted evs) = seq k (List.length (submitted evs)).
Proof.
  induction 1 as [d k | d k b evs Hb _ IH]; [reflexivity|].
  unfold submitted in *. rewrite flat_map_app, map_app, length_app, seq_app.
  rewrite IH. f_equal.
  destruct Hb; reflexivity.
Qed.

Lemma blocks_account d k (evs : list (event X Y)) :
  blocks' d k evs ->
  Permutation (keys d ++ map fst (submitted evs))
              (popped evs ++ keys (dict_after d evs)).
Proof.
  induction 1 as [d k | d k b evs Hb _ IH].
  - simpl. rewrite app_nil_r. reflexivity.
  - unfold submitted, popped in *.
    rewrite !flat_map_app, map_app, <- dict_after_app.
    fold (submitted b) in *. fold (popped b) in *.
    rewrite <- app_assoc, <- IH, !app_assoc.
    apply Permutation_app_tail.
    destruct Hb as [n | x0 Hs | x0 e Hs | r | fut x0 d' y0 Hp Hr
                   | fut x0 d' e Hp Hr]; simpl;
      rewrite ?app_nil_r; try reflexivity.
    + unfold keys. rewrite map_app. reflexivity.
    + rewrite (dict_pop_remove _ _ Hp). apply (dict_pop_perm _ _ Hp).
    + rewrite (dict_pop_remove _ _ Hp). apply (dict_pop_perm _ _ Hp).
Qed.

Lemma blocks_no_cancel d k (evs : list (event X Y)) :
  blocks' d k evs -> cancelled evs = [].
Proof.
  induction 1 as [d k | d k b evs Hb _ IH]; [reflexivity|].
  unfold cancelled in *. rewrite flat_map_app, IH, app_nil_r.
  destruct Hb; reflexivity.
Qed.

Lemma teardown_no_submit_no_pop (tds : list (event X Y)) :
  Forall (fun ev => teardown_event ev = true) tds ->
  submitted tds = [] /\ popped tds = [].
Proof.
  unfold submitted, popped.
  induction 1 as [|ev tds Hev _ [IH1 IH2]]; [auto|]. simpl.
  rewrite IH1, IH2. destruct ev; simpl in *; try discriminate; auto.
Qed.

(** The events of a run, whatever became of it: blocks, then teardown
    events. *)
Lemma run_shape fuel (s : state L X Y) :
  exists evs tds,
    trace (fst (_run orc env mode self fuel s)) = trace s ++ evs ++ tds /\
    blocks' [] (nfut s) evs /\
    Forall (fun ev => teardown_event ev = true) tds.
Proof.
  destruct (Z_lt_le_dec 0 (ntasks self)) as [Hn|Hn].
  - destruct (snd (_run orc env mode self fuel s)) eqn:Hr.
    + destruct (run_blocks orc env mode self fuel s Hn)
        as [evs [tds [T [B [F _]]]]]; [rewrite Hr; discriminate|]. eauto.
    + destruct (run_blocks orc env mode self fuel s Hn)
        as [evs [tds [T [B [F _]]]]]; [rewrite Hr; discriminate|]. eauto.
    + unfold _run in *.
      set (s1 := set_done (set_xs s []) (repeat None (Z.to_nat (ntasks self))))
        in *.
      destruct (Nat.eqb (List.length (done s1)) 0); [discriminate|].
      destruct (while_loop_blocks orc env mode self fuel s1) as [evs [T [_ B]]].
      destruct (while_loop orc env mode self fuel s1) as [s' [|e|]];
        [ destruct (finally_block orc env mode self s') as [? [|]]; discriminate
        | destruct (finally_block orc env mode self s') as [? [|]]; discriminate
        | ].
      exists evs, []. simpl in *. rewrite app_nil_r. repeat split; auto.
  - exists [], []. unfold _run. simpl. rewrite repeat_length.
    replace (Z.to_nat (ntasks self)) with 0 by lia. simpl.
    rewrite app_nil_r. repeat split; constructor.
Qed.

Lemma submitted_in (evs : list (event X Y)) fut x :
  In (fut, x) (submitted evs) ->
  exists via', In (EvSubmit via' x (Returns fut)) evs.
Proof.
  unfold submitted. intros H. apply in_flat_map in H.
  destruct H as [ev [Hin Hev]].
  destruct ev as [| | |via' x' [f|e]| | | | | | | |]; simpl in Hev;
    try contradiction.
  destruct Hev as [E|[]]. inversion E; subst. eauto.
Qed.

Lemma blocks_submit_via d k (evs : list (event X Y)) :
  blocks' d k evs ->
  forall via' x r, In (EvSubmit via' x r) evs -> via' = _submit self.
Proof.
  induction 1 as [d k | d k b evs Hb _ IH]; intros via' x r Hin;
    [destruct Hin|].
  apply in_app_or in Hin. destruct Hin as [Hin|Hin]; [|eauto].
  destruct Hb; simpl in Hin;
    repeat (destruct Hin as [Hin|Hin]; try discriminate Hin);
    try contradiction; inversion Hin; reflexivity.
Qed.

(** X9.  Every pair handed to the learner is an input and the result of
    the work submitted for that input: each [add_point(x, y)] of a run
    comes right after the pop of a future, with [x], and the retrieval of
    its result [y], and that future was returned earlier in the run by
    the submission of [x]. *)
Theorem add_point_pairs_input_with_its_result fuel (s : state L X Y)
    pre x y post :
  trace (fst (_run orc env mode self fuel s))
  = trace s ++ pre ++ EvAddPoint x y :: post ->
  exists fut pre',
    pre = pre' ++ [EvPop fut x; EvResult fut (Returns y)] /\
    In (EvSubmit (_submit self) x (Returns fut)) pre' /\
    future_outcome env fut x = Returns y.
Proof.
  intros Ht.
  destruct (run_shape fuel s) as [evs [tds [T [B F]]]].
  rewrite Ht in T. apply app_inv_head in T.
  apply app_eq_app in T. destruct T as [l [[Ep El] | [Ee El]]].
  - exfalso. subst tds. apply Forall_app in F. destruct F as [_ F].
    inversion F; subst. discriminate.
  - destruct l as [|a l].
    + exfalso. simpl in El. subst tds. inversion F; subst. discriminate.
    + inversion El; subst a.
      destruct (blocks_add_point B _ _ _ _ Ee)
        as [fut [pre' [-> [[[]|Hin] Hr]]]].
      exists fut, pre'. split; [reflexivity|]. split; [|exact Hr].
      destruct (submitted_in _ _ _ Hin) as [via' Hv].
      rewrite (blocks_submit_via B via' x (Returns fut)) in Hv; [exact Hv|].
      rewrite Ee. apply in_or_app. left. apply in_or_app. left. exact Hv.
Qed.
(** X10.  No future is lost, and none is handled twice: once a run has
    left [_run], the futures its submissions returned are distinct, and
    they are, one for one, the futures popped from the map in the loop
    and the futures cancelled in the [finally] block. *)
Theorem every_future_is_popped_or_cancelled fuel (s : state L X Y) :
  snd (_run orc env mode self fuel s) <> Running ->
  exists evs,
    trace (fst (_run orc env mode self fuel s)) = trace s ++ evs /\
    NoDup (map fst (submitted evs)) /\
    Permutation (map fst (submitted evs)) (popped evs ++ cancelled evs).
Proof.
  intros Hr.
  destruct (Z_lt_le_dec 0 (ntasks self)) as [Hn|Hn].
  - destruct (run_blocks orc env mode self fuel s Hn Hr)
      as [evs [tds [T [B [F C]]]]].
    exists (evs ++ tds). split; [exact T|].
    destruct (teardown_no_submit_no_pop F) as [S0 P0].
    pose proof (blocks_no_cancel B) as C0.
    pose proof (blocks_account B) as A. simpl in A.
    assert (Es : submitted (evs ++ tds) = submitted evs).
    { unfold submitted in *. rewrite flat_map_app, S0, app_nil_r. reflexivity. }
    assert (Ep : popped (evs ++ tds) = popped evs).
    { unfold popped in *. rewrite flat_map_app, P0, app_nil_r. reflexivity. }
    assert (Ec : cancelled (evs ++ tds) = keys (dict_after [] evs)).
    { unfold cancelled in *. rewrite flat_map_app, C0, C. reflexivity. }
    rewrite Es, Ep, Ec. split; [|exact A].
    rewrite (blocks_fresh B). apply seq_NoDup.
  - exists []. unfold _run. simpl. rewrite repeat_length.
    replace (Z.to_nat (ntasks self)) with 0 by lia. simpl.
    rewrite app_nil_r. repeat split; constructor.
Qed.
End Accounting.

(* ================================================================== *)
(** ** Further properties: the futures in flight *)

Section InFlightFacts.
Variables L X Y : Type.
Variable orc : oracle L X Y.
Variable env : environment X Y.
Variable mode : strategy.
Variable self : runner L.
Variable t0 : list (event X Y).
Variable N : nat.
Hypothesis Hfrugal : frugal orc.

Local Abbreviation FI := (in_flight_inv (L:=L) t0 N).

Lemma within_nil : within N (@nil (event X Y)).
Proof.
  intros pre post E. destruct pre; [simpl; lia | discriminate].
Qed.

Lemma within_snoc (evs : list (event X Y)) ev :
  within N evs -> List.length (outstanding (evs ++ [ev])) <= N ->
  within N (evs ++ [ev]).
Proof.
  intros W H pre post E.
  destruct post as [|p post0].
  - rewrite app_nil_r in E. subst pre. exact H.
  - destruct (exists_last (l:=p :: post0)) as [post' [x Ex]]; [discriminate|].
    rewrite Ex, app_assoc in E. apply app_inj_tail in E.
    destruct E as [E _]. eapply W; eauto.
Qed.

Lemma FI_step k k' d (s s' : state L X Y) ev :
  FI k d s ->
  trace s' = trace s ++ [ev] ->
  keys (xs s') = outstanding_step (keys (xs s)) ev ->
  done s' = done s ->
  List.length (xs s') + k' <= N ->
  FI k' d s'.
Proof.
  intros [evs [T [K [W [_ D]]]]] T' K' D' Hk. exists (evs ++ [ev]).
  assert (Ho : keys (xs s') = outstanding (evs ++ [ev])).
  { rewrite K', K. unfold outstanding, outstanding_from.
    rewrite fold_left_app. reflexivity. }
  split; [rewrite T', T, app_assoc; reflexivity|].
  split; [exact Ho|].
  split; [|split; [exact Hk | congruence]].
  apply within_snoc; [exact W|].
  rewrite <- Ho, keys_length. lia.
Qed.

Lemma FI_silent k k' d d' (s s' : state L X Y) :
  FI k d s -> trace s' = trace s -> xs s' = xs s -> done s' = d' ->
  k' <= k -> FI k' d' s'.
Proof.
  intros [evs [T [K [W [Hk D]]]]] T' K' D' Hle. exists evs.
  rewrite T', K'. repeat split; auto. lia.
Qed.

Lemma FI_weaken k k' d (s : state L X Y) :
  FI k d s -> k' <= k -> FI k' d s.
Proof.
  intros [evs [T [K [W [Hk D]]]]] Hle. exists evs. repeat split; auto. lia.
Qed.

Lemma triple_in_flight_choose n k d :
  triple (FI k d) (logged_choose_points orc n)
    (fun points s => FI k d s /\ List.length points <= n)
    (fun _ => FI 0 d).
Proof.
  intros s H. unfold logged_choose_points, bind, log_append,
    call_choose_points. simpl.
  pose proof (Hfrugal n (learner s)) as Hl.
  destruct (choose_points orc n (learner s)) as [pts l'] eqn:Ec.
  split; [|exact Hl].
  eapply FI_step; [exact H | reflexivity | reflexivity | reflexivity |].
  destruct H as [evs [_ [_ [_ [Hk _]]]]]. exact Hk.
Qed.

Lemma triple_in_flight_submit x k d :
  triple (FI (S k) d) (submit_into_xs env self x)
    (fun _ => FI k d) (fun _ => FI 0 d).
Proof.
  intros s H. unfold submit_into_xs, bind, call_submit, xs_set.
  assert (Hk : List.length (xs s) + S k <= N)
    by (destruct H as [evs [_ [_ [_ [Hk _]]]]]; exact Hk).
  destruct (submit_raises env (nfut s) x) as [e|]; simpl.
  - eapply FI_step; [exact H | reflexivity | reflexivity | reflexivity |].
    simpl. lia.
  - eapply FI_step; [exact H | reflexivity | | reflexivity |].
    + simpl. unfold keys. rewrite map_app. reflexivity.
    + simpl. rewrite length_app. simpl. lia.
Qed.

Lemma triple_in_flight_wait futures d :
  triple (FI 0 d) (wait_first_completed env mode futures)
    (fun _ => FI 0 d) (fun _ => FI 0 d).
Proof.
  intros s H. unfold wait_first_completed.
  assert (Hk : List.length (xs s) + 0 <= N)
    by (destruct H as [evs [_ [_ [_ [Hk _]]]]]; exact Hk).
  destruct futures as [|f fs].
  - destruct mode; simpl;
      (eapply FI_step; [exact H | reflexivity | reflexivity | reflexivity
                       | exact Hk]).
  - simpl.
    destruct (match mode with
              | Blocking => Returns (resolved_at env (nwait s) (f :: fs))
              | Async =>
                  match thrown_at env (nwait s) with
                  | Some e => Raises e
                  | None => Returns (resolved_at env (nwait s) (f :: fs))
                  end
              end) as [d'|e] eqn:Ew;
      (eapply FI_step; [exact H | reflexivity | reflexivity | reflexivity
                       | exact Hk]).
Qed.

Lemma triple_in_flight_absorb fut k d :
  triple (FI k d) (absorb orc env fut)
    (fun _ => FI (S k) d) (fun _ => FI 0 d).
Proof.
  intros s H. unfold absorb, bind, xs_pop.
  assert (Hk : List.length (xs s) + k <= N)
    by (destruct H as [evs [_ [_ [_ [Hk _]]]]]; exact Hk).
  destruct (dict_pop fut (xs s)) as [[x xs']|] eqn:Ep; simpl.
  - pose proof (dict_pop_keys _ _ Ep) as Hkeys.
    pose proof (dict_pop_length _ _ Ep) as Hlen.
    assert (H1 : FI (S k) d (set_trace (set_xs s xs') (trace s ++ [EvPop fut x]))).
    { eapply FI_step; [exact H | reflexivity | exact Hkeys | reflexivity |].
      simpl. lia. }
    unfold call_result. simpl.
    assert (H2 : forall r,
      FI (S k) d (set_trace (set_trace (set_xs s xs') (trace s ++ [EvPop fut x]))
                    ((trace s ++ [EvPop fut x]) ++ [EvResult fut r]))).
    { intros r. eapply FI_step;
        [exact H1 | reflexivity | reflexivity | reflexivity |].
      simpl. lia. }
    destruct (future_outcome env fut x) as [y|e] eqn:Er; simpl.
    + unfold logged_add_point, bind, log_append, call_add_point. simpl.
      eapply FI_step;
        [exact (H2 (Returns y)) | reflexivity | reflexivity | reflexivity |].
      simpl. lia.
    + eapply FI_weaken; [exact (H2 (Raises e)) | lia].
  - eapply FI_weaken; [exact H | lia].
Qed.

Lemma triple_in_flight_loop_body d :
  triple (FI (List.length d) d) (loop_body orc env mode self)
    (fun _ s => exists d', FI (List.length d') d' s)
    (fun _ s => exists d', FI 0 d' s).
Proof.
  unfold loop_body.
  eapply triple_bind.
  { apply triple_gets with
      (Q := fun n s => FI (List.length d) d s /\ n = List.length d).
    intros s H. split; [exact H|].
    destruct H as [evs [_ [_ [_ [_ D]]]]]. rewrite D. reflexivity. }
  intros n. eapply triple_bind.
  { instantiate (1 := fun points s =>
       FI (List.length d) d s /\ List.length points <= List.length d).
    intros s [H ->].
    pose proof (triple_in_flight_choose (List.length d) H) as Hc.
    destruct (logged_choose_points orc (List.length d) s) as [s' [pts|e]];
      [exact Hc | exists d; exact Hc]. }
  intros points. eapply triple_bind.
  { eapply triple_conseq with
      (P' := FI (List.length points) d)
      (Q' := fun _ => FI 0 d) (E' := fun _ => FI 0 d).
    - apply (triple_for (submit_into_xs env self)
               (fun rest => FI (List.length rest) d)).
      intros x rest. apply triple_in_flight_submit.
    - intros s [H Hle]. eapply FI_weaken; [exact H | lia].
    - intros u s H. exact H.
    - intros e s H. exists d. exact H. }
  intros ?. eapply triple_bind.
  { apply triple_gets with (Q := fun (_ : list nat) => FI 0 d). auto. }
  intros futures. eapply triple_bind.
  { instantiate (1 := fun _ => FI 0 d).
    intros s H. pose proof (triple_in_flight_wait futures H) as Hw.
    destruct (wait_first_completed env mode futures s) as [s' [r|e]];
      [exact Hw | exists d; exact Hw]. }
  intros done'. eapply triple_bind.
  { instantiate (1 := fun _ => FI 0 (map Some done')).
    intros s H. unfold assign_done. simpl.
    eapply FI_silent; [exact H | reflexivity | reflexivity | reflexivity | lia]. }
  intros ?. eapply triple_conseq.
  - apply triple_for with
      (I := fun rest s => exists k, k + List.length rest = List.length done' /\
                                    FI k (map Some done') s)
      (E := fun _ s => exists d', FI 0 d' s).
    intros fut rest s [k [Hk H]].
    pose proof (triple_in_flight_absorb fut H) as Ha.
    destruct (absorb orc env fut s) as [s' [[]|e]].
    + exists (S k). split; [simpl in Hk; lia | exact Ha].
    + exists (map Some done'). exact Ha.
  - intros s H. exists 0. split; [reflexivity | exact H].
  - intros _ s [k [Hk H]]. exists (map Some done').
    rewrite length_map. simpl in Hk. rewrite Nat.add_0_r in Hk. subst k.
    exact H.
  - auto.
Qed.

Lemma while_loop_in_flight fuel : forall (s : state L X Y) d,
  FI (List.length d) d s ->
  exists d', FI 0 d' (fst (while_loop orc env mode self fuel s)).
Proof.
  induction fuel as [|fuel IH]; intros s d H; simpl.
  - exists d. eapply FI_weaken; [exact H | lia].
  - destruct (goal self (learner s)); simpl.
    + exists d. eapply FI_weaken; [exact H | lia].
    + pose proof (triple_in_flight_loop_body H) as Hb.
      destruct (loop_body orc env mode self s) as [s1 [[]|e]]; simpl.
      * destruct Hb as [d' Hb]. eapply IH; eauto.
      * exact Hb.
Qed.

Lemma within_teardown (evs tds : list (event X Y)) :
  within N evs ->
  Forall (fun ev => teardown_event ev = true) tds ->
  within N (evs ++ tds).
Proof.
  intros W F. revert evs W.
  induction F as [|ev tds Hev _ IH]; intros evs W.
  - rewrite app_nil_r. exact W.
  - change (ev :: tds) with ([ev] ++ tds). rewrite app_assoc. apply IH.
    apply within_snoc; [exact W|].
    unfold outstanding, outstanding_from. rewrite fold_left_app. simpl.
    assert (E : outstanding_step (fold_left (@outstanding_step X Y) evs []) ev
                = fold_left (@outstanding_step X Y) evs []).
    { destruct ev; simpl in *; try discriminate; reflexivity. }
    rewrite E. apply (W evs []). symmetry. apply app_nil_r.
Qed.
End InFlightFacts.

Section InFlightClaim.
Variables L X Y : Type.
Variable orc : oracle L X Y.
Variable env : environment X Y.
Variable mode : strategy.
Variable self : runner L.

(** X11.  With a learner that returns no more points than it is asked
    for, a run never has more than [ntasks] futures in flight: at every
    point of its trace, the futures submitted and not yet popped from the
    map number at most [ntasks]. *)
Theorem never_more_than_ntasks_in_flight fuel (s : state L X Y) pre post :
  frugal orc ->
  trace (fst (_run orc env mode self fuel s)) = trace s ++ pre ++ post ->
  List.length (outstanding pre) <= Z.to_nat (ntasks self).
Proof.
  intros Hf Ht.
  set (N := Z.to_nat (ntasks self)) in *.
  assert (W : exists evs,
             trace (fst (_run orc env mode self fuel s)) = trace s ++ evs /\
             within N evs).
  { unfold _run. fold N.
    set (s1 := set_done (set_xs s []) (repeat None N)).
    destruct (Nat.eqb (List.length (done s1)) 0) eqn:E0.
    - exists []. simpl. rewrite app_nil_r. split; [reflexivity|].
      apply within_nil.
    - assert (H1 : in_flight_inv (trace s) N (List.length (repeat (@None nat) N))
                     (repeat None N) s1).
      { exists []. simpl. rewrite app_nil_r, repeat_length.
        repeat split; auto. apply within_nil. }
      destruct (while_loop_in_flight env mode self Hf fuel H1)
        as [d' [evs [T [K [W [_ _]]]]]].
      pose proof (finally_block_spec orc env mode self
                    (fst (while_loop orc env mode self fuel s1))) as Hfin.
      cbv zeta in Hfin.
      destruct (while_loop orc env mode self fuel s1) as [s' c].
      simpl in *.
      assert (Hcase : exists tds : list (event X Y),
                 trace (fst (finally_block orc env mode self s'))
                 = trace s ++ evs ++ tds /\
                 Forall (fun ev => teardown_event ev = true) tds).
      { destruct Hfin as [_ [_ [[_ Htr] | [_ [_ [e [_ Htr]]]]]]];
          rewrite Htr, T, <- app_assoc; eexists; (split; [reflexivity|]).
        - apply teardown_events_only.
        - apply teardown_cut_events_only. }
      destruct Hcase as [tds [Htr F]].
      destruct c as [|e|].
      + exists (evs ++ tds).
        destruct (finally_block orc env mode self s') as [s'' [[]|e']];
          simpl in *; (split; [exact Htr | apply within_teardown; auto]).
      + exists (evs ++ tds).
        destruct (finally_block orc env mode self s') as [s'' [[]|e']];
          simpl in *; (split; [exact Htr | apply within_teardown; auto]).
      + exists evs. simpl. auto. }
  destruct W as [evs [T W]]. rewrite Ht in T. apply app_inv_head in T.
  exact (W pre post (eq_sym T)).
Qed.
End InFlightClaim.

(* ================================================================== *)
(** ** Further properties: what is waited for, and what completion means *)

Section WaitsAndCompletion.
Variables L X Y : Type.
Variable orc : oracle L X Y.
Variable env : environment X Y.
Variable mode : strategy.
Variable self : runner L.

Local Abbreviation blocks' := (blocks env (_submit self)).

Lemma dict_remove_keys fut (d : list (nat * X)) :
  keys (dict_remove fut d) = remove_first fut (keys d).
Proof.
  induction d as [|[k x] d IH]; simpl; [reflexivity|].
  destruct (Nat.eqb k fut); simpl; [reflexivity | f_equal; exact IH].
Qed.

Lemma dict_after_keys (evs : list (event X Y)) : forall d,
  keys (dict_after d evs) = outstanding_from (keys d) evs.
Proof.
  unfold dict_after, outstanding_from.
  induction evs as [|ev evs IH]; intros d; [reflexivity|]. simpl.
  rewrite IH. f_equal.
  destruct ev as [| | |via x [fut|e]| |fut x| | | | | |]; simpl;
    try reflexivity.
  - unfold keys. rewrite map_app. reflexivity.
  - apply dict_remove_keys.
Qed.

Lemma blocks_wait d k (evs : list (event X Y)) :
  blocks' d k evs ->
  forall pre fs r post,
    evs = pre ++ EvWait fs r :: post ->
    fs = keys (dict_after d pre).
Proof.
  induction 1 as [d k | d k b evs Hb _ IH]; intros pre fs r post E.
  - destruct pre; discriminate.
  - apply app_eq_app in E. destruct E as [l [[Eb El] | [Ep El]]].
    + destruct l as [|a l].
      * simpl in El. rewrite app_nil_r in Eb. subst b.
        rewrite (IH [] fs r post (eq_sym El)). reflexivity.
      * inversion El; subst a. clear El.
        destruct Hb as [n | x0 Hs | x0 e Hs | r0 | fut x0 d' y0 Hp Hr
                       | fut x0 d' e Hp Hr];
          destruct pre as [|e1 [|e2 [|e3 [|e4 pre]]]]; simpl in Eb;
          try discriminate Eb.
        inversion Eb; subst. reflexivity.
    + subst pre. rewrite <- dict_after_app. eapply IH; eauto.
Qed.

(** X12.  Every wait of the loop is on all the futures in flight: the
    list handed to [wait] holds the futures submitted so far and not
    popped from the map since, in the order of their submission. *)
Theorem wait_is_on_all_outstanding fuel (s : state L X Y) pre fs r post :
  trace (fst (_run orc env mode self fuel s))
  = trace s ++ pre ++ EvWait fs r :: post ->
  fs = outstanding pre.
Proof.
  intros Ht.
  destruct (run_shape orc env mode self fuel s) as [evs [tds [T [B F]]]].
  rewrite Ht in T. apply app_inv_head in T.
  apply app_eq_app in T. destruct T as [l [[Ep El] | [Ee El]]].
  - exfalso. subst tds. apply Forall_app in F. destruct F as [_ F].
    inversion F; subst. discriminate.
  - destruct l as [|a l].
    + exfalso. simpl in El. subst tds. inversion F; subst. discriminate.
    + inversion El; subst a.
      rewrite (blocks_wait B _ _ _ _ Ee), dict_after_keys. reflexivity.
Qed.

(** X13.  A run is reported as completed only when the goal held: the
    loop was left with the goal true for the learner as the calls of the
    loop had made it, no result had failed, the whole teardown followed,
    and the learner the run leaves is that learner after
    [remove_unfinished]. *)
Theorem completed_means_goal_was_met fuel (s : state L X Y) :
  snd (_run orc env mode self fuel s) = Completed ->
  exists evs,
    trace (fst (_run orc env mode self fuel s))
    = trace s ++ evs ++ teardown (shutdown_executor self) (outstanding evs) /\
    Forall (fun ev => loop_event ev = true) evs /\
    clean evs /\
    goal self (learner_after orc (learner s) evs) = true /\
    learner (fst (_run orc env mode self fuel s))
    = remove_unfinished orc (learner_after orc (learner s) evs).
Proof.
  intros Hc.
  assert (Hn : (0 < ntasks self)%Z).
  { destruct (Z_lt_le_dec 0 (ntasks self)) as [Hn|Hn]; [exact Hn|].
    exfalso. unfold _run in Hc. simpl in Hc. rewrite repeat_length in Hc.
    replace (Z.to_nat (ntasks self)) with 0 in Hc by lia. discriminate. }
  assert (Hr : snd (_run orc env mode self fuel s) <> Running)
    by (rewrite Hc; discriminate).
  destruct (run_summary orc env mode self fuel s Hn Hr)
    as [evs [c [sl [[Fl _] [Hleft [_ [Hl [_ [Hfin Hcase]]]]]]]]].
  destruct Hcase as [[Ec Ht] | [_ [_ [e [Ee _]]]]];
    [|rewrite Hc in Ee; discriminate].
  rewrite Hc in Ec. subst c. destruct Hleft as [Hclean Hg].
  exists evs. rewrite Hfin, <- Hl. auto.
Qed.
End WaitsAndCompletion.

(* ================================================================== *)
(** ** Further properties: where a failure comes from *)

Section OriginFacts.
Variables L X Y : Type.
Variable orc : oracle L X Y.
Variable env : environment X Y.
Variable mode : strategy.
Variable self : runner L.
Variable t0 : list (event X Y).
Hypothesis Hwait : faithful_wait env.

Lemma since_snoc (s s' : state L X Y) ev :
  since t0 s -> trace s' = trace s ++ [ev] -> since t0 s'.
Proof.
  intros [evs T] T'. exists (evs ++ [ev]).
  rewrite T', T, app_assoc. reflexivity.
Qed.

Lemma raised_snoc (s s' : state L X Y) ev e :
  since t0 s -> trace s' = trace s ++ [ev] -> raises_of ev = Some e ->
  raised t0 e s'.
Proof.
  intros [evs T] T' He. exists evs, ev. rewrite T', T, app_assoc. auto.
Qed.

Lemma dict_pop_None fut (d : list (nat * X)) :
  dict_pop fut d = None -> ~ In fut (keys d).
Proof.
  induction d as [|[k x] d IH]; simpl; intros H; [tauto|].
  destruct (Nat.eqb k fut) eqn:E; [discriminate|].
  apply Nat.eqb_neq in E.
  destruct (dict_pop fut d) as [[y d'']|]; [discriminate|].
  intros [Hk|Hin]; [contradiction | exact (IH eq_refl Hin)].
Qed.

Lemma remove_first_other fut (l : list nat) k :
  In k l -> k <> fut -> In k (remove_first fut l).
Proof.
  induction l as [|a l IH]; simpl; intros Hin Hne; [exact Hin|].
  destruct (Nat.eqb a fut) eqn:E.
  - apply Nat.eqb_eq in E. destruct Hin as [->|Hin]; [contradiction|exact Hin].
  - destruct Hin as [->|Hin]; [left; reflexivity | right; auto].
Qed.

Lemma triple_origin_choose n :
  triple (since t0) (logged_choose_points orc n)
    (fun _ => since (L:=L) t0) (raised t0).
Proof.
  intros s H. unfold logged_choose_points, bind, log_append,
    call_choose_points. simpl.
  destruct (choose_points orc n (learner s)) as [pts l'].
  eapply since_snoc; [exact H | reflexivity].
Qed.

Lemma triple_origin_submit x :
  triple (since t0) (submit_into_xs env self x)
    (fun _ => since (L:=L) t0) (raised t0).
Proof.
  intros s H. unfold submit_into_xs, bind, call_submit, xs_set.
  destruct (submit_raises env (nfut s) x) as [e|]; simpl.
  - eapply raised_snoc; [exact H | reflexivity | reflexivity].
  - eapply since_snoc; [exact H | reflexivity].
Qed.

Lemma triple_origin_wait futures :
  triple (fun s : state L X Y => since t0 s /\ futures = keys (xs s))
    (wait_first_completed env mode futures)
    (fun d (s : state L X Y) => since t0 s /\ poppable d s) (raised t0).
Proof.
  intros s [H Hk]. unfold wait_first_completed.
  destruct futures as [|f fs].
  - destruct mode; simpl.
    + split; [eapply since_snoc; [exact H | reflexivity]|].
      split; [constructor | intros k []].
    + eapply raised_snoc; [exact H | reflexivity | reflexivity].
  - simpl. pose proof (Hwait (nwait s) (f :: fs)) as [Hnd Hincl].
    assert (Hincl' : incl (resolved_at env (nwait s) (f :: fs)) (keys (xs s)))
      by (rewrite <- Hk; exact Hincl).
    destruct mode; simpl.
    + split; [eapply since_snoc; [exact H | reflexivity]|].
      split; [exact Hnd | exact Hincl'].
    + destruct (thrown_at env (nwait s)) as [e|]; simpl.
      * eapply raised_snoc; [exact H | reflexivity | reflexivity].
      * split; [eapply since_snoc; [exact H | reflexivity]|].
        split; [exact Hnd | exact Hincl'].
Qed.

Lemma triple_origin_absorb fut rest :
  triple (fun s : state L X Y => since t0 s /\ poppable (fut :: rest) s)
    (absorb orc env fut)
    (fun _ (s : state L X Y) => since t0 s /\ poppable rest s) (raised t0).
Proof.
  intros s [H [Hnd Hincl]]. unfold absorb, bind, xs_pop.
  destruct (dict_pop fut (xs s)) as [[x xs']|] eqn:Ep; simpl.
  - pose proof (dict_pop_keys _ _ Ep) as Hkeys.
    assert (H1 : since t0 (set_trace (set_xs s xs') (trace s ++ [EvPop fut x])))
      by (eapply since_snoc; [exact H | reflexivity]).
    unfold call_result. simpl.
    destruct (future_outcome env fut x) as [y|e] eqn:Er; simpl.
    + unfold logged_add_point, bind, log_append, call_add_point. simpl.
      split.
      * assert (H2 : since t0
                  (set_trace
                     (set_trace (set_xs s xs') (trace s ++ [EvPop fut x]))
                     ((trace s ++ [EvPop fut x])
                      ++ [EvResult fut (Returns y)])))
          by (eapply since_snoc; [exact H1 | reflexivity]).
        eapply since_snoc; [exact H2 | reflexivity].
      * inversion Hnd; subst. split; [assumption|].
        intros k Hk. simpl. rewrite Hkeys. apply remove_first_other.
        -- apply Hincl. right. exact Hk.
        -- intros ->. contradiction.
    + eapply raised_snoc; [exact H1 | reflexivity | reflexivity].
  - exfalso. apply (dict_pop_None _ _ Ep). apply Hincl. left. reflexivity.
Qed.

Lemma triple_origin_loop_body :
  triple (since t0) (loop_body orc env mode self)
    (fun _ => since (L:=L) t0) (raised t0).
Proof.
  unfold loop_body.
  eapply triple_bind.
  { apply triple_gets with (Q := fun (_ : nat) => since (L:=L) t0). auto. }
  intros n. eapply triple_bind; [apply triple_origin_choose|].
  intros points. eapply triple_bind.
  { apply (triple_for (submit_into_xs env self)
             (fun _ => since (L:=L) t0)).
    intros x rest. apply triple_origin_submit. }
  intros ?. eapply triple_bind.
  { apply triple_gets with
      (Q := fun futures (s : state L X Y) =>
              since t0 s /\ futures = keys (xs s)). auto. }
  intros futures. eapply triple_bind; [apply triple_origin_wait|].
  intros done'. eapply triple_bind.
  { instantiate (1 := fun _ (s : state L X Y) =>
                        since t0 s /\ poppable done' s).
    intros s H. exact H. }
  intros ?. eapply triple_conseq.
  - apply (triple_for (absorb orc env)
             (fun rest (s : state L X Y) => since t0 s /\ poppable rest s)).
    intros fut rest. apply triple_origin_absorb.
  - auto.
  - intros _ s [H _]. exact H.
  - auto.
Qed.

Lemma while_loop_origin fuel : forall s : state L X Y,
  since t0 s ->
  match while_loop orc env mode self fuel s with
  | (s', Failed e) => raised t0 e s'
  | (s', _) => since t0 s'
  end.
Proof.
  induction fuel as [|fuel IH]; intros s H; simpl; [exact H|].
  destruct (goal self (learner s)); simpl; [exact H|].
  pose proof (triple_origin_loop_body H) as Hb.
  destruct (loop_body orc env mode self s) as [s1 [[]|e]]; simpl;
    [apply IH; exact Hb | exact Hb].
Qed.

Lemma teardown_raises_nothing shutdown (l : list nat) :
  Forall (fun ev : event X Y => raises_of ev = None) (teardown shutdown l).
Proof.
  unfold teardown. constructor; [reflexivity|]. apply Forall_app. split.
  - destruct l as [|f l]; [constructor|]. apply Forall_app. split.
    + apply Forall_forall. intros ev Hin. apply in_map_iff in Hin.
      destruct Hin as [k [<- _]]. reflexivity.
    + repeat constructor.
  - destruct shutdown; repeat constructor.
Qed.
End OriginFacts.

Section OriginClaim.
Variables L X Y : Type.
Variable orc : oracle L X Y.
Variable env : environment X Y.
Variable mode : strategy.
Variable self : runner L.

(** X14.  The runner raises one exception of its own, the
    [RuntimeError] for a runner without workers, and then nothing has
    happened.  When the waits report what [wait] reports (each future
    once, and only futures waited for), every other failure of a run is
    the exception of the last submission, wait or [result()] that
    raised: nothing raised is swallowed, and [xs.pop] never fails. *)
Theorem a_failure_is_the_last_exception_raised fuel (s : state L X Y) e :
  faithful_wait env ->
  snd (_run orc env mode self fuel s) = Failed e ->
  ((ntasks self <= 0)%Z /\
   e = RuntimeError "Executor has no workers" /\
   trace (fst (_run orc env mode self fuel s)) = trace s)
  \/
  exists pre ev post,
    trace (fst (_run orc env mode self fuel s)) = trace s ++ pre ++ ev :: post /\
    raises_of ev = Some e /\
    Forall (fun ev' => raises_of ev' = None) post.
Proof.
  intros Hw. unfold _run.
  set (s1 := set_done (set_xs s []) (repeat None (Z.to_nat (ntasks self)))).
  destruct (Nat.eqb (List.length (done s1)) 0) eqn:E0.
  - intros He. left. simpl in He. inversion He.
    apply Nat.eqb_eq in E0. unfold s1 in E0. simpl in E0.
    rewrite repeat_length in E0. repeat split; auto. lia.
  - assert (H1 : since (trace s) s1)
      by (exists []; simpl; rewrite app_nil_r; reflexivity).
    pose proof (while_loop_origin orc mode self Hw fuel H1) as Hloop.
    pose proof (finally_block_spec orc env mode self
                  (fst (while_loop orc env mode self fuel s1))) as Hfin.
    cbv zeta in Hfin.
    destruct (while_loop orc env mode self fuel s1) as [s' c].
    simpl in Hfin.
    destruct Hfin as [_ [_ [[Hr Ht] | [_ [_ [e2 [Hr Ht]]]]]]].
    + (* the teardown ran to its end *)
      destruct c as [|e1|];
        destruct (finally_block orc env mode self s') as [s'' [[]|e']];
        simpl in *; try discriminate; intros He; inversion He; subst.
      destruct Hloop as [evs [ev [T Hev]]]. right.
      exists evs, ev, (teardown (shutdown_executor self) (keys (xs s'))).
      split; [rewrite Ht, T; repeat (rewrite <- app_assoc; simpl); reflexivity|].
      split; [exact Hev | apply teardown_raises_nothing].
    + (* the wait of the teardown raised *)
      assert (Hs : since (trace s) s')
        by (destruct c; auto; destruct Hloop as [evs [ev [T _]]];
            exists (evs ++ [ev]); exact T).
      destruct Hs as [evs T].
      destruct c as [|e1|]; [| |simpl; discriminate];
        destruct (finally_block orc env mode self s') as [s'' [[]|e']];
        simpl in *; try discriminate;
        inversion Hr; subst e2; intros He; inversion He; subst; right;
        exists (evs ++ EvRemoveUnfinished :: map EvCancel (keys (xs s'))),
               (EvWaitAll (keys (xs s')) (Some e)), [];
        (split; [|split; [reflexivity | constructor]]);
        rewrite Ht, T; unfold teardown_cut;
        repeat (rewrite <- app_assoc; simpl); reflexivity.
Qed.
End OriginClaim.

(* ================================================================== *)
(** ** Further properties: the pool of a runner that learns a coroutine *)

Section CoroutinePool.
Variables L X Y : Type.
Variable pf : platform.
Variable orc : oracle L X Y.

Lemma AsyncRunner_init_own_pool goal_arg a (s0 : state L X Y) :
  arg_executor a = None ->
  exists s self evs,
    AsyncRunner_init pf true goal_arg a s0 = (s, Returns self) /\
    shutdown_executor self = true /\
    trace s = trace s0 ++ EvNewPool :: evs ++ [EvShutdown] /\
    count (@is_shutdown X Y) evs = 0.
Proof.
  intros Hnone.
  assert (Hbase : exists s1 self1,
             BaseRunner_init pf (goal_of goal_arg) a s0
             = (s1, Returns self1)).
  { unfold BaseRunner_init, bind, call_ensure_executor.
    rewrite Hnone. simpl.
    assert (Hc : exists s2 n,
               call_get_ncores pf (new_ProcessPoolExecutor (cpu_count pf))
                 (set_trace s0 (trace s0 ++ [EvNewPool]))
               = (s2 : state L X Y, Returns n)).
    { unfold call_get_ncores, bind, emit, _get_ncores. simpl.
      rewrite ?andb_false_r. simpl. unfold ret. eauto. }
    destruct Hc as [s2 [n Hc]].
    destruct (arg_ntasks a) as [m|]; [destruct (Z.eqb m 0)|];
      rewrite ?Hc; simpl; unfold ret; eauto. }
  destruct Hbase as [s1 [self1 Hb]].
  destruct (BaseRunner_init_inv _ _ _ _ Hb)
    as [_ [_ [Hsh [_ [_ [_ [_ [_ [_ [_ Htr]]]]]]]]]].
  unfold AsyncRunner_init, bind. fold (goal_of goal_arg).
  rewrite Hb. unfold truthy. rewrite Hnone. simpl.
  assert (Hev : exists evs : list (event X Y),
             trace s1 = trace s0 ++ EvNewPool :: evs /\
             count (@is_shutdown X Y) evs = 0).
  { unfold pool_events in Htr. rewrite Hnone in Htr. simpl in Htr.
    destruct Htr as [[n [_ [_ [_ Ht]]]] | [_ [c [_ [_ Ht]]]]];
      rewrite Ht; eauto. }
  destruct Hev as [evs [Hev Hcount]].
  eexists. eexists. exists evs. split; [reflexivity|]. simpl.
  split; [rewrite Hsh, Hnone; apply orb_true_r|].
  split; [rewrite Hev, <- app_assoc; reflexivity | exact Hcount].
Qed.

(** X15.  An [AsyncRunner] that learns a coroutine function with no
    executor passed shuts the pool it made down in the constructor, and
    keeps [shutdown_executor] true, the pool being its own.  A run of it
    that has left [_run] has shut the pool down a second time, in the
    [finally] block, when the runner has at least one task and the
    teardown ran to its end.  The pool stays at its one shutdown in the
    two other cases: the wait of the teardown was left by an exception,
    which ended the run before the shutdown; or the runner has no
    workers ([ntasks <= 0]), and the run failed before the [try]
    block. *)
Theorem coroutine_pool_is_shut_down_twice goal_arg a (s0 s : state L X Y)
    self (env : environment X Y) fuel :
  arg_executor a = None ->
  AsyncRunner_init pf true goal_arg a s0 = (s, Returns self) ->
  snd (_run orc env Async self fuel s) <> Running ->
  shutdown_executor self = true /\
  count (@is_shutdown X Y) (trace s) = count (@is_shutdown X Y) (trace s0) + 1 /\
  (((0 < ntasks self)%Z /\
    count (@is_shutdown X Y) (trace (fst (_run orc env Async self fuel s)))
    = count (@is_shutdown X Y) (trace s0) + 2)
   \/
   ((0 < ntasks self)%Z /\
    count (@is_shutdown X Y) (trace (fst (_run orc env Async self fuel s)))
    = count (@is_shutdown X Y) (trace s0) + 1 /\
    exists pre fs e,
      snd (_run orc env Async self fuel s) = Failed e /\
      trace (fst (_run orc env Async self fuel s))
      = pre ++ [EvWaitAll fs (Some e)])
   \/
   ((ntasks self <= 0)%Z /\
    count (@is_shutdown X Y) (trace (fst (_run orc env Async self fuel s)))
    = count (@is_shutdown X Y) (trace s0) + 1 /\
    snd (_run orc env Async self fuel s)
    = Failed (RuntimeError "Executor has no workers") /\
    trace (fst (_run orc env Async self fuel s)) = trace s)).
Proof.
  intros Hnone Hi Hr.
  destruct (AsyncRunner_init_own_pool goal_arg a s0 Hnone)
    as [s' [self' [evs [Hi' [Hsh [Ht Hc]]]]]].
  rewrite Hi in Hi'. inversion Hi'; subst s' self'. clear Hi'.
  split; [exact Hsh|].
  assert (Hs : count (@is_shutdown X Y) (trace s)
               = count (@is_shutdown X Y) (trace s0) + 1).
  { rewrite Ht.
    change (EvNewPool :: evs ++ [EvShutdown])
      with ([EvNewPool (X:=X) (Y:=Y)] ++ evs ++ [EvShutdown]).
    rewrite !count_app, Hc. reflexivity. }
  split; [exact Hs|].
  destruct (Z_lt_le_dec 0 (ntasks self)) as [Hn|Hn].
  - destruct (run_summary orc env Async self fuel s Hn Hr)
      as [evs' [c [sl [[Fl _] [_ [_ [_ [_ [_ H]]]]]]]]].
    assert (C0 : count (@is_shutdown X Y) evs' = 0).
    { eapply count_none; [|exact Fl]. intros [] E; simpl in *; congruence. }
    destruct H as [[_ Htr] | [_ [_ [e [He Htr]]]]].
    + left. split; [exact Hn|].
      rewrite Htr, !count_app, Hs, C0, count_shutdown_teardown, Hsh. lia.
    + right. left. split; [exact Hn|]. split.
      * rewrite Htr, !count_app, Hs, C0, count_shutdown_teardown_cut. lia.
      * exists (trace s ++ evs'
                ++ EvRemoveUnfinished :: map EvCancel (outstanding evs')),
               (outstanding evs'), e.
        split; [exact He|]. rewrite Htr. unfold teardown_cut.
        repeat (rewrite <- app_assoc; simpl). reflexivity.
  - right. right. split; [exact Hn|].
    unfold _run. simpl. rewrite repeat_length.
    replace (Z.to_nat (ntasks self)) with 0 by lia. simpl.
    split; [exact Hs|]. split; reflexivity.
Qed.
End CoroutinePool.

(* ================================================================== *)
(** ** The further properties on concrete runs *)

Lemma counting_is_frugal : frugal Example.counting.
Proof. intros n l. simpl. rewrite length_seq. apply Nat.le_refl. Qed.

Lemma firstn_1_faithful (futures : list nat) :
  NoDup (firstn 1 futures) /\ incl (firstn 1 futures) futures.
Proof.
  destruct futures as [|f fs]; simpl.
  - split; [constructor | intros k []].
  - split; [repeat constructor; intros [] | intros k [<-|[]]; left; reflexivity].
Qed.

Lemma failing_on_1_is_faithful : faithful_wait Example.failing_on_1.
Proof. intros k futures. apply firstn_1_faithful. Qed.

(** The second point of a run over two tasks. *)
Lemma add_point_pairs_input_with_its_result_witness :
  let self := Example.two_tasks (Example.enough 3) in
  let r := _run Example.counting Example.one_by_one Blocking self 10
                Example.start in
  let pre := [EvChoosePoints 2;
              EvSubmit to_executor 0 (Returns 0);
              EvSubmit to_executor 1 (Returns 1);
              EvWait [0; 1] (Returns [0]);
              EvPop 0 0; EvResult 0 (Returns 0); EvAddPoint 0 0;
              EvChoosePoints 1; EvSubmit to_executor 2 (Returns 2);
              EvWait [1; 2] (Returns [1]);
              EvPop 1 1; EvResult 1 (Returns 1)] in
  let post := [EvChoosePoints 1; EvSubmit to_executor 3 (Returns 3);
               EvWait [2; 3] (Returns [2]);
               EvPop 2 2; EvResult 2 (Returns 4); EvAddPoint 2 4;
               EvRemoveUnfinished; EvCancel 3; EvWaitAll [3] None;
               EvShutdown] in
  trace (fst r) = trace Example.start ++ pre ++ EvAddPoint 1 1 :: post /\
  exists fut pre',
    pre = pre' ++ [EvPop fut 1; EvResult fut (Returns 1)] /\
    In (EvSubmit (_submit self) 1 (Returns fut)) pre' /\
    future_outcome Example.one_by_one fut 1 = Returns 1.
Proof.
  intros self r pre post.
  split; [vm_compute; reflexivity|].
  apply (@add_point_pairs_input_with_its_result _ _ _
           Example.counting Example.one_by_one Blocking
           self 10 Example.start pre 1 1 post).
  vm_compute. reflexivity.
Defined.

(** Four futures: three popped, the fourth cancelled. *)
Lemma every_future_is_popped_or_cancelled_witness :
  let self := Example.two_tasks (Example.enough 3) in
  let r := _run Example.counting Example.one_by_one Blocking self 10
                Example.start in
  snd r <> Running /\
  exists evs,
    trace (fst r) = trace Example.start ++ evs /\
    NoDup (map fst (submitted evs)) /\
    Permutation (map fst (submitted evs)) (popped evs ++ cancelled evs).
Proof.
  intros self r.
  assert (H : snd r <> Running) by (vm_compute; discriminate).
  split; [exact H|].
  exact (@every_future_is_popped_or_cancelled _ _ _
           Example.counting Example.one_by_one Blocking
           self 10 Example.start H).
Defined.

(** Two tasks: two futures in flight after the second submission. *)
Lemma never_more_than_ntasks_in_flight_witness :
  let self := Example.two_tasks (Example.enough 3) in
  let r := _run Example.counting Example.one_by_one Blocking self 10
                Example.start in
  let pre := [EvChoosePoints 2;
              EvSubmit to_executor 0 (Returns 0);
              EvSubmit to_executor 1 (Returns 1)] in
  let post := [EvWait [0; 1] (Returns [0]);
               EvPop 0 0; EvResult 0 (Returns 0); EvAddPoint 0 0;
               EvChoosePoints 1; EvSubmit to_executor 2 (Returns 2);
               EvWait [1; 2] (Returns [1]);
               EvPop 1 1; EvResult 1 (Returns 1); EvAddPoint 1 1;
               EvChoosePoints 1; EvSubmit to_executor 3 (Returns 3);
               EvWait [2; 3] (Returns [2]);
               EvPop 2 2; EvResult 2 (Returns 4); EvAddPoint 2 4;
               EvRemoveUnfinished; EvCancel 3; EvWaitAll [3] None;
               EvShutdown] in
  frugal Example.counting /\
  trace (fst r) = trace Example.start ++ pre ++ post /\
  List.length (outstanding pre) <= Z.to_nat (ntasks self).
Proof.
  intros self r pre post.
  split; [exact counting_is_frugal|].
  split; [vm_compute; reflexivity|].
  apply (@never_more_than_ntasks_in_flight _ _ _
           Example.counting Example.one_by_one Blocking
           self 10 Example.start pre post counting_is_frugal).
  vm_compute. reflexivity.
Defined.

(** The second wait of the run, on the futures [1] and [2]. *)
Lemma wait_is_on_all_outstanding_witness :
  let self := Example.two_tasks (Example.enough 3) in
  let r := _run Example.counting Example.one_by_one Blocking self 10
                Example.start in
  let pre := [EvChoosePoints 2;
              EvSubmit to_executor 0 (Returns 0);
              EvSubmit to_executor 1 (Returns 1);
              EvWait [0; 1] (Returns [0]);
              EvPop 0 0; EvResult 0 (Returns 0); EvAddPoint 0 0;
              EvChoosePoints 1; EvSubmit to_executor 2 (Returns 2)] in
  let post := [EvPop 1 1; EvResult 1 (Returns 1); EvAddPoint 1 1;
               EvChoosePoints 1; EvSubmit to_executor 3 (Returns 3);
               EvWait [2; 3] (Returns [2]);
               EvPop 2 2; EvResult 2 (Returns 4); EvAddPoint 2 4;
               EvRemoveUnfinished; EvCancel 3; EvWaitAll [3] None;
               EvShutdown] in
  trace (fst r)
  = trace Example.start ++ pre ++ EvWait [1; 2] (Returns [1]) :: post /\
  [1; 2] = outstanding pre.
Proof.
  intros self r pre post.
  split; [vm_compute; reflexivity|].
  apply (@wait_is_on_all_outstanding _ _ _
           Example.counting Example.one_by_one Blocking
           self 10 Example.start pre [1; 2] (Returns [1]) post).
  vm_compute. reflexivity.
Defined.

(** A run that gets its three points. *)
Lemma completed_means_goal_was_met_witness :
  let self := Example.two_tasks (Example.enough 3) in
  let r := _run Example.counting Example.one_by_one Blocking self 10
                Example.start in
  snd r = Completed /\
  exists evs,
    trace (fst r)
    = trace Example.start ++ evs
      ++ teardown (shutdown_executor self) (outstanding evs) /\
    Forall (fun ev => loop_event ev = true) evs /\
    clean evs /\
    goal self (learner_after Example.counting (learner Example.start) evs)
    = true /\
    learner (fst r)
    = remove_unfinished Example.counting
        (learner_after Example.counting (learner Example.start) evs).
Proof.
  intros self r.
  assert (H : snd r = Completed) by (vm_compute; reflexivity).
  split; [exact H|].
  exact (@completed_means_goal_was_met _ _ _
           Example.counting Example.one_by_one Blocking
           self 10 Example.start H).
Defined.

(** The work on input [1] divides by zero. *)
Lemma a_failure_is_the_last_exception_raised_witness :
  let self := Example.two_tasks (Example.enough 3) in
  let r := _run Example.counting Example.failing_on_1 Blocking self 10
                Example.start in
  faithful_wait Example.failing_on_1 /\
  snd r = Failed Example.ZeroDivisionError /\
  (((ntasks self <= 0)%Z /\
    Example.ZeroDivisionError = RuntimeError "Executor has no workers" /\
    trace (fst r) = trace Example.start)
   \/
   exists pre ev post,
     trace (fst r) = trace Example.start ++ pre ++ ev :: post /\
     raises_of ev = Some Example.ZeroDivisionError /\
     Forall (fun ev' => raises_of ev' = None) post).
Proof.
  intros self r.
  assert (H : snd r = Failed Example.ZeroDivisionError)
    by (vm_compute; reflexivity).
  split; [exact failing_on_1_is_faithful|].
  split; [exact H|].
  exact (@a_failure_is_the_last_exception_raised _ _ _
           Example.counting Example.failing_on_1 Blocking
           self 10 Example.start Example.ZeroDivisionError
           failing_on_1_is_faithful H).
Defined.

(** A coroutine function learned over no executor of the caller's. *)
Lemma coroutine_pool_is_shut_down_twice_witness :
  let a := mk_init_args None (Some 2%Z) false false in
  let s := set_trace Example.start [EvNewPool; EvShutdown] in
  let self := mk_runner (new_ProcessPoolExecutor 4) (Example.enough 3) 2 true
                        on_ioloop in
  let r := _run Example.counting Example.one_by_one Async self 10 s in
  arg_executor a = None /\
  AsyncRunner_init Example.machine true (Some (Example.enough 3)) a
    Example.start = (s, Returns self) /\
  snd r <> Running /\
  shutdown_executor self = true /\
  count (@is_shutdown nat nat) (trace s)
  = count (@is_shutdown nat nat) (trace Example.start) + 1 /\
  (((0 < ntasks self)%Z /\
    count (@is_shutdown nat nat) (trace (fst r))
    = count (@is_shutdown nat nat) (trace Example.start) + 2)
   \/
   ((0 < ntasks self)%Z /\
    count (@is_shutdown nat nat) (trace (fst r))
    = count (@is_shutdown nat nat) (trace Example.start) + 1 /\
    exists pre fs e,
      snd r = Failed e /\ trace (fst r) = pre ++ [EvWaitAll fs (Some e)])
   \/
   ((ntasks self <= 0)%Z /\
    count (@is_shutdown nat nat) (trace (fst r))
    = count (@is_shutdown nat nat) (trace Example.start) + 1 /\
    snd r = Failed (RuntimeError "Executor has no workers") /\
    trace (fst r) = trace s)).
Proof.
  intros a s self r.
  assert (Hr : snd r <> Running) by (vm_compute; discriminate).
  split; [reflexivity|]. split; [reflexivity|]. split; [exact Hr|].
  exact (@coroutine_pool_is_shut_down_twice _ _ _ Example.machine
           Example.counting (Some (Example.enough 3)) a Example.start s self
           Example.one_by_one 10 eq_refl eq_refl Hr).
Defined.
